(** * task-manager: the task handler and its goroutines

    A shallow embedding of [handlers/tasks.go] and of [main.go].  Every
    goroutine of the program (HTTP handler, [task] worker, [rollBack],
    [main]) is a small machine whose program points are the source lines
    that touch shared memory or produce an observable effect; a scheduler
    interleaves them. *)

From Stdlib Require Import Ascii.
From stdpp Require Import gmap strings list fin_maps.

(** ** Constants (tasks.go, lines 18-30) *)

Definition start : Z := 2.
Definition pause : Z := 1.
Definition kill : Z := 0.

Definition taskDuration : Z := 3.
Definition taskCount : Z := 10.
Definition rollbackDuration : Z := 1.

(** main.go, line 227 *)
Definition timeout : Z := 30.

Definition StatusOK : Z := 200.
Definition StatusBadRequest : Z := 400.

(** ** Response (lines 33-38) *)

Record Response := mkResponse {
  UUID : string;
  Err : string;
  Message : string;
  Success : bool
}.

Global Instance Response_eq_dec : EqDecision Response.
Proof. solve_decision. Defined.

(** ** Channels

    A [chan int] value is a reference into a heap of channel objects, or
    nil.  The operations follow the Go language specification: a send on a
    full channel and a receive on an empty one block, both block for ever
    on nil, a send on a closed channel and a close of a nil or closed
    channel panic, a receive on a closed and drained channel yields the
    zero value. *)

Record chan := mkChan {
  cap : nat;
  buf : list Z;
  closed : bool
}.

Global Instance chan_eq_dec : EqDecision chan.
Proof. solve_decision. Defined.

Definition make_chan (n : nat) : chan := mkChan n [] false.

Inductive res (A : Type) :=
| Ok (a : A)
| Block
| Panic.
Arguments Ok {A} a.
Arguments Block {A}.
Arguments Panic {A}.

Definition deref (h : list chan) (c : option nat) : option chan :=
  match c with
  | None => None
  | Some r => h !! r
  end.

Definition chan_len (h : list chan) (c : option nat) : nat :=
  match deref h c with
  | None => 0
  | Some ch => length (buf ch)
  end.

Definition chan_send (h : list chan) (c : option nat) (v : Z) : res (list chan) :=
  match c, deref h c with
  | Some r, Some ch =>
      if closed ch then Panic
      else if bool_decide (length (buf ch) < cap ch)
           then Ok (<[r := mkChan (cap ch) (buf ch ++ [v]) false]> h)
           else Block
  | _, _ => Block
  end.

Definition chan_recv (h : list chan) (c : option nat) : res (Z * list chan) :=
  match c, deref h c with
  | Some r, Some ch =>
      match buf ch with
      | v :: rest => Ok (v, <[r := mkChan (cap ch) rest (closed ch)]> h)
      | [] => if closed ch then Ok (0%Z, h) else Block
      end
  | _, _ => Block
  end.

Definition chan_close (h : list chan) (c : option nat) : res (list chan) :=
  match c, deref h c with
  | Some r, Some ch =>
      if closed ch then Panic
      else Ok (<[r := mkChan (cap ch) (buf ch) true]> h)
  | _, _ => Panic
  end.

(** ** Shared memory

    The fields of [TaskHandler] (lines 53-58) other than the logger, the
    package variable [counter] (line 50), the heap of channel objects
    the [workers] map points into, and whether a signal is pending on the
    one-slot [sigChan] of [main]. *)

Record Store := mkStore {
  heap : list chan;
  counter : Z;
  wg : Z;
  workers : gmap string nat;
  states : gmap string Z;
  sigChan : bool
}.

Definition set_heap (h : list chan) (s : Store) : Store :=
  mkStore h (counter s) (wg s) (workers s) (states s) (sigChan s).
Definition set_counter (n : Z) (s : Store) : Store :=
  mkStore (heap s) n (wg s) (workers s) (states s) (sigChan s).
Definition set_wg (n : Z) (s : Store) : Store :=
  mkStore (heap s) (counter s) n (workers s) (states s) (sigChan s).
Definition set_workers (m : gmap string nat) (s : Store) : Store :=
  mkStore (heap s) (counter s) (wg s) m (states s) (sigChan s).
Definition set_states (m : gmap string Z) (s : Store) : Store :=
  mkStore (heap s) (counter s) (wg s) (workers s) m (sigChan s).
Definition set_sigChan (b : bool) (s : Store) : Store :=
  mkStore (heap s) (counter s) (wg s) (workers s) (states s) b.

(** [NewTaskHandler] (lines 61-65): two empty maps; the wait group of
    [main] starts at zero, [counter] at its zero value, and no signal is
    pending on [sigChan] (main.go, line 259). *)
Definition NewTaskHandler : Store := mkStore [] 0 0 ∅ ∅ false.

(** [sync.WaitGroup.Add]: a counter that would become negative panics. *)
Definition wg_Add (delta : Z) (s : Store) : res Store :=
  if bool_decide (wg s + delta < 0)%Z then Panic
  else Ok (set_wg (wg s + delta) s).

Definition wg_Done (s : Store) : res Store := wg_Add (-1) s.

(** [t.states[uuid]]: a missing key reads as the zero value. *)
Definition state_of (s : Store) (uuid : string) : Z :=
  default 0%Z (states s !! uuid).

(** [t.workers[uuid]]: a missing key reads as the nil channel. *)
Definition worker_of (s : Store) (uuid : string) : option nat :=
  workers s !! uuid.

(** ** Program points *)

(** where [task] returned from: line 184 or the end of the body *)
Inductive ret := RetKill | RetEnd.

(** [task] (lines 165-198) with the deferred [closeRoutine]
    (lines 126-131).  A point carries the local [state] where it is in
    scope, and the channel operand of a blocking receive once it has
    been evaluated; line 174 is only reached with [state = pause]. *)
Inductive wpc :=
| W166
| W170
| W171
| W172
| W172r (c : option nat)
| W173 (state : Z)
| W174
| W175 (state : Z)
| W176
| W176r (c : option nat)
| W180 (state : Z)
| W181
| W182
| W183
| W184
| W187
| W190
| W193
| W194
| W197
| W127 (r : ret)
| W128 (r : ret)
| W129 (r : ret)
| W130 (r : ret)
| WExit (r : ret).

Record wlocal := mkW {
  w_id : Z;
  w_uuid : string;
  w_count : Z;
  w_i : Z;
  w_pc : wpc
}.

(** [rollBack] (lines 200-207); [R202] is the deferred [wg.Done]. *)
Inductive rpc := R201 | R205 | R206 | R202 | RExit.

Record rlocal := mkR {
  r_uuid : string;
  r_pc : rpc
}.

(** The routes of main.go, lines 239-246. *)
Inductive request :=
| ReqCreate (raw : string)
| ReqPause (id : string)
| ReqResume (id : string)
| ReqDelete (id : string).

(** One goroutine of the HTTP server per request: [MiddlewareCheckTask]
    (M), [CreateTask] (C), [PauseTask] (P), [ResumeTask] (R),
    [DeleteTask] (D).  [HRecovered] is a handler whose panic the server
    caught. *)
Inductive hpc :=
| C69 | C71 | C72 | C73 | C74 | C75 | C75s (c : option nat) | C76 | C77 | C79
| M149 | M153
| P85 | P87 | P90 | P91 | P91s (c : option nat) | P92 | P94
| R101 | R103 | R107 | R108 | R108s (c : option nat) | R109 | R111
| D118 | D119 | D119s (c : option nat) | D120 | D122
| HExit
| HRecovered.

Record hlocal := mkH {
  h_req : request;
  h_uuid : string;
  h_pc : hpc
}.

(** [main] from line 263 on, with [TerminateTasks] (lines 134-138)
    inlined; the range loop carries the keys it has not visited yet. *)
Inductive mpc :=
| Main263
| Main266
| T135 (todo : list string)
| T136 (k : string) (todo : list string)
| T136s (c : option nat) (todo : list string)
| Main269
| Main271
| Main272
| Main277
| MainExit.

Inductive thread :=
| TTask (w : wlocal)
| TRollback (r : rlocal)
| THandler (h : hlocal)
| TMain (m : mpc).

(** ** Observable events *)

(** an argument of [logger.Println] *)
Inductive arg := AStr (s : string) | AInt (n : Z).

Inductive event :=
| ELog (line : list arg)
| ESend (c : option nat) (v : Z)
| ERecv (c : option nat) (v : Z)
| EGo (t : thread)
| ERespond (code : Z) (r : Response)
| ESleep (secs : Z)
| EGosched
| EClose (c : option nat)
| EShutdown
| EPanic.

Global Instance ret_eq_dec : EqDecision ret.
Proof. solve_decision. Defined.
Global Instance wpc_eq_dec : EqDecision wpc.
Proof. solve_decision. Defined.
Global Instance wlocal_eq_dec : EqDecision wlocal.
Proof. solve_decision. Defined.
Global Instance rpc_eq_dec : EqDecision rpc.
Proof. solve_decision. Defined.
Global Instance rlocal_eq_dec : EqDecision rlocal.
Proof. solve_decision. Defined.
Global Instance request_eq_dec : EqDecision request.
Proof. solve_decision. Defined.
Global Instance hpc_eq_dec : EqDecision hpc.
Proof. solve_decision. Defined.
Global Instance hlocal_eq_dec : EqDecision hlocal.
Proof. solve_decision. Defined.
Global Instance mpc_eq_dec : EqDecision mpc.
Proof. solve_decision. Defined.
Global Instance thread_eq_dec : EqDecision thread.
Proof. solve_decision. Defined.
Global Instance arg_eq_dec : EqDecision arg.
Proof. solve_decision. Defined.
Global Instance event_eq_dec : EqDecision event.
Proof. solve_decision. Defined.

(** What one step of a goroutine does. *)
Inductive outcome (L : Type) :=
| Step (s : Store) (l : L) (evs : list event)
| Blocked
| Panicked
| Halted.
Arguments Step {L} s l evs.
Arguments Blocked {L}.
Arguments Panicked {L}.
Arguments Halted {L}.

(** ** The goroutines, one step at a time *)

(** [strings.ReplaceAll(s, old, new)] for a one-byte [old], as at its only
    call site (line 71). *)
Fixpoint ReplaceAll (s : string) (old : Ascii.ascii) (new : string) : string :=
  match s with
  | EmptyString => EmptyString
  | String c s' =>
      if bool_decide (c = old) then new +:+ ReplaceAll s' old new
      else String c (ReplaceAll s' old new)
  end.

(** Go's [int] is 64 bits wide on the platforms the server runs on. *)
Definition int_wrap (z : Z) : Z := ((z + 2 ^ 63) `mod` 2 ^ 64 - 2 ^ 63)%Z.

Definition w_goto (w : wlocal) (pc : wpc) : wlocal :=
  mkW (w_id w) (w_uuid w) (w_count w) (w_i w) pc.

Definition status_line (uuid st : string) : list arg :=
  [AStr "uuid:"; AStr uuid; AStr st].

(** [task] and [closeRoutine]. *)
Definition task_step (s : Store) (w : wlocal) : outcome wlocal :=
  let u := w_uuid w in
  match w_pc w with
  | W166 =>
      match wg_Add 1 s with
      | Ok s' => Step s' (mkW (w_id w) u (w_count w) 0 W170) []
      | _ => Panicked
      end
  | W170 =>
      if bool_decide (w_i w < w_count w)%Z
      then Step s (w_goto w W171) []
      else Step s (w_goto w W197) []
  | W171 =>
      if bool_decide (0 < chan_len (heap s) (worker_of s u))
      then Step s (w_goto w W172) []
      else Step s (w_goto w W190) []
  | W172 => Step s (w_goto w (W172r (worker_of s u))) []
  | W172r c =>
      match chan_recv (heap s) c with
      | Ok (v, h') => Step (set_heap h' s) (w_goto w (W173 v)) [ERecv c v]
      | Block => Blocked
      | Panic => Panicked
      end
  | W173 state =>
      if bool_decide (state = pause)
      then Step s (w_goto w W174) []
      else Step s (w_goto w (W180 state)) []
  | W174 =>
      Step s (w_goto w (W175 pause)) [ELog (status_line u "status: paused")]
  | W175 state =>
      if bool_decide (state = pause)
      then Step s (w_goto w W176) []
      else Step s (w_goto w (W180 state)) []
  | W176 => Step s (w_goto w (W176r (worker_of s u))) []
  | W176r c =>
      match chan_recv (heap s) c with
      | Ok (v, h') => Step (set_heap h' s) (w_goto w (W175 v)) [ERecv c v]
      | Block => Blocked
      | Panic => Panicked
      end
  | W180 state =>
      if bool_decide (state = kill)
      then Step s (w_goto w W181) []
      else Step s (w_goto w W187) []
  | W181 =>
      Step s (w_goto w W182) [ELog (status_line u "status: killed")]
  | W182 =>
      Step s (w_goto w W183) [ELog [AStr "rollback initiated"]]
  | W183 =>
      Step s (w_goto w W184) [EGo (TRollback (mkR u R201))]
  | W184 => Step s (w_goto w (W127 RetKill)) []
  | W187 =>
      Step s (w_goto w W190) [ELog (status_line u "status: running")]
  | W190 => Step s (w_goto w W193) [EGosched]
  | W193 =>
      Step s (w_goto w W194)
        [ELog [AStr "id:"; AInt (w_id w); AStr "value:"; AInt (w_i w)]]
  | W194 =>
      Step s (mkW (w_id w) u (w_count w) (w_i w + 1) W170) [ESleep taskDuration]
  | W197 =>
      Step s (w_goto w (W127 RetEnd)) [ELog (status_line u "status: completed")]
  | W127 r =>
      match wg_Done s with
      | Ok s' => Step s' (w_goto w (W128 r)) []
      | _ => Panicked
      end
  | W128 r =>
      match chan_close (heap s) (worker_of s u) with
      | Ok h' => Step (set_heap h' s) (w_goto w (W129 r)) [EClose (worker_of s u)]
      | _ => Panicked
      end
  | W129 r => Step (set_workers (delete u (workers s)) s) (w_goto w (W130 r)) []
  | W130 r => Step (set_states (delete u (states s)) s) (w_goto w (WExit r)) []
  | WExit _ => Halted
  end.

(** [rollBack]. *)
Definition rollBack_step (s : Store) (r : rlocal) : outcome rlocal :=
  let u := r_uuid r in
  match r_pc r with
  | R201 =>
      match wg_Add 1 s with
      | Ok s' => Step s' (mkR u R205) []
      | _ => Panicked
      end
  | R205 => Step s (mkR u R206) [ESleep rollbackDuration]
  | R206 => Step s (mkR u R202) [ELog (status_line u "status: Rollback completed")]
  | R202 =>
      match wg_Done s with
      | Ok s' => Step s' (mkR u RExit) []
      | _ => Panicked
      end
  | RExit => Halted
  end.

(** The router: [/create] goes to [CreateTask], the three routes of the
    subrouter go through [MiddlewareCheckTask] first. *)
Definition route (r : request) : hpc :=
  match r with
  | ReqCreate _ => C69
  | _ => M149
  end.

Definition h_goto (h : hlocal) (pc : hpc) : hlocal :=
  mkH (h_req h) (h_uuid h) pc.

Definition NotFound : Response :=
  mkResponse "" "task for given uuid does not exist" "" false.

(** A blocking send of [v] on the already evaluated operand [c]. *)
Definition send_step (s : Store) (h : hlocal) (c : option nat) (v : Z)
    (next : hpc) : outcome hlocal :=
  match chan_send (heap s) c v with
  | Ok h' => Step (set_heap h' s) (h_goto h next) [ESend c v]
  | Block => Blocked
  | Panic => Panicked
  end.

Definition handler_step (s : Store) (h : hlocal) : outcome hlocal :=
  let u := h_uuid h in
  match h_pc h with
  (* CreateTask *)
  | C69 => Step s (h_goto h C71) [ELog [AStr "Endpoint: create"]]
  | C71 =>
      match h_req h with
      | ReqCreate raw => Step s (mkH (h_req h) (ReplaceAll raw "-"%char "") C72) []
      | _ => Halted
      end
  | C72 =>
      Step (set_workers (<[u := length (heap s)]> (workers s))
              (set_heap (heap s ++ [make_chan 1]) s))
           (h_goto h C73) []
  | C73 => Step (set_states (<[u := start]> (states s)) s) (h_goto h C74) []
  | C74 =>
      Step s (h_goto h C75) [EGo (TTask (mkW (counter s) u taskCount 0 W166))]
  | C75 => Step s (h_goto h (C75s (worker_of s u))) []
  | C75s c => send_step s h c start C76
  | C76 => Step s (h_goto h C77) [ELog [AStr "Task created. uuid:"; AStr u]]
  | C77 => Step (set_counter (int_wrap (counter s + 1)) s) (h_goto h C79) []
  | C79 => Step s (h_goto h HExit) [ERespond StatusOK (mkResponse u "" "" true)]
  (* MiddlewareCheckTask *)
  | M149 =>
      match h_req h with
      | ReqCreate _ => Halted
      | ReqPause i =>
          if bool_decide (is_Some (workers s !! i))
          then Step s (mkH (h_req h) i P85) []
          else Step s (h_goto h M153) []
      | ReqResume i =>
          if bool_decide (is_Some (workers s !! i))
          then Step s (mkH (h_req h) i R101) []
          else Step s (h_goto h M153) []
      | ReqDelete i =>
          if bool_decide (is_Some (workers s !! i))
          then Step s (mkH (h_req h) i D118) []
          else Step s (h_goto h M153) []
      end
  | M153 => Step s (h_goto h HExit) [ERespond StatusBadRequest NotFound]
  (* PauseTask *)
  | P85 =>
      if bool_decide (state_of s u = pause)
      then Step s (h_goto h P87) []
      else Step s (h_goto h P90) []
  | P87 =>
      Step s (h_goto h HExit)
        [ERespond StatusOK (mkResponse "" "" "Already paused" true)]
  | P90 => Step s (h_goto h P91) [ELog [AStr "Endpoint: pause"]]
  | P91 => Step s (h_goto h (P91s (worker_of s u))) []
  | P91s c => send_step s h c pause P92
  | P92 => Step (set_states (<[u := pause]> (states s)) s) (h_goto h P94) []
  | P94 => Step s (h_goto h HExit) [ERespond StatusOK (mkResponse "" "" "" true)]
  (* ResumeTask *)
  | R101 =>
      if bool_decide (state_of s u = start)
      then Step s (h_goto h R103) []
      else Step s (h_goto h R107) []
  | R103 =>
      Step s (h_goto h HExit)
        [ERespond StatusOK (mkResponse "" "" "Already runnning" true)]
  | R107 => Step s (h_goto h R108) [ELog [AStr "Endpoint: resume"]]
  | R108 => Step s (h_goto h (R108s (worker_of s u))) []
  | R108s c => send_step s h c start R109
  | R109 => Step (set_states (<[u := start]> (states s)) s) (h_goto h R111) []
  | R111 => Step s (h_goto h HExit) [ERespond StatusOK (mkResponse "" "" "" true)]
  (* DeleteTask *)
  | D118 => Step s (h_goto h D119) [ELog [AStr "Endpoint: delete"]]
  | D119 => Step s (h_goto h (D119s (worker_of s u))) []
  | D119s c => send_step s h c kill D120
  | D120 => Step (set_states (<[u := kill]> (states s)) s) (h_goto h D122) []
  | D122 => Step s (h_goto h HExit) [ERespond StatusOK (mkResponse "" "" "" true)]
  | HExit => Halted
  | HRecovered => Halted
  end.

(** [main] after the server has been started, and [TerminateTasks]. *)
Definition main_step (s : Store) (m : mpc) : outcome mpc :=
  match m with
  | Main263 =>
      if sigChan s then Step (set_sigChan false s) Main266 [] else Blocked
  | Main266 => Step s (T135 (map fst (map_to_list (workers s)))) []
  | T135 [] => Step s Main269 []
  | T135 (k :: todo) =>
      if bool_decide (is_Some (workers s !! k))
      then Step s (T136 k todo) []
      else Step s (T135 todo) []
  | T136 k todo => Step s (T136s (worker_of s k) todo) []
  | T136s c todo =>
      match chan_send (heap s) c kill with
      | Ok h' => Step (set_heap h' s) (T135 todo) [ESend c kill]
      | Block => Blocked
      | Panic => Panicked
      end
  | Main269 => if bool_decide (wg s = 0%Z) then Step s Main271 [] else Blocked
  | Main271 =>
      Step s Main272
        [ELog [AStr "Received terminate, properly terminated all tasks"]]
  | Main272 => Step s Main277 [ELog [AStr "Reason:"; AStr "signal"]]
  | Main277 => Step s MainExit [EShutdown]
  | MainExit => Halted
  end.

Definition lift {L : Type} (f : L → thread) (o : outcome L) : outcome thread :=
  match o with
  | Step s l evs => Step s (f l) evs
  | Blocked => Blocked
  | Panicked => Panicked
  | Halted => Halted
  end.

Definition thread_step (s : Store) (t : thread) : outcome thread :=
  match t with
  | TTask w => lift TTask (task_step s w)
  | TRollback r => lift TRollback (rollBack_step s r)
  | THandler h => lift THandler (handler_step s h)
  | TMain m => lift TMain (main_step s m)
  end.

(** ** The scheduler *)

Record Global := mkG {
  store : Store;
  pool : list thread;
  gen : list string;
  crashed : bool
}.

(** What the environment and the Go scheduler can do next: let goroutine
    [tid] take a step, deliver an HTTP request, deliver SIGINT or SIGTERM. *)
Inductive action :=
| Run (tid : nat)
| Arrive (r : request)
| Signal.

Definition trace := list (nat * event).

Definition forks (evs : list event) : list thread :=
  omap (λ e, match e with EGo t => Some t | _ => None end) evs.

(** The process is gone once [main] has returned or a panic has reached
    the top of a goroutine that nobody recovers. *)
Definition over (g : Global) : bool :=
  crashed g || bool_decide (TMain MainExit ∈ pool g).

(** The server recovers a panicking handler; any other goroutine takes
    the process down. *)
Definition on_panic (g : Global) (tid : nat) (t : thread) : Global :=
  match t with
  | THandler h =>
      mkG (store g) (<[tid := THandler (h_goto h HRecovered)]> (pool g)) (gen g) false
  | _ => mkG (store g) (pool g) (gen g) true
  end.

(** [uuid.New] never returns the same value twice: [gen] holds the task
    ids handed out so far. *)
Definition admissible (g : Global) (r : request) : bool :=
  match r with
  | ReqCreate raw => bool_decide (ReplaceAll raw "-"%char "" ∉ gen g)
  | _ => true
  end.

Definition issued (g : Global) (r : request) : list string :=
  match r with
  | ReqCreate raw => ReplaceAll raw "-"%char "" :: gen g
  | _ => gen g
  end.

Definition sched (a : action) (g : Global) : option (Global * trace) :=
  if over g then None
  else match a with
  | Run tid =>
      match pool g !! tid with
      | None => None
      | Some t =>
          match thread_step (store g) t with
          | Step s' t' evs =>
              Some (mkG s' (<[tid := t']> (pool g) ++ forks evs) (gen g) false,
                    map (pair tid) evs)
          | Panicked => Some (on_panic g tid t, [(tid, EPanic)])
          | Blocked => None
          | Halted => None
          end
      end
  | Arrive r =>
      if admissible g r
      then Some (mkG (store g) (pool g ++ [THandler (mkH r "" (route r))])
                     (issued g r) false, [])
      else None
  | Signal =>
      Some (mkG (set_sigChan true (store g)) (pool g) (gen g) false, [])
  end.

Fixpoint run (sc : list action) (g : Global) : option (Global * trace) :=
  match sc with
  | [] => Some (g, [])
  | a :: sc' =>
      match sched a g with
      | None => None
      | Some (g', tr) =>
          match run sc' g' with
          | None => None
          | Some (g'', tr') => Some (g'', tr ++ tr')
          end
      end
  end.

(** The process right after [main] has started the server. *)
Definition init : Global := mkG NewTaskHandler [TMain Main263] [] false.

Definition reachable (g : Global) : Prop :=
  ∃ sc tr, run sc init = Some (g, tr).

(** ** A goroutine on its own

    [solo n s t] lets [t] take up to [n] steps with no other goroutine
    in between, and says how it ended. *)

Inductive ending := Finished | Stuck | Crashed | OutOfFuel.

Global Instance ending_eq_dec : EqDecision ending.
Proof. solve_decision. Defined.

Fixpoint solo (n : nat) (s : Store) (t : thread)
    : Store * thread * list event * ending :=
  match n with
  | O => (s, t, [], OutOfFuel)
  | S n' =>
      match thread_step s t with
      | Step s' t' evs =>
          let '(s'', t'', evs', e) := solo n' s' t' in (s'', t'', evs ++ evs', e)
      | Blocked => (s, t, [], Stuck)
      | Panicked => (s, t, [], Crashed)
      | Halted => (s, t, [], Finished)
      end
  end.

(** One request served from entry to exit; no handler has more than a
    dozen program points on any path. *)
Definition serve (s : Store) (r : request) : Store * thread * list event * ending :=
  solo 12 s (THandler (mkH r "" (route r))).

Definition lifecycle (r : request) : option string :=
  match r with
  | ReqCreate _ => None
  | ReqPause i | ReqResume i | ReqDelete i => Some i
  end.

(** [Exists(id)] of the registry: the test of line 149. *)
Definition Exists (s : Store) (id : string) : Prop := is_Some (workers s !! id).

(** The state after a schedule that is known to run. *)
Definition after (sc : list action) : Global :=
  match run sc init with
  | Some (g, _) => g
  | None => init
  end.

Definition trace_of (sc : list action) : trace :=
  match run sc init with
  | Some (_, tr) => tr
  | None => []
  end.

(** [k] steps of goroutine [tid] in a row *)
Definition steps (k tid : nat) : list action := replicate k (Run tid).

(** ** Example schedules

    Goroutine 0 is [main]; a request that arrives and a goroutine that is
    started take the next free index. *)

(** One task is created (goroutines 1 and 2), its worker takes the
    start directive and works through its first iteration. *)
Definition sc_created : list action :=
  [Arrive (ReqCreate "7f3a-01")] ++ steps 10 1 ++ steps 10 2.

(** Then the task is paused (goroutine 3) and the worker parks in the
    loop of line 175. *)
Definition sc_paused : list action :=
  sc_created ++ [Arrive (ReqPause "7f3a01")] ++ steps 7 3 ++ steps 9 2.

Arguments solo : simpl never.
Arguments chan_send : simpl never.
Arguments chan_recv : simpl never.
Arguments chan_close : simpl never.
Arguments chan_len : simpl never.
Arguments wg_Add : simpl never.
Arguments wg_Done : simpl never.

(** ** What one goroutine sees of a run *)

(** the events of goroutine [tid], in order *)
Definition mine (tid : nat) (tr : trace) : list event :=
  omap (λ x, if decide (x.1 = tid) then Some x.2 else None) tr.

(** a thread after a panic the server caught *)
Definition recovered (t : thread) : thread :=
  match t with
  | THandler h => THandler (h_goto h HRecovered)
  | _ => t
  end.

(** The steps of one goroutine while the others change the store at
    will between them. *)
Inductive texec : thread → list event → thread → Prop :=
| texec_refl t : texec t [] t
| texec_step s t s' t' evs evs' t'' :
    thread_step s t = Step s' t' evs →
    texec t' evs' t'' →
    texec t (evs ++ evs') t''
| texec_panic s t evs' t'' :
    thread_step s t = Panicked →
    texec (recovered t) evs' t'' →
    texec t (EPanic :: evs') t''.

(** ** The worker's state machine (spec, section 4.2) read off its
    program point *)

Inductive TaskState := Running | Paused | Killed | Completed.

Global Instance TaskState_eq_dec : EqDecision TaskState.
Proof. solve_decision. Defined.

Definition wstate (pc : wpc) : TaskState :=
  match pc with
  | W173 st | W175 st =>
      if bool_decide (st = kill) then Killed
      else if bool_decide (st = pause) then Paused else Running
  | W174 | W176 | W176r _ => Paused
  | W180 st => if bool_decide (st = kill) then Killed else Running
  | W181 | W182 | W183 | W184 => Killed
  | W127 RetKill | W128 RetKill | W129 RetKill | W130 RetKill | WExit RetKill => Killed
  | W197 => Completed
  | W127 RetEnd | W128 RetEnd | W129 RetEnd | W130 RetEnd | WExit RetEnd => Completed
  | _ => Running
  end.

Definition state_of_thread (t : thread) : option TaskState :=
  match t with
  | TTask w => Some (wstate (w_pc w))
  | _ => None
  end.

(** ** Counting events *)

Definition count (p : event → bool) (evs : list event) : nat :=
  length (filter (λ e, p e = true) evs).
Arguments count : simpl never.

(** a rollback executor is started *)
Definition is_go_rollback (e : event) : bool :=
  match e with
  | EGo (TRollback _) => true
  | _ => false
  end.

(** a Kill directive is taken off a channel *)
Definition is_recv_kill (e : event) : bool :=
  match e with
  | ERecv _ v => bool_decide (v = kill)
  | _ => false
  end.

(** any directive is taken off a channel *)
Definition is_recv (e : event) : bool :=
  match e with
  | ERecv _ _ => true
  | _ => false
  end.

(** a directive other than Pause is taken off a channel *)
Definition is_recv_unpause (e : event) : bool :=
  match e with
  | ERecv _ v => bool_decide (v ≠ pause)
  | _ => false
  end.

(** the unit of simulated work of line 194 *)
Definition is_work (e : event) : bool :=
  match e with
  | ESleep _ => true
  | _ => false
  end.

(** any trace of an iteration: lines 190, 193 and 194 *)
Definition is_iteration (e : event) : bool :=
  match e with
  | ESleep _ | EGosched => true
  | ELog (AStr "id:" :: _) => true
  | _ => false
  end.

(** the worker has started its rollback: it is past line 183 *)
Definition past_go (pc : wpc) : bool :=
  match pc with
  | W184 => true
  | W127 RetKill | W128 RetKill | W129 RetKill | W130 RetKill | WExit RetKill => true
  | _ => false
  end.

(** the worker sits in the pause branch of lines 173-178 *)
Definition parked (pc : wpc) : bool :=
  match pc with
  | W173 st | W175 st => bool_decide (st = pause)
  | W174 | W176 | W176r _ => true
  | _ => false
  end.

(** the iterations the worker has finished *)
Definition done_iterations (w : wlocal) : Z :=
  match w_pc w with
  | W166 => 0
  | _ => w_i w
  end.

(** the body of the loop, lines 171-194 *)
Definition in_body (pc : wpc) : bool :=
  match pc with
  | W171 | W172 | W172r _ | W173 _ | W174 | W175 _ | W176 | W176r _
  | W180 _ | W181 | W182 | W183 | W184 | W187 | W190 | W193 | W194 => true
  | _ => false
  end.

(** the worker has left the loop through its condition *)
Definition past_loop (pc : wpc) : bool :=
  match pc with
  | W197 => true
  | W127 RetEnd | W128 RetEnd | W129 RetEnd | W130 RetEnd | WExit RetEnd => true
  | _ => false
  end.

(** the loop counter stays within the budget *)
Definition in_budget (w : wlocal) : Prop :=
  (0 ≤ w_count w)%Z ∧
  (w_pc w = W166 ∨
   ((0 ≤ w_i w ≤ w_count w)%Z ∧
    (in_body (w_pc w) = true → (w_i w < w_count w)%Z) ∧
    (past_loop (w_pc w) = true → w_i w = w_count w))).

Definition killed (pc : wpc) : bool := bool_decide (wstate pc = Killed).

(** a log line that reports the worker as running or paused *)
Definition is_alive_log (e : event) : bool :=
  match e with
  | ELog [AStr "uuid:"; AStr _; AStr st] =>
      bool_decide (st = "status: running" ∨ st = "status: paused")
  | _ => false
  end.

(** what a killed worker never does again *)
Definition is_lively (e : event) : bool :=
  is_recv e || is_iteration e || is_alive_log e.

(** ** What a worker leaves behind *)

(** the store after [closeRoutine] has run for [uuid], whose channel is [c] *)
Definition closed_out (uuid : string) (c : nat) (ch : chan) (s : Store) : Store :=
  set_states (delete uuid (states s))
    (set_workers (delete uuid (workers s))
       (set_heap (<[c := mkChan (cap ch) (buf ch) true]> (heap s))
          (set_wg (wg s - 1) s))).

(** the events of one iteration that finds no directive *)
Definition iteration (id i : Z) : list event :=
  [EGosched; ELog [AStr "id:"; AInt id; AStr "value:"; AInt i]; ESleep taskDuration].

Fixpoint iterations (id i : Z) (k : nat) : list event :=
  match k with
  | O => []
  | S k' => iteration id i ++ iterations id (i + 1) k'
  end.


(** the events of the exit after the last iteration *)
Definition end_exit (uuid : string) (c : nat) : list event :=
  [ELog (status_line uuid "status: completed"); EClose (Some c)].


(** the store after [CreateTask] has run for the id [uuid] *)
Definition created (uuid : string) (s : Store) : Store :=
  mkStore (heap s ++ [mkChan 1 [start] false]) (int_wrap (counter s + 1)) (wg s)
          (<[uuid := length (heap s)]> (workers s))
          (<[uuid := start]> (states s)) (sigChan s).

(** the worker [CreateTask] starts *)
Definition new_worker (uuid : string) (s : Store) : wlocal :=
  mkW (counter s) uuid taskCount 0 W166.

Definition create_events (uuid : string) (s : Store) : list event :=
  [ELog [AStr "Endpoint: create"];
   EGo (TTask (new_worker uuid s));
   ESend (Some (length (heap s))) start;
   ELog [AStr "Task created. uuid:"; AStr uuid];
   ERespond StatusOK (mkResponse uuid "" "" true)].

(** the store once the worker has taken the directive at the head of
    channel [c] *)
Definition taken (c : nat) (ch : chan) (s : Store) : Store :=
  set_heap (<[c := mkChan (cap ch) (tail (buf ch)) (closed ch)]> (heap s)) s.

(** [CreateTask] has just started the worker (goroutine 2), which has
    not run yet. *)
Definition sc_spawned : list action :=
  [Arrive (ReqCreate "7f3a-01")] ++ steps 5 1.


(** The same up to the receive that will yield the Kill. *)
Definition sc_then_kill_pending : list action :=
  steps 5 1 ++ steps 10 2 ++ [Arrive (ReqDelete "7f3a01")] ++ steps 6 3 ++ steps 4 2.

(** a killed worker that has not yet started [closeRoutine]'s close *)
Definition winding_up (pc : wpc) : bool :=
  match pc with
  | W173 st | W175 st | W180 st => bool_decide (st = kill)
  | W181 | W182 | W183 | W184 | W127 RetKill => true
  | _ => false
  end.

(** where a schedule that is known to run leads from [g], and its trace *)
Definition run_from (sc : list action) (g : Global) : Global * trace :=
  default (g, []) (run sc g).

(** A task is created and its worker is left alone until it has left
    the loop: eleven steps for the first iteration, which takes the start
    directive, five for each of the other nine, two to reach
    [closeRoutine]. *)
Definition sc_natural_end : list action :=
  steps 5 1 ++ steps (11 + 5 * 9 + 2) 2.

(** an id has a control channel if and only if it has a cached state *)
Definition keys_agree (s : Store) : Prop :=
  ∀ id : string, is_Some (workers s !! id) ↔ is_Some (states s !! id).

(** The worker is started and reaches its first check before
    [CreateTask] has sent the start directive. *)
Definition sc_early_check : list action :=
  sc_spawned ++ steps 2 2.

(** A Delete request (goroutine 3) has sent its Kill and is about to
    write the cached state; the worker takes the Kill and runs
    [closeRoutine] to the end; then the handler goes on. *)
Definition sc_late_write : list action :=
  [Arrive (ReqDelete "7f3a01")] ++ steps 4 3 ++ steps 15 2 ++ steps 2 3.

(** ** What a lifecycle request does *)

(** the directive a handler sends: lines 75, 91, 108 and 119 *)
Definition directive (r : request) : Z :=
  match r with
  | ReqPause _ => pause
  | ReqDelete _ => kill
  | ReqCreate _ | ReqResume _ => start
  end.

(** the log line of lines 69, 90, 107 and 118 *)
Definition endpoint (r : request) : list arg :=
  match r with
  | ReqCreate _ => [AStr "Endpoint: create"]
  | ReqPause _ => [AStr "Endpoint: pause"]
  | ReqResume _ => [AStr "Endpoint: resume"]
  | ReqDelete _ => [AStr "Endpoint: delete"]
  end.

(** the tests of lines 85 and 101; [DeleteTask] has none *)
Definition short_circuit (s : Store) (r : request) : bool :=
  match r with
  | ReqPause i => bool_decide (state_of s i = pause)
  | ReqResume i => bool_decide (state_of s i = start)
  | _ => false
  end.

(** the send of a handler, its operand evaluated *)
Definition sending (r : request) (c : option nat) : hpc :=
  match r with
  | ReqCreate _ => C75s c
  | ReqPause _ => P91s c
  | ReqResume _ => R108s c
  | ReqDelete _ => D119s c
  end.

(** the store after a handler has sent [v] on channel [c] and cached it
    for [uuid] *)
Definition directed (uuid : string) (c : nat) (ch : chan) (v : Z) (s : Store) : Store :=
  set_states (<[uuid := v]> (states s))
    (set_heap (<[c := mkChan (cap ch) (buf ch ++ [v]) false]> (heap s)) s).

(** the bytes of a string *)
Definition bytes (s : string) : list Ascii.ascii := String.list_ascii_of_string s.

(** A worker has run to the close of line 128 and has not yet reached
    the [delete] of line 129. *)
Definition sc_closing : list action :=
  sc_natural_end ++ steps 2 2.

(** an answer is written *)
Definition is_respond (e : event) : bool :=
  match e with
  | ERespond _ _ => true
  | _ => false
  end.

(** ** The key sets while one goroutine runs *)

(** the key sets agree except, possibly, at [u] *)
Definition agree_but (u : string) (s : Store) : Prop :=
  ∀ id : string, id ≠ u → is_Some (workers s !! id) ↔ is_Some (states s !! id).

(** What holds of the key sets at each program point of a goroutine that
    runs with no other in between: [CreateTask] has written [workers] and
    not yet [states] at line 73, [closeRoutine] has deleted from
    [workers] and not yet from [states] at line 130, and a handler behind
    the middleware works on a registered id. *)
Definition keys_inv (s : Store) (t : thread) : Prop :=
  match t with
  | THandler h =>
      match h_pc h with
      | C72 => keys_agree s ∧ lifecycle (h_req h) = None
      | C73 =>
          agree_but (h_uuid h) s ∧ is_Some (workers s !! h_uuid h) ∧
          lifecycle (h_req h) = None
      | P85 | P87 | P90 | P91 | P91s _ | P92
      | R101 | R103 | R107 | R108 | R108s _ | R109
      | D118 | D119 | D119s _ | D120 =>
          keys_agree s ∧ is_Some (workers s !! h_uuid h)
      | _ => keys_agree s
      end
  | TTask w =>
      match w_pc w with
      | W130 _ => agree_but (w_uuid w) s ∧ workers s !! w_uuid w = None
      | _ => keys_agree s
      end
  | _ => keys_agree s
  end.

(** The whole of [sc_late_write] from the start of the process, with the
    rollback (goroutine 4) run to its end: every goroutine has finished
    or waits. *)
Definition sc_stale : list action :=
  sc_created ++ sc_late_write ++ steps 4 4.

(** A Pause request (goroutine 3) passes the middleware while the worker
    is between lines 128 and 129; the worker deletes its entries and
    exits; the handler reads [t.workers[uuid]] at line 91. *)
Definition sc_orphaned : list action :=
  sc_closing ++ [Arrive (ReqPause "7f3a01"); Run 3] ++ steps 2 2 ++ steps 3 3.

(** which function a goroutine runs *)
Definition kind (t : thread) : nat :=
  match t with
  | TTask _ => 0
  | TRollback _ => 1
  | THandler _ => 2
  | TMain _ => 3
  end.

(** ** Shutdown *)

(** the sends of [TerminateTasks] for the keys [ks] *)
Definition kill_sends (s : Store) (ks : list string) : list event :=
  (λ k, ESend (workers s !! k) kill) <$> ks.

(** what [main] logs and does after the wait of line 269 *)
Definition main_exit : list event :=
  [ELog [AStr "Received terminate, properly terminated all tasks"];
   ELog [AStr "Reason:"; AStr "signal"];
   EShutdown].

(** A task is running; a signal arrives; [main] sends the Kill and waits;
    the worker takes the Kill, starts the rollback (goroutine 3) and runs
    the [wg.Done] of line 127. *)
Definition sc_unwaited : list action :=
  sc_created ++ [Signal] ++ steps 6 0 ++ steps 12 2.

(** A worker is about to run [closeRoutine] after its last iteration; a
    signal arrives and [main] evaluates the channel operand of line 136;
    the worker closes the channel. *)
Definition sc_closed_under_main : list action :=
  sc_spawned ++ sc_natural_end ++ [Signal] ++ steps 4 0 ++ steps 2 2.

(** ** Well-formed states *)

(** a directive: one of the constants of lines 20-22 *)
Definition is_directive (v : Z) : Prop := v = kill ∨ v = pause ∨ v = start.

(** an id as line 71 leaves it *)
Definition dash_free (u : string) : Prop := "-"%char ∉ bytes u.

(** a channel as line 72 makes it, with at most one directive in it *)
Definition chan_ok (ch : chan) : Prop :=
  cap ch = 1 ∧ length (buf ch) ≤ 1 ∧ Forall is_directive (buf ch).

Record store_ok (s : Store) : Prop := mk_store_ok {
  heap_ok : Forall chan_ok (heap s);
  states_ok : ∀ id v, states s !! id = Some v → is_directive v ∧ dash_free id;
  workers_ok : ∀ id c, workers s !! id = Some c → c < length (heap s) ∧ dash_free id;
  wg_ok : (0 ≤ wg s)%Z;
  counter_ok : (- 2 ^ 63 ≤ counter s < 2 ^ 63)%Z
}.

(** the directive a worker holds in its local [state] *)
Definition held (pc : wpc) : option Z :=
  match pc with
  | W173 st | W175 st | W180 st => Some st
  | _ => None
  end.

Definition thread_ok (t : thread) : Prop :=
  match t with
  | TTask w =>
      w_count w = taskCount ∧ dash_free (w_uuid w) ∧ in_budget w ∧
      (∀ st, held (w_pc w) = Some st → is_directive st)
  | TRollback r => dash_free (r_uuid r)
  | THandler h => dash_free (h_uuid h)
  | TMain _ => True
  end.

Definition well_formed (g : Global) : Prop :=
  store_ok (store g) ∧ Forall thread_ok (pool g).

(** ** What a handler does in a run *)

(** a directive is put on a channel *)
Definition is_send (e : event) : bool :=
  match e with
  | ESend _ _ => true
  | _ => false
  end.

(** the handler has returned *)
Definition answered (pc : hpc) : bool := bool_decide (pc = HExit).

(** the sends a handler may still perform *)
Definition may_send (pc : hpc) : nat :=
  match pc with
  | C69 | C71 | C72 | C73 | C74 | C75 | C75s _
  | M149
  | P85 | P90 | P91 | P91s _
  | R101 | R107 | R108 | R108s _
  | D118 | D119 | D119s _ => 1
  | _ => 0
  end.

(** the directives among the events *)
Definition sent (evs : list event) : list Z :=
  omap (λ e, match e with ESend _ v => Some v | _ => None end) evs.

(** the program points of the handler that serves [r] *)
Definition serves (r : request) (pc : hpc) : bool :=
  match pc, r with
  | (C69 | C71 | C72 | C73 | C74 | C75 | C75s _ | C76 | C77 | C79), ReqCreate _ => true
  | (M149 | M153), (ReqPause _ | ReqResume _ | ReqDelete _) => true
  | (P85 | P87 | P90 | P91 | P91s _ | P92 | P94), ReqPause _ => true
  | (R101 | R103 | R107 | R108 | R108s _ | R109 | R111), ReqResume _ => true
  | (D118 | D119 | D119s _ | D120 | D122), ReqDelete _ => true
  | (HExit | HRecovered), _ => true
  | _, _ => false
  end.

(** ** Who holds the wait group, and who relies on a registry entry *)

(** the goroutine has run its [wg.Add] and not yet its [wg.Done] *)
Definition holds (t : thread) : nat :=
  match t with
  | TTask w =>
      match w_pc w with
      | W166 | W128 _ | W129 _ | W130 _ | WExit _ => 0
      | _ => 1
      end
  | TRollback r =>
      match r_pc r with
      | R205 | R206 | R202 => 1
      | _ => 0
      end
  | _ => 0
  end.

(** the id a goroutine was made for: [CreateTask] up to its [go]
    statement, and the worker from then on *)
Definition claim (t : thread) : option string :=
  match t with
  | TTask w => Some (w_uuid w)
  | THandler h =>
      match h_req h, h_pc h with
      | ReqCreate raw, (C69 | C71 | C72 | C73 | C74) =>
          Some (ReplaceAll raw "-"%char "")
      | _, _ => None
      end
  | _ => None
  end.

(** the id whose registry entry a goroutine relies on: [CreateTask]
    between line 72 and its [go] statement, the worker up to the close of
    line 128 *)
Definition owns (t : thread) : option string :=
  match t with
  | TTask w =>
      match w_pc w with
      | W129 _ | W130 _ | WExit _ => None
      | _ => Some (w_uuid w)
      end
  | THandler h =>
      match h_pc h with
      | C73 | C74 => Some (h_uuid h)
      | _ => None
      end
  | _ => None
  end.

(** a handler is at a point of its own route, and [CreateTask] past
    line 71 holds the id of its request *)
Definition on_route (t : thread) : Prop :=
  match t with
  | THandler h =>
      serves (h_req h) (h_pc h) = true ∧
      ∀ raw, h_req h = ReqCreate raw → h_pc h ≠ C69 → h_pc h ≠ C71 →
             h_uuid h = ReplaceAll raw "-"%char ""
  | _ => True
  end.

(** the id is registered under an open channel *)
Definition registered_open (s : Store) (u : string) : Prop :=
  ∃ c ch, workers s !! u = Some c ∧ heap s !! c = Some ch ∧ closed ch = false.

(** no two ids share a channel *)
Definition one_channel_each (s : Store) : Prop :=
  ∀ u1 u2 c, workers s !! u1 = Some c → workers s !! u2 = Some c → u1 = u2.

Record safe (g : Global) : Prop := mk_safe {
  safe_wf : well_formed g;
  safe_wg : wg (store g) = Z.of_nat (sum_list_with holds (pool g));
  safe_claims : NoDup (omap claim (pool g));
  safe_gen : ∀ u, u ∈ omap claim (pool g) → u ∈ gen g;
  safe_route : Forall on_route (pool g);
  safe_owns : ∀ tid t u,
    pool g !! tid = Some t → owns t = Some u → registered_open (store g) u;
  safe_inj : one_channel_each (store g)
}.

(** ** The registry and the goroutines *)

(** the id a goroutine keeps registered: [CreateTask] between line 72 and
    its [go] statement, the worker up to the [delete] of line 129 *)
Definition relies (t : thread) : option string :=
  match t with
  | TTask w =>
      match w_pc w with
      | W130 _ | WExit _ => None
      | _ => Some (w_uuid w)
      end
  | THandler h =>
      match h_pc h with
      | C73 | C74 => Some (h_uuid h)
      | _ => None
      end
  | _ => None
  end.

(** [CreateTask] is between its two writes, lines 72 and 73, for [u] *)
Definition creating (g : Global) (u : string) : Prop :=
  ∃ tid h, pool g !! tid = Some (THandler h) ∧ h_pc h = C73 ∧ h_uuid h = u.

Record tracked (g : Global) : Prop := mk_tracked {
  tracked_live : ∀ u, is_Some (workers (store g) !! u) →
    ∃ tid t, pool g !! tid = Some t ∧ relies t = Some u;
  tracked_registered : ∀ tid t u,
    pool g !! tid = Some t → relies t = Some u → is_Some (workers (store g) !! u);
  tracked_gone : ∀ tid w,
    pool g !! tid = Some (TTask w) → relies (TTask w) = None →
    workers (store g) !! w_uuid w = None;
  tracked_states : ∀ u, is_Some (workers (store g) !! u) →
    is_Some (states (store g) !! u) ∨ creating g u
}.

(** ** The receive of line 172 *)

(** the id's channel holds a directive *)
Definition pending (s : Store) (u : string) : Prop :=
  ∃ c ch, workers s !! u = Some c ∧ heap s !! c = Some ch ∧ buf ch ≠ [].

(** What a worker knows about its channel: past the check of line 171 a
    directive is waiting for it, and the operand of a receive it is about
    to run is the channel registered for its id. *)
Definition checked (s : Store) (t : thread) : Prop :=
  match t with
  | TTask w =>
      match w_pc w with
      | W172 => pending s (w_uuid w)
      | W172r c => c = workers s !! w_uuid w ∧ pending s (w_uuid w)
      | W176r c => c = workers s !! w_uuid w
      | _ => True
      end
  | _ => True
  end.

(** * Properties *)

(** ** Unfolding a goroutine's own run *)

Lemma solo_unfold (n : nat) (s : Store) (t : thread) :
  solo (S n) s t =
    match thread_step s t with
    | Step s' t' evs =>
        let '(s'', t'', evs', e) := solo n s' t' in (s'', t'', evs ++ evs', e)
    | Blocked => (s, t, [], Stuck)
    | Panicked => (s, t, [], Crashed)
    | Halted => (s, t, [], Finished)
    end.
Proof. reflexivity. Qed.

Ltac decide_closed :=
  repeat first
    [ rewrite bool_decide_eq_true_2 by (done || lia)
    | rewrite bool_decide_eq_false_2 by (done || lia) ].

Ltac solo1 := cbn; decide_closed; cbn; rewrite solo_unfold; cbn; decide_closed; cbn.

(** ** Requests served on their own *)

(** C1, as the code has it: a Pause request for a task whose cached state
    is already Paused answers 200 with success true and the message
    "Already paused", posts nothing on the control channel and leaves the
    whole store, the cached state included, as it was. *)
Theorem C1_pause_already_paused (s : Store) (id : string) :
  Exists s id →
  states s !! id = Some pause →
  serve s (ReqPause id) =
    (s, THandler (mkH (ReqPause id) id HExit),
     [ERespond StatusOK (mkResponse "" "" "Already paused" true)], Finished).
Proof.
  intros Hex Hst. unfold serve, Exists in *. do 2 solo1.
  unfold state_of. rewrite Hst. by do 2 solo1.
Qed.

Lemma C1_pause_already_paused_witness :
  serve (store (after sc_paused)) (ReqPause "7f3a01") =
    (store (after sc_paused), THandler (mkH (ReqPause "7f3a01") "7f3a01" HExit),
     [ERespond StatusOK (mkResponse "" "" "Already paused" true)], Finished).
Proof.
  apply C1_pause_already_paused.
  - vm_compute. eauto.
  - vm_compute. reflexivity.
Defined.

(** C1 as the specification words it fails: on the paused task of
    [sc_paused] the answer carries success true, and its message is not
    "already paused". *)
Lemma C1_counterexample :
  states (store (after sc_paused)) !! "7f3a01" = Some pause ∧
  ∃ r, (serve (store (after sc_paused)) (ReqPause "7f3a01")).1.2 = [ERespond StatusOK r] ∧
       Success r = true ∧ Message r ≠ "already paused".
Proof.
  split; [vm_compute; reflexivity|].
  eexists. split; [vm_compute; reflexivity|]. split; [reflexivity|]. discriminate.
Qed.

(** C2: a Pause, Resume or Delete request for an id that has no entry in
    [workers] is answered 400 with success false by the middleware; the
    store (both maps and every channel) is left as it was, nothing is
    sent, and the handler ends normally. *)
Theorem C2_unknown_id_not_found (s : Store) (r : request) (id : string) :
  lifecycle r = Some id →
  workers s !! id = None →
  serve s r =
    (s, THandler (mkH r "" HExit), [ERespond StatusBadRequest NotFound], Finished)
  ∧ Success NotFound = false.
Proof.
  intros Hr Hno. split; [|done].
  assert (Hd : bool_decide (is_Some (workers s !! id)) = false).
  { apply bool_decide_eq_false_2. rewrite Hno. by intros []. }
  destruct r; simplify_eq/=; unfold serve; solo1; rewrite Hd; by do 2 solo1.
Qed.

Lemma C2_unknown_id_not_found_witness :
  serve (store (after sc_paused)) (ReqDelete "0000") =
    (store (after sc_paused), THandler (mkH (ReqDelete "0000") "" HExit),
     [ERespond StatusBadRequest NotFound], Finished)
  ∧ Success NotFound = false.
Proof.
  apply (C2_unknown_id_not_found _ (ReqDelete "0000") "0000").
  - reflexivity.
  - vm_compute. reflexivity.
Defined.

(** ** From a run to the steps of one goroutine *)

Lemma mine_app (tid : nat) (tr1 tr2 : trace) :
  mine tid (tr1 ++ tr2) = mine tid tr1 ++ mine tid tr2.
Proof. unfold mine. apply omap_app. Qed.

Lemma mine_self (tid : nat) (evs : list event) :
  mine tid (map (pair tid) evs) = evs.
Proof.
  unfold mine. induction evs as [|e evs IH]; [done|].
  cbn. rewrite decide_True by done. cbn. by f_equal.
Qed.

Lemma mine_other (tid tid' : nat) (evs : list event) :
  tid ≠ tid' → mine tid (map (pair tid') evs) = [].
Proof.
  intros Hne. unfold mine. induction evs as [|e evs IH]; [done|].
  cbn. rewrite decide_False by done. done.
Qed.

Lemma lookup_pool_step (p : list thread) (tid tid' : nat) (t t' : thread)
    (new : list thread) :
  p !! tid = Some t →
  (<[tid' := t']> p ++ new) !! tid = Some (if decide (tid' = tid) then t' else t).
Proof.
  intros Hp. pose proof (lookup_lt_Some _ _ _ Hp) as Hlt.
  rewrite lookup_app_l by (by rewrite length_insert).
  destruct (decide (tid' = tid)) as [->|Hne].
  - by apply list_lookup_insert_eq.
  - by rewrite list_lookup_insert_ne.
Qed.

Lemma sched_view (a : action) (g g' : Global) (tr : trace) (tid : nat) (t : thread) :
  sched a g = Some (g', tr) →
  pool g !! tid = Some t →
  (pool g' !! tid = Some t ∧ mine tid tr = [])
  ∨ (∃ s' t', thread_step (store g) t = Step s' t' (mine tid tr)
              ∧ pool g' !! tid = Some t')
  ∨ (thread_step (store g) t = Panicked ∧ mine tid tr = [EPanic]
     ∧ pool g' !! tid = Some (recovered t)).
Proof.
  intros Hs Hp. unfold sched in Hs. destruct (over g); [done|].
  destruct a as [tid'|r|].
  - destruct (pool g !! tid') as [t0|] eqn:Hp0; [|done].
    destruct (thread_step (store g) t0) as [s' t' evs| | |] eqn:Hst; simplify_eq.
    + cbn. rewrite (lookup_pool_step _ _ _ _ _ _ Hp).
      destruct (decide (tid' = tid)) as [->|Hne].
      * right; left. assert (t0 = t) as -> by congruence.
        rewrite mine_self. eauto.
      * left. by rewrite mine_other.
    + destruct (decide (tid' = tid)) as [->|Hne].
      * right; right. assert (t0 = t) as -> by congruence.
        split; [done|]. split.
        { cbn. by rewrite decide_True. }
        pose proof (lookup_lt_Some _ _ _ Hp) as Hlt.
        destruct t; cbn; try done. by apply list_lookup_insert_eq.
      * left. split; [|cbn; by rewrite decide_False].
        destruct t0; cbn; try done. by rewrite list_lookup_insert_ne.
  - destruct (admissible g r); simplify_eq. left. cbn.
    split; [|done]. rewrite lookup_app_l; [done|by eapply lookup_lt_Some].
  - simplify_eq. by left.
Qed.

Lemma run_texec (sc : list action) :
  ∀ (g g' : Global) (tr : trace) (tid : nat) (t : thread),
    run sc g = Some (g', tr) →
    pool g !! tid = Some t →
    ∃ t', pool g' !! tid = Some t' ∧ texec t (mine tid tr) t'.
Proof.
  induction sc as [|a sc IH]; intros g g' tr tid t Hrun Hp.
  - cbn in Hrun. simplify_eq. exists t. split; [done|]. constructor.
  - cbn in Hrun.
    destruct (sched a g) as [[g1 tr1]|] eqn:Hs; [|done].
    destruct (run sc g1) as [[g2 tr2]|] eqn:Hr; [|done]. simplify_eq.
    rewrite mine_app.
    destruct (sched_view _ _ _ _ _ _ Hs Hp) as [[Hp1 Hm]|[(s' & t' & Hst & Hp1)|(Hst & Hm & Hp1)]].
    + rewrite Hm. cbn. eauto.
    + destruct (IH _ _ _ _ _ Hr Hp1) as (t2 & Hp2 & Hex).
      exists t2. split; [done|]. by eapply texec_step.
    + destruct (IH _ _ _ _ _ Hr Hp1) as (t2 & Hp2 & Hex).
      exists t2. split; [done|]. rewrite Hm. cbn. by eapply texec_panic.
Qed.

Lemma run_app (sc1 sc2 : list action) (g : Global) :
  run (sc1 ++ sc2) g =
    match run sc1 g with
    | None => None
    | Some (g1, tr1) =>
        match run sc2 g1 with
        | None => None
        | Some (g2, tr2) => Some (g2, tr1 ++ tr2)
        end
    end.
Proof.
  revert g. induction sc1 as [|a sc1 IH]; intros g; cbn.
  - by destruct (run sc2 g) as [[??]|].
  - destruct (sched a g) as [[g1 tr1]|]; [|done].
    rewrite IH. destruct (run sc1 g1) as [[g2 tr2]|]; [|done].
    destruct (run sc2 g2) as [[g3 tr3]|]; [|done]. by rewrite app_assoc.
Qed.

(** ** The worker, one step at a time *)

Lemma count_nil (p : event → bool) : count p [] = 0.
Proof. done. Qed.

Lemma count_app (p : event → bool) (l1 l2 : list event) :
  count p (l1 ++ l2) = count p l1 + count p l2.
Proof. unfold count. by rewrite filter_app, length_app. Qed.

Lemma count_cons (p : event → bool) (e : event) (l : list event) :
  count p (e :: l) = Nat.b2n (p e) + count p l.
Proof.
  unfold count. destruct (p e) eqn:He.
  - by rewrite filter_cons_True.
  - rewrite filter_cons_False; [done|]. by rewrite He.
Qed.

Lemma thread_step_task (s : Store) (w : wlocal) (s' : Store) (t' : thread)
    (evs : list event) :
  thread_step s (TTask w) = Step s' t' evs →
  ∃ w', t' = TTask w' ∧ task_step s w = Step s' w' evs.
Proof.
  cbn. destruct (task_step s w) as [s1 w1 evs1| | |]; cbn; intros; simplify_eq. eauto.
Qed.

Ltac count_simpl := rewrite ?count_app, ?count_cons, ?count_nil; cbn.

Ltac task_cases w H :=
  destruct w as [? ? ? ? []]; unfold task_step, wg_Done, wg_Add in H; cbn in H;
  repeat (case_bool_decide || case_match); simplify_eq; cbn in *; count_simpl.

Lemma task_step_locals (s : Store) (w : wlocal) (s' : Store) (w' : wlocal)
    (evs : list event) :
  task_step s w = Step s' w' evs →
  w_id w' = w_id w ∧ w_uuid w' = w_uuid w ∧ w_count w' = w_count w.
Proof. intros H. task_cases w H; done. Qed.

Lemma task_step_go (s : Store) (w : wlocal) (s' : Store) (w' : wlocal)
    (evs : list event) :
  task_step s w = Step s' w' evs →
  Nat.b2n (past_go (w_pc w)) + count is_go_rollback evs = Nat.b2n (past_go (w_pc w')).
Proof. intros H. task_cases w H; done. Qed.

Lemma task_step_kill (s : Store) (w : wlocal) (s' : Store) (w' : wlocal)
    (evs : list event) :
  task_step s w = Step s' w' evs →
  Nat.b2n (killed (w_pc w)) + count is_recv_kill evs = Nat.b2n (killed (w_pc w')).
Proof.
  intros H. task_cases w H; unfold killed; cbn;
    repeat (case_bool_decide || case_match); simplify_eq; done.
Qed.

Lemma task_step_work (s : Store) (w : wlocal) (s' : Store) (w' : wlocal)
    (evs : list event) :
  task_step s w = Step s' w' evs →
  (done_iterations w + Z.of_nat (count is_work evs))%Z = done_iterations w'.
Proof. intros H. task_cases w H; unfold done_iterations; cbn; lia. Qed.

Lemma task_step_budget (s : Store) (w : wlocal) (s' : Store) (w' : wlocal)
    (evs : list event) :
  task_step s w = Step s' w' evs →
  in_budget w → in_budget w'.
Proof.
  intros H [Hc Hb]. task_cases w H; split; cbn in *; try done;
    right; destruct Hb as [?|(? & Hin & Hout)]; simplify_eq;
    repeat split; intros; try done; try lia; auto;
    try (specialize (Hin eq_refl)); try (specialize (Hout eq_refl)); try lia.
Qed.

Lemma task_step_killed (s : Store) (w : wlocal) (s' : Store) (w' : wlocal)
    (evs : list event) :
  task_step s w = Step s' w' evs →
  killed (w_pc w) = true →
  killed (w_pc w') = true ∧ count is_lively evs = 0.
Proof.
  intros H Hk. task_cases w H; unfold killed in *; cbn in *;
    repeat (case_bool_decide || case_match); simplify_eq;
    try done; by destruct_or!.
Qed.

Lemma task_step_parked (s : Store) (w : wlocal) (s' : Store) (w' : wlocal)
    (evs : list event) :
  task_step s w = Step s' w' evs →
  parked (w_pc w) = true →
  count is_iteration evs = 0 ∧
  (count is_recv_unpause evs = 0 → parked (w_pc w') = true) ∧
  (count is_recv_unpause evs ≠ 0 → ∃ v, v ≠ pause ∧ w_pc w' = W175 v).
Proof.
  intros H Hk. task_cases w H;
    repeat (case_bool_decide || case_match); simplify_eq;
    repeat split; intros; try done; eauto.
Qed.

Lemma past_go_killed (pc : wpc) : past_go pc = true → killed pc = true.
Proof. destruct pc as [| | | | | | | | | | | | | | | | | | | |[]|[]|[]|[]|[]]; done. Qed.

Lemma past_loop_not_killed (pc : wpc) : past_loop pc = true → killed pc = false.
Proof. destruct pc as [| | | | | | | | | | | | | | | | | | | |[]|[]|[]|[]|[]]; done. Qed.


(** ** The worker along any interleaving *)

Lemma texec_task_ind (P : wlocal → list event → wlocal → Prop) :
  (∀ w, P w [] w) →
  (∀ s w s' w' evs evs' w'',
      task_step s w = Step s' w' evs → P w' evs' w'' → P w (evs ++ evs') w'') →
  (∀ s w evs' w'',
      task_step s w = Panicked → P w evs' w'' → P w (EPanic :: evs') w'') →
  ∀ w evs t', texec (TTask w) evs t' → ∃ w', t' = TTask w' ∧ P w evs w'.
Proof.
  intros Hrefl Hstep Hpanic w evs t' Hex.
  remember (TTask w) as t eqn:Ht. revert w Ht.
  induction Hex as [t|s t s' t1 evs evs' t2 Hst Hex IH|s t evs' t2 Hst Hex IH];
    intros w ->.
  - eauto.
  - apply thread_step_task in Hst as (w1 & -> & Hst).
    destruct (IH w1 eq_refl) as (w2 & -> & HP). eauto.
  - destruct (IH w eq_refl) as (w2 & -> & HP). exists w2. split; [done|].
    eapply Hpanic; [|done]. cbn in Hst.
    destruct (task_step s w) eqn:E; cbn in Hst; simplify_eq. done.
Qed.

Lemma texec_task_facts (w : wlocal) (evs : list event) (t' : thread) :
  texec (TTask w) evs t' →
  ∃ w', t' = TTask w' ∧
    (w_id w' = w_id w ∧ w_uuid w' = w_uuid w ∧ w_count w' = w_count w) ∧
    Nat.b2n (past_go (w_pc w)) + count is_go_rollback evs = Nat.b2n (past_go (w_pc w')) ∧
    Nat.b2n (killed (w_pc w)) + count is_recv_kill evs = Nat.b2n (killed (w_pc w')) ∧
    (done_iterations w + Z.of_nat (count is_work evs))%Z = done_iterations w' ∧
    (in_budget w → in_budget w').
Proof.
  revert w evs t'. apply texec_task_ind.
  - intros w. rewrite !count_nil. split_and!; try done; lia.
  - intros s w s' w' evs evs' w'' Hst (Hl & Hg & Hk & Hw & Hb).
    rewrite !count_app.
    pose proof (task_step_locals _ _ _ _ _ Hst) as (? & ? & ?).
    pose proof (task_step_go _ _ _ _ _ Hst).
    pose proof (task_step_kill _ _ _ _ _ Hst).
    pose proof (task_step_work _ _ _ _ _ Hst).
    pose proof (task_step_budget _ _ _ _ _ Hst).
    destruct Hl as (? & ? & ?).
    split_and!; try congruence; try lia. tauto.
  - intros s w evs' w'' _ H. rewrite !count_cons. done.
Qed.

Lemma texec_task_killed (w : wlocal) (evs : list event) (t' : thread) :
  texec (TTask w) evs t' →
  ∃ w', t' = TTask w' ∧
    (killed (w_pc w) = true → killed (w_pc w') = true ∧ count is_lively evs = 0).
Proof.
  revert w evs t'. apply texec_task_ind.
  - done.
  - intros s w s' w' evs evs' w'' Hst IH Hk.
    destruct (task_step_killed _ _ _ _ _ Hst Hk) as [Hk' H0].
    destruct (IH Hk') as [Hk'' H0']. rewrite count_app. split; [done|lia].
  - intros s w evs' w'' _ IH Hk. rewrite count_cons. by apply IH.
Qed.

Lemma texec_task_parked (w : wlocal) (evs : list event) (t' : thread) :
  texec (TTask w) evs t' →
  ∃ w', t' = TTask w' ∧
    (parked (w_pc w) = true → count is_recv_unpause evs = 0 →
     parked (w_pc w') = true ∧ count is_iteration evs = 0).
Proof.
  revert w evs t'. apply texec_task_ind.
  - done.
  - intros s w s' w' evs evs' w'' Hst IH Hk Hno. rewrite count_app in Hno.
    destruct (task_step_parked _ _ _ _ _ Hst Hk) as (H0 & Hstay & _).
    destruct IH as [Hk'' H0']; [apply Hstay; lia|lia|].
    rewrite count_app. split; [done|lia].
  - intros s w evs' w'' _ IH Hk. rewrite !count_cons. cbn. by apply IH.
Qed.

(** ** Goroutines run on their own *)

Lemma solo_add (n m : nat) (s : Store) (t : thread) :
  solo (n + m) s t =
    let '(s1, t1, evs1, e1) := solo n s t in
    match e1 with
    | OutOfFuel =>
        let '(s2, t2, evs2, e2) := solo m s1 t1 in (s2, t2, evs1 ++ evs2, e2)
    | _ => (s1, t1, evs1, e1)
    end.
Proof.
  revert s t. induction n as [|n IH]; intros s t.
  - cbn. unfold solo at 2. cbn. by destruct (solo m s t) as [[[??]?]?].
  - replace (S n + m) with (S (n + m)) by done. rewrite !solo_unfold.
    destruct (thread_step s t) as [s' t' evs| | |]; [|done..].
    rewrite IH. destruct (solo n s' t') as [[[s1 t1] evs1] e1].
    destruct e1; try done.
    destruct (solo m s1 t1) as [[[s2 t2] evs2] e2]. by rewrite app_assoc.
Qed.

Lemma chan_recv_head (h : list chan) (c : nat) (ch : chan) (v : Z) (rest : list Z) :
  h !! c = Some ch → buf ch = v :: rest →
  chan_recv h (Some c) = Ok (v, <[c := mkChan (cap ch) rest (closed ch)]> h).
Proof. intros Hc Hb. unfold chan_recv, deref. by rewrite Hc, Hb. Qed.

Lemma chan_recv_empty (h : list chan) (c : nat) (ch : chan) :
  h !! c = Some ch → buf ch = [] → closed ch = false →
  chan_recv h (Some c) = Block.
Proof. intros Hc Hb Ho. unfold chan_recv, deref. by rewrite Hc, Hb, Ho. Qed.

Lemma chan_close_open (h : list chan) (c : nat) (ch : chan) :
  h !! c = Some ch → closed ch = false →
  chan_close h (Some c) = Ok (<[c := mkChan (cap ch) (buf ch) true]> h).
Proof. intros Hc Hb. unfold chan_close, deref. by rewrite Hc, Hb. Qed.

Lemma chan_send_room (h : list chan) (c : nat) (ch : chan) (v : Z) :
  h !! c = Some ch → closed ch = false → length (buf ch) < cap ch →
  chan_send h (Some c) v = Ok (<[c := mkChan (cap ch) (buf ch ++ [v]) false]> h).
Proof.
  intros Hc Hb Hl. unfold chan_send, deref. rewrite Hc, Hb.
  by rewrite bool_decide_eq_true_2.
Qed.

Lemma wg_Done_pos (s : Store) : (1 ≤ wg s)%Z → wg_Done s = Ok (set_wg (wg s - 1) s).
Proof.
  intros H. unfold wg_Done, wg_Add. rewrite bool_decide_eq_false_2 by lia. done.
Qed.

Lemma wg_Add_one (s : Store) : (0 ≤ wg s)%Z → wg_Add 1 s = Ok (set_wg (wg s + 1) s).
Proof.
  intros H. unfold wg_Add. rewrite bool_decide_eq_false_2 by lia. done.
Qed.

(** [closeRoutine] on a registered, open channel *)
Lemma solo_closeRoutine (s : Store) (w : wlocal) (r : ret) (c : nat) (ch : chan) :
  w_pc w = W127 r →
  workers s !! w_uuid w = Some c →
  heap s !! c = Some ch →
  closed ch = false →
  (1 ≤ wg s)%Z →
  solo 5 s (TTask w) =
    (closed_out (w_uuid w) c ch s, TTask (w_goto w (WExit r)), [EClose (Some c)], Finished).
Proof.
  intros Hpc Hw Hc Hopen Hwg. destruct w as [id u cnt i pc]. cbn in *. subst pc.
  solo1. rewrite wg_Done_pos by done. solo1. unfold worker_of. cbn. rewrite Hw.
  rewrite (chan_close_open _ _ _ Hc Hopen). do 3 solo1. done.
Qed.



Lemma solo_0 (s : Store) (t : thread) : solo 0 s t = (s, t, [], OutOfFuel).
Proof. done. Qed.

(** one iteration that finds no directive *)
Lemma solo_iteration (s : Store) (w : wlocal) :
  w_pc w = W170 →
  (w_i w < w_count w)%Z →
  chan_len (heap s) (worker_of s (w_uuid w)) = 0 →
  solo 5 s (TTask w) =
    (s, TTask (mkW (w_id w) (w_uuid w) (w_count w) (w_i w + 1) W170),
     iteration (w_id w) (w_i w), OutOfFuel).
Proof.
  intros Hpc Hlt Hlen. destruct w as [id u cnt i pc]. cbn in *. subst pc.
  do 5 solo1. by rewrite solo_0.
Qed.

(** the rest of the budget, with no directive on the way *)
Lemma solo_iterations (k : nat) :
  ∀ (s : Store) (w : wlocal),
    w_pc w = W170 →
    w_count w = (w_i w + Z.of_nat k)%Z →
    chan_len (heap s) (worker_of s (w_uuid w)) = 0 →
    solo (5 * k) s (TTask w) =
      (s, TTask (mkW (w_id w) (w_uuid w) (w_count w) (w_count w) W170),
       iterations (w_id w) (w_i w) k, OutOfFuel).
Proof.
  induction k as [|k IH]; intros s w Hpc Hcnt Hlen.
  - destruct w as [id u cnt i pc]. cbn in *. subst pc.
    replace cnt with i by lia. done.
  - replace (5 * S k) with (5 + 5 * k) by lia. rewrite solo_add.
    rewrite solo_iteration by (done || lia).
    rewrite IH by (cbn; done || lia). done.
Qed.

(** the exit once the budget is used up *)
Lemma solo_completed (s : Store) (w : wlocal) (c : nat) (ch : chan) :
  w_pc w = W170 →
  w_i w = w_count w →
  workers s !! w_uuid w = Some c →
  heap s !! c = Some ch →
  closed ch = false →
  (1 ≤ wg s)%Z →
  solo 7 s (TTask w) =
    (closed_out (w_uuid w) c ch s, TTask (w_goto w (WExit RetEnd)),
     end_exit (w_uuid w) c, Finished).
Proof.
  intros Hpc Hi Hw Hc Hopen Hwg.
  change 7 with (2 + 5). rewrite solo_add.
  destruct w as [id u cnt i pc]. cbn in *. subst pc.
  do 2 solo1. rewrite solo_0. cbn.
  rewrite (solo_closeRoutine _ _ RetEnd c ch); done.
Qed.

(** a whole worker that is left alone from the loop head on *)
Lemma solo_to_completion (k : nat) (s : Store) (w : wlocal) (c : nat) (ch : chan) :
  w_pc w = W170 →
  w_count w = (w_i w + Z.of_nat k)%Z →
  workers s !! w_uuid w = Some c →
  heap s !! c = Some ch →
  buf ch = [] →
  closed ch = false →
  (1 ≤ wg s)%Z →
  solo (5 * k + 7) s (TTask w) =
    (closed_out (w_uuid w) c ch s,
     TTask (mkW (w_id w) (w_uuid w) (w_count w) (w_count w) (WExit RetEnd)),
     iterations (w_id w) (w_i w) k ++ end_exit (w_uuid w) c, Finished).
Proof.
  intros Hpc Hcnt Hw Hc Hbuf Hopen Hwg. rewrite solo_add.
  rewrite solo_iterations; [|done|done|].
  - rewrite (solo_completed _ _ c ch); done.
  - unfold chan_len, worker_of, deref. by rewrite Hw, Hc, Hbuf.
Qed.

(** [CreateTask] from entry to exit *)
Lemma serve_create (s : Store) (raw : string) :
  let u := ReplaceAll raw "-"%char "" in
  serve s (ReqCreate raw) =
    (created u s, THandler (mkH (ReqCreate raw) u HExit), create_events u s, Finished).
Proof.
  intros u. unfold serve. do 6 solo1. rewrite lookup_insert_eq. solo1.
  unfold send_step. cbn.
  rewrite (chan_send_room _ (length (heap s)) (make_chan 1));
    [|by rewrite lookup_app_r, Nat.sub_diag|done|cbn; lia].
  do 4 solo1.
  rewrite insert_app_r_alt, Nat.sub_diag by done. done.
Qed.

(** ** Workers in a run *)

Lemma run_task_facts (sc : list action) (g g' : Global) (tr : trace) (tid : nat)
    (w : wlocal) :
  run sc g = Some (g', tr) →
  pool g !! tid = Some (TTask w) →
  ∃ w', pool g' !! tid = Some (TTask w') ∧
    (w_id w' = w_id w ∧ w_uuid w' = w_uuid w ∧ w_count w' = w_count w) ∧
    Nat.b2n (past_go (w_pc w)) + count is_go_rollback (mine tid tr)
      = Nat.b2n (past_go (w_pc w')) ∧
    Nat.b2n (killed (w_pc w)) + count is_recv_kill (mine tid tr)
      = Nat.b2n (killed (w_pc w')) ∧
    (done_iterations w + Z.of_nat (count is_work (mine tid tr)))%Z = done_iterations w' ∧
    (in_budget w → in_budget w').
Proof.
  intros Hrun Hp.
  destruct (run_texec _ _ _ _ _ _ Hrun Hp) as (t' & Hp' & Hex).
  destruct (texec_task_facts _ _ _ Hex) as (w' & -> & H). eauto.
Qed.

Lemma run_task_killed (sc : list action) (g g' : Global) (tr : trace) (tid : nat)
    (w : wlocal) :
  run sc g = Some (g', tr) →
  pool g !! tid = Some (TTask w) →
  killed (w_pc w) = true →
  ∃ w', pool g' !! tid = Some (TTask w') ∧
    killed (w_pc w') = true ∧ count is_lively (mine tid tr) = 0.
Proof.
  intros Hrun Hp Hk.
  destruct (run_texec _ _ _ _ _ _ Hrun Hp) as (t' & Hp' & Hex).
  destruct (texec_task_killed _ _ _ Hex) as (w' & -> & H).
  destruct (H Hk). eauto.
Qed.

Lemma run_task_parked (sc : list action) (g g' : Global) (tr : trace) (tid : nat)
    (w : wlocal) :
  run sc g = Some (g', tr) →
  pool g !! tid = Some (TTask w) →
  parked (w_pc w) = true →
  count is_recv_unpause (mine tid tr) = 0 →
  ∃ w', pool g' !! tid = Some (TTask w') ∧
    parked (w_pc w') = true ∧ count is_iteration (mine tid tr) = 0.
Proof.
  intros Hrun Hp Hk Hno.
  destruct (run_texec _ _ _ _ _ _ Hrun Hp) as (t' & Hp' & Hex).
  destruct (texec_task_parked _ _ _ Hex) as (w' & -> & H).
  destruct (H Hk Hno). eauto.
Qed.

Lemma closed_out_removed (uuid : string) (c : nat) (ch : chan) (s : Store) :
  workers (closed_out uuid c ch s) !! uuid = None ∧
  states (closed_out uuid c ch s) !! uuid = None.
Proof. cbn. by rewrite !lookup_delete_eq. Qed.


Lemma b2n_le_1 (b : bool) : Nat.b2n b ≤ 1.
Proof. destruct b; cbn; lia. Qed.

Lemma b2n_1 (b : bool) : Nat.b2n b = 1 ↔ b = true.
Proof. destruct b; cbn; split; (done || lia). Qed.

(** ** Kill *)



(** ** Killed is terminal *)

(** from anywhere between the read of Kill and [closeRoutine], the
    worker runs to its exit *)
Lemma solo_winding_up (s : Store) (w : wlocal) (c : nat) (ch : chan) :
  winding_up (w_pc w) = true →
  workers s !! w_uuid w = Some c →
  heap s !! c = Some ch →
  closed ch = false →
  (1 ≤ wg s)%Z →
  ∃ evs,
    solo 12 s (TTask w) =
      (closed_out (w_uuid w) c ch s, TTask (w_goto w (WExit RetKill)), evs, Finished) ∧
    count is_lively evs = 0 ∧
    Nat.b2n (past_go (w_pc w)) + count is_go_rollback evs = 1.
Proof.
  intros Hpc Hw Hc Hopen Hwg. destruct w as [id u cnt i pc]. cbn in *.
  destruct pc as [| | | | |st| |st| | |st| | | | | | | | | |[]| | | |]; try done;
    try (apply bool_decide_eq_true in Hpc as ->);
    eexists; (split; [|split]);
    try (repeat first
      [ solo1
      | rewrite wg_Done_pos by done
      | rewrite Hw
      | rewrite (chan_close_open _ _ _ Hc Hopen) ]; reflexivity);
    by count_simpl.
Qed.

(** C8: once a worker has taken a Kill off its channel its state is
    Killed and stays Killed in every continuation of the run: it is never
    Running or Paused again, takes no further directive, runs no further
    iteration and logs neither "running" nor "paused".  While it has not
    yet reached [closeRoutine]'s close, letting it run takes it to its
    exit with its entry deleted from both maps. *)
Theorem C8_killed_is_terminal (sc1 sc2 : list action) (g g1 g2 : Global)
    (tr1 tr2 : trace) (tid : nat) (w : wlocal) :
  run sc1 g = Some (g1, tr1) →
  pool g !! tid = Some (TTask w) →
  w_pc w = W166 →
  0 < count is_recv_kill (mine tid tr1) →
  run sc2 g1 = Some (g2, tr2) →
  ∃ w1 w2,
    pool g1 !! tid = Some (TTask w1) ∧ wstate (w_pc w1) = Killed ∧
    pool g2 !! tid = Some (TTask w2) ∧ wstate (w_pc w2) = Killed ∧
    wstate (w_pc w2) ≠ Running ∧ wstate (w_pc w2) ≠ Paused ∧
    count is_lively (mine tid tr2) = 0 ∧
    (∀ c ch,
       winding_up (w_pc w2) = true →
       workers (store g2) !! w_uuid w = Some c →
       heap (store g2) !! c = Some ch →
       closed ch = false →
       (1 ≤ wg (store g2))%Z →
       ∃ s' evs,
         solo 12 (store g2) (TTask w2) =
           (s', TTask (w_goto w2 (WExit RetKill)), evs, Finished) ∧
         count is_lively evs = 0 ∧
         workers s' !! w_uuid w = None ∧ states s' !! w_uuid w = None).
Proof.
  intros Hrun1 Hp Hpc Hkill Hrun2.
  destruct (run_task_facts _ _ _ _ _ _ Hrun1 Hp) as (w1 & Hp1 & (_ & Hu & _) & _ & Hk & _).
  rewrite Hpc in Hk. change (Nat.b2n (killed W166)) with 0 in Hk. cbn in Hk.
  assert (Hk1 : killed (w_pc w1) = true).
  { destruct (killed (w_pc w1)); [done|cbn in Hk; lia]. }
  destruct (run_task_killed _ _ _ _ _ _ Hrun2 Hp1 Hk1) as (w2 & Hp2 & Hk2 & Hq).
  destruct (run_task_facts _ _ _ _ _ _ Hrun2 Hp1) as (w2' & Hp2' & (_ & Hu2 & _) & _).
  assert (w2' = w2) as -> by congruence.
  unfold killed in Hk1, Hk2. apply bool_decide_eq_true in Hk1, Hk2.
  exists w1, w2. split_and!; try done; try (rewrite Hk2; done).
  intros c ch Hwu Hw Hc Hopen Hwg. rewrite <- Hu, <- Hu2 in *.
  destruct (solo_winding_up _ _ c ch Hwu Hw Hc Hopen Hwg) as (evs & Hs & Hl & _).
  pose proof (closed_out_removed (w_uuid w2) c ch (store g2)) as [? ?].
  eauto 10.
Qed.

Lemma C8_killed_is_terminal_witness :
  let r1 := run_from (sc_then_kill_pending ++ steps 2 2) (after sc_spawned) in
  let r2 := run_from (steps 3 2) r1.1 in
  ∃ w2, pool r2.1 !! 2 = Some (TTask w2) ∧ wstate (w_pc w2) = Killed ∧
        count is_lively (mine 2 r2.2) = 0.
Proof.
  intros r1 r2.
  destruct (C8_killed_is_terminal (sc_then_kill_pending ++ steps 2 2) (steps 3 2)
              (after sc_spawned) r1.1 r2.1 r1.2 r2.2 2 (mkW 0 "7f3a01" 10 0 W166))
    as (w1 & w2 & _ & _ & Hp2 & Hk2 & _ & _ & Hq & _).
  - vm_compute. reflexivity.
  - vm_compute. reflexivity.
  - reflexivity.
  - vm_compute. lia.
  - vm_compute. reflexivity.
  - exists w2. split; [exact Hp2|]. split; [exact Hk2|exact Hq].
Defined.

(** ** Pause *)

Lemma parked_paused (pc : wpc) : parked pc = true → wstate pc = Paused.
Proof.
  destruct pc; cbn; try done; intros ->%bool_decide_eq_true; done.
Qed.

Lemma task_step_recv_pause (s : Store) (w : wlocal) (s' : Store) (w' : wlocal)
    (c : option nat) :
  task_step s w = Step s' w' [ERecv c pause] →
  parked (w_pc w') = true.
Proof. intros H. task_cases w H; done. Qed.

(** C5: a worker that takes a Pause off its channel is in the pause
    branch (state Paused).  In every interleaving it stays there, and
    performs no part of an iteration, for as long as it takes no directive
    other than Pause.  In the loop of lines 175-177 its receive blocks on
    an empty channel, a further Pause brings it back to the same receive,
    and any other directive takes it out of the loop to the test of
    line 180. *)
Theorem C5_paused_worker_waits (sc : list action) (g g' : Global) (tr : trace)
    (tid : nat) (w : wlocal) :
  run sc g = Some (g', tr) →
  pool g !! tid = Some (TTask w) →
  parked (w_pc w) = true →
  ∃ w', pool g' !! tid = Some (TTask w') ∧
    wstate (w_pc w) = Paused ∧
    (∀ s0 w0 s0' w0' c0,
       task_step s0 w0 = Step s0' w0' [ERecv c0 pause] →
       parked (w_pc w0') = true ∧ wstate (w_pc w0') = Paused) ∧
    (count is_recv_unpause (mine tid tr) = 0 →
     parked (w_pc w') = true ∧ wstate (w_pc w') = Paused ∧
     count is_iteration (mine tid tr) = 0) ∧
    (∀ c ch,
       w_pc w' = W176r (Some c) →
       heap (store g') !! c = Some ch →
       buf ch = [] → closed ch = false →
       task_step (store g') w' = Blocked) ∧
    (∀ c ch,
       w_pc w' = W176r (Some c) →
       heap (store g') !! c = Some ch →
       head (buf ch) = Some pause →
       solo 3 (store g') (TTask w') =
         (taken c ch (store g'),
          TTask (w_goto w' (W176r (worker_of (store g') (w_uuid w')))),
          [ERecv (Some c) pause], OutOfFuel)) ∧
    (∀ c ch v,
       w_pc w' = W176r (Some c) →
       heap (store g') !! c = Some ch →
       head (buf ch) = Some v → v ≠ pause →
       solo 2 (store g') (TTask w') =
         (taken c ch (store g'), TTask (w_goto w' (W180 v)),
          [ERecv (Some c) v], OutOfFuel)).
Proof.
  intros Hrun Hp Hpk.
  destruct (run_texec _ _ _ _ _ _ Hrun Hp) as (t' & Hp' & Hex).
  destruct (texec_task_parked _ _ _ Hex) as (w' & -> & Hstay).
  exists w'. split_and!; [done|by apply parked_paused|..].
  - intros s0 w0 s0' w0' c0 Hst.
    pose proof (task_step_recv_pause _ _ _ _ _ Hst). split; [done|].
    by apply parked_paused.
  - intros Hno. destruct (Hstay Hpk Hno) as [Hk Hi].
    split_and!; [done|by apply parked_paused|done].
  - intros c ch Hpc Hc Hbuf Hopen. destruct w' as [id u cnt i pc]. cbn in *.
    subst pc. unfold task_step. cbn. by rewrite (chan_recv_empty _ _ _ Hc Hbuf Hopen).
  - intros c ch Hpc Hc Hhd. destruct w' as [id u cnt i pc]. cbn in *. subst pc.
    destruct (buf ch) as [|v rest] eqn:Hbuf; simplify_eq/=.
    solo1. rewrite (chan_recv_head _ _ _ _ _ Hc Hbuf). do 2 solo1.
    rewrite solo_0. unfold taken. by rewrite Hbuf.
  - intros c ch v Hpc Hc Hhd Hv. destruct w' as [id u cnt i pc]. cbn in *. subst pc.
    destruct (buf ch) as [|v' rest] eqn:Hbuf; simplify_eq/=.
    solo1. rewrite (chan_recv_head _ _ _ _ _ Hc Hbuf). do 1 solo1.
    rewrite solo_0. unfold taken. by rewrite Hbuf.
Qed.

Lemma C5_paused_worker_waits_witness :
  let r := run_from ([Arrive (ReqPause "7f3a01")] ++ steps 3 4) (after sc_paused) in
  ∃ w', pool r.1 !! 2 = Some (TTask w') ∧ parked (w_pc w') = true ∧
        count is_iteration (mine 2 r.2) = 0.
Proof.
  intros r.
  destruct (C5_paused_worker_waits ([Arrive (ReqPause "7f3a01")] ++ steps 3 4)
              (after sc_paused) r.1 r.2 2 (mkW 0 "7f3a01" 10 1 (W176r (Some 0))))
    as (w' & Hp & _ & _ & H & _).
  - vm_compute. reflexivity.
  - vm_compute. reflexivity.
  - reflexivity.
  - destruct H as (Hk & _ & Hi); [vm_compute; reflexivity|].
    exists w'. split; [exact Hp|]. split; [exact Hk|exact Hi].
Defined.

(** ** The iteration budget *)

Lemma past_loop_completed (pc : wpc) : past_loop pc = true ↔ wstate pc = Completed.
Proof.
  destruct pc as [| | | | |st| |st| | |st| | | | | | | | | |[]|[]|[]|[]|[]]; cbn;
    repeat case_bool_decide; done.
Qed.

Lemma past_loop_not_past_go (pc : wpc) : past_loop pc = true → past_go pc = false.
Proof. destruct pc as [| | | | | | | | | | | | | | | | | | | |[]|[]|[]|[]|[]]; done. Qed.

(** the check of line 171 never blocks and leads to the receive only
    when a directive is pending *)
Lemma task_step_check (s : Store) (w : wlocal) :
  w_pc w = W171 →
  task_step s w =
    Step s (w_goto w (if bool_decide (0 < chan_len (heap s) (worker_of s (w_uuid w)))
                      then W172 else W190)) [].
Proof.
  intros Hpc. destruct w as [id u cnt i pc]. cbn in *. subst pc.
  unfold task_step. cbn. by case_bool_decide.
Qed.

(** the head of the loop leads to that check while the budget lasts *)
Lemma task_step_head (s : Store) (w : wlocal) :
  w_pc w = W170 →
  task_step s w =
    Step s (w_goto w (if bool_decide (w_i w < w_count w)%Z then W171 else W197)) [].
Proof.
  intros Hpc. destruct w as [id u cnt i pc]. cbn in *. subst pc.
  unfold task_step. cbn. by case_bool_decide.
Qed.

Lemma iterations_counts (id i : Z) (k : nat) :
  count is_work (iterations id i k) = k ∧
  count is_go_rollback (iterations id i k) = 0.
Proof.
  revert i. induction k as [|k IH]; intros i; cbn [iterations].
  - by rewrite !count_nil.
  - destruct (IH (i + 1)%Z) as [H1 H2].
    rewrite !count_app, H1, H2. unfold iteration.
    rewrite !count_cons, !count_nil. cbn. lia.
Qed.

(** C6: in every interleaving a worker performs at most [count]
    iterations, as many as its loop counter says; one that takes no Kill
    starts no rollback and is never Killed; one that has left the loop
    through its condition (state Completed) has performed exactly [count]
    iterations, has taken no Kill and has started no rollback.  Each
    iteration goes from the loop head to the check of line 171, which
    never blocks and leads to the receive only if the channel holds a
    directive.  Left alone from the loop head with nothing pending, the
    worker performs the remaining iterations, logs "completed", closes
    its channel, deletes its entry from both maps and exits, with no
    rollback among its events. *)
Theorem C6_natural_completion (sc : list action) (g g' : Global) (tr : trace)
    (tid : nat) (w : wlocal) :
  run sc g = Some (g', tr) →
  pool g !! tid = Some (TTask w) →
  w_pc w = W166 →
  (0 ≤ w_count w)%Z →
  ∃ w', pool g' !! tid = Some (TTask w') ∧
    w_uuid w' = w_uuid w ∧ w_count w' = w_count w ∧
    let iterations_done := Z.of_nat (count is_work (mine tid tr)) in
    iterations_done = done_iterations w' ∧
    (iterations_done ≤ w_count w)%Z ∧
    (count is_recv_kill (mine tid tr) = 0 →
     count is_go_rollback (mine tid tr) = 0 ∧ wstate (w_pc w') ≠ Killed) ∧
    (wstate (w_pc w') = Completed →
     iterations_done = w_count w ∧
     count is_recv_kill (mine tid tr) = 0 ∧
     count is_go_rollback (mine tid tr) = 0) ∧
    (w_pc w' = W170 → (w_i w' < w_count w')%Z →
     task_step (store g') w' = Step (store g') (w_goto w' W171) []) ∧
    (w_pc w' = W171 →
     task_step (store g') w' =
       Step (store g')
         (w_goto w' (if bool_decide (0 < chan_len (heap (store g'))
                                           (worker_of (store g') (w_uuid w')))
                     then W172 else W190)) []) ∧
    (∀ k c ch,
       w_pc w' = W170 →
       w_count w' = (w_i w' + Z.of_nat k)%Z →
       workers (store g') !! w_uuid w' = Some c →
       heap (store g') !! c = Some ch →
       buf ch = [] → closed ch = false →
       (1 ≤ wg (store g'))%Z →
       ∃ s',
         solo (5 * k + 7) (store g') (TTask w') =
           (s', TTask (mkW (w_id w') (w_uuid w') (w_count w') (w_count w')
                           (WExit RetEnd)),
            iterations (w_id w') (w_i w') k ++ end_exit (w_uuid w') c, Finished) ∧
         count is_work (iterations (w_id w') (w_i w') k ++ end_exit (w_uuid w') c) = k ∧
         count is_go_rollback
           (iterations (w_id w') (w_i w') k ++ end_exit (w_uuid w') c) = 0 ∧
         workers s' !! w_uuid w' = None ∧ states s' !! w_uuid w' = None).
Proof.
  intros Hrun Hp Hpc Hcnt.
  destruct (run_task_facts _ _ _ _ _ _ Hrun Hp)
    as (w' & Hp' & (_ & Hu & Hc) & Hgo & Hk & Hw & Hb).
  rewrite Hpc in Hgo, Hk. change (Nat.b2n (past_go W166)) with 0 in Hgo.
  change (Nat.b2n (killed W166)) with 0 in Hk. cbn in Hgo, Hk.
  unfold done_iterations at 1 in Hw. rewrite Hpc in Hw. cbn in Hw.
  destruct Hb as [Hc' Hb]; [split; [done|by left]|].
  exists w'. do 3 (split; [done|]). cbn zeta. split_and!.
  - lia.
  - rewrite <- Hc. unfold done_iterations in *.
    destruct Hb as [E|(? & _)]; [rewrite E in Hw; lia|].
    destruct (w_pc w'); lia.
  - intros Hno. rewrite Hno in Hk. split.
    + destruct (past_go (w_pc w')) eqn:E; [|cbn in Hgo; lia].
      apply past_go_killed in E. rewrite E in Hk. done.
    + intros Hkd. unfold killed in Hk. rewrite bool_decide_eq_true_2 in Hk; done.
  - intros Hdone%past_loop_completed.
    rewrite (past_loop_not_killed _ Hdone) in Hk.
    rewrite (past_loop_not_past_go _ Hdone) in Hgo. cbn in Hk, Hgo.
    split_and!; try done.
    destruct Hb as [E|(_ & _ & Hout)]; [by rewrite E in Hdone|].
    unfold done_iterations in Hw. specialize (Hout Hdone).
    destruct (w_pc w'); try done; lia.
  - intros Hpc' Hlt. rewrite task_step_head by done. by rewrite bool_decide_eq_true_2.
  - intros Hpc'. by apply task_step_check.
  - intros k c ch Hpc' Hk' Hwk Hch Hbuf Hopen Hwg.
    eexists. split; [by apply (solo_to_completion k _ _ c ch)|].
    pose proof (closed_out_removed (w_uuid w') c ch (store g')) as [? ?].
    pose proof (iterations_counts (w_id w') (w_i w') k) as [Hi1 Hi2].
    rewrite !count_app, Hi1, Hi2. unfold end_exit. rewrite !count_cons, !count_nil.
    cbn. split_and!; try done; lia.
Qed.

Lemma C6_natural_completion_witness :
  let r := run_from sc_natural_end (after sc_spawned) in
  ∃ w', pool r.1 !! 2 = Some (TTask w') ∧
        wstate (w_pc w') = Completed ∧
        Z.of_nat (count is_work (mine 2 r.2)) = taskCount ∧
        count is_go_rollback (mine 2 r.2) = 0.
Proof.
  intros r.
  destruct (C6_natural_completion sc_natural_end (after sc_spawned) r.1 r.2 2
              (mkW 0 "7f3a01" 10 0 W166))
    as (w' & Hp & _ & _ & _ & _ & _ & Hdone & _).
  - vm_compute. reflexivity.
  - vm_compute. reflexivity.
  - reflexivity.
  - cbn. lia.
  - assert (Hw : w' = mkW 0 "7f3a01" 10 10 (W127 RetEnd)).
    { assert (pool r.1 !! 2 = Some (TTask (mkW 0 "7f3a01" 10 10 (W127 RetEnd))))
        as E by (vm_compute; reflexivity).
      rewrite E in Hp. by injection Hp. }
    exists w'. subst w'. destruct Hdone as (H1 & _ & H3); [reflexivity|].
    split; [exact Hp|]. split; [reflexivity|]. split; [exact H1|exact H3].
Defined.

(** ** The start directive *)

(** C9 as the claim words it fails: in [sc_early_check] the worker
    reaches its first check before [CreateTask] has sent anything, finds
    the channel empty and goes on to its first iteration without taking a
    directive; [CreateTask] then sends and returns, the Run is pending,
    and the worker takes it only at the check of its second iteration. *)
Lemma C9_counterexample :
  let u := "7f3a01" in
  let g1 := after sc_early_check in
  let r2 := run_from [Run 2] g1 in
  let r3 := run_from (steps 5 1) r2.1 in
  let r4 := run_from (steps 7 2) r3.1 in
  pool g1 !! 1 = Some (THandler (mkH (ReqCreate "7f3a-01") u C75)) ∧
  pool g1 !! 2 = Some (TTask (mkW 0 u 10 0 W171)) ∧
  chan_len (heap (store g1)) (worker_of (store g1) u) = 0 ∧
  pool r2.1 !! 2 = Some (TTask (mkW 0 u 10 0 W190)) ∧
  mine 2 (trace_of sc_early_check ++ r2.2) = [] ∧
  mine 1 r3.2 = [ESend (Some 0) start;
                 ELog [AStr "Task created. uuid:"; AStr u];
                 ERespond StatusOK (mkResponse u "" "" true)] ∧
  heap (store r3.1) !! 0 = Some (mkChan 1 [start] false) ∧
  pool r3.1 !! 2 = Some (TTask (mkW 0 u 10 0 W190)) ∧
  mine 2 r4.2 = iteration 0 0 ++ [ERecv (Some 0) start] ∧
  pool r4.1 !! 2 = Some (TTask (mkW 0 u 10 1 (W173 start))).
Proof. vm_compute. repeat split. Qed.

(** C9, as the code has it: [CreateTask] starts the worker and then
    sends one start directive on the new one-slot channel, which holds
    exactly that directive when the request has been served with no other
    goroutine in between.  A worker that takes its first steps after that
    finds the directive at its first check, takes it, logs "running" and
    goes on to its first iteration with the channel empty.  A check that
    finds the channel empty goes straight to the iteration. *)
Theorem C9_start_directive (s : Store) (raw : string) :
  (0 ≤ wg s)%Z →
  let u := ReplaceAll raw "-"%char "" in
  let c := length (heap s) in
  serve s (ReqCreate raw) =
    (created u s, THandler (mkH (ReqCreate raw) u HExit),
     [ELog [AStr "Endpoint: create"];
      EGo (TTask (new_worker u s));
      ESend (Some c) start;
      ELog [AStr "Task created. uuid:"; AStr u];
      ERespond StatusOK (mkResponse u "" "" true)], Finished) ∧
  workers (created u s) !! u = Some c ∧
  heap (created u s) !! c = Some (mkChan 1 [start] false) ∧
  (∃ s2,
     solo 8 (created u s) (TTask (new_worker u s)) =
       (s2, TTask (mkW (counter s) u taskCount 0 W190),
        [ERecv (Some c) start; ELog (status_line u "status: running")], OutOfFuel) ∧
     heap s2 !! c = Some (mkChan 1 [] false) ∧
     wg s2 = (wg s + 1)%Z) ∧
  (∀ s0 w,
     w_pc w = W171 →
     chan_len (heap s0) (worker_of s0 (w_uuid w)) = 0 →
     task_step s0 w = Step s0 (w_goto w W190) []).
Proof.
  intros Hwg u c.
  assert (Hch : heap (created u s) !! c = Some (mkChan 1 [start] false)).
  { cbn. by rewrite lookup_app_r, Nat.sub_diag. }
  assert (Hw : workers (created u s) !! u = Some c) by (cbn; by rewrite lookup_insert_eq).
  split_and!; try done.
  - apply serve_create.
  - exists (set_heap (<[c := mkChan 1 [] false]> (heap (created u s)))
              (set_wg (wg s + 1) (created u s))).
    split_and!.
    + assert (Hlen : chan_len (heap s ++ [mkChan 1 [start] false])
                              (Some (length (heap s))) = 1).
      { unfold chan_len, deref. by rewrite lookup_app_r, Nat.sub_diag. }
      unfold new_worker. solo1. rewrite wg_Add_one by done. do 2 solo1.
      rewrite lookup_insert_eq, Hlen. do 2 solo1.
      rewrite lookup_insert_eq.
      erewrite chan_recv_head; [|by rewrite lookup_app_r, Nat.sub_diag|done].
      do 3 solo1. rewrite solo_0. reflexivity.
    + cbn. rewrite insert_app_r_alt, Nat.sub_diag by done. cbn.
      by rewrite lookup_app_r, Nat.sub_diag.
    + done.
  - intros s0 w Hpc Hlen. rewrite task_step_check by done.
    rewrite Hlen. by rewrite bool_decide_eq_false_2 by lia.
Qed.

Lemma C9_start_directive_witness :
  heap (created "7f3a01" NewTaskHandler) !! 0 = Some (mkChan 1 [start] false).
Proof.
  pose proof (C9_start_directive NewTaskHandler "7f3a-01") as H.
  destruct H as (_ & _ & H & _); [cbn; lia|]. exact H.
Defined.

(** ** The lifecycle handlers *)

Lemma state_of_lookup (s : Store) (id : string) (v : Z) :
  states s !! id = Some v → state_of s id = v.
Proof. unfold state_of. by intros ->. Qed.

Lemma chan_send_full (h : list chan) (c : nat) (ch : chan) (v : Z) :
  h !! c = Some ch → closed ch = false → cap ch ≤ length (buf ch) →
  chan_send h (Some c) v = Block.
Proof.
  intros Hc Hb Hl. unfold chan_send, deref. rewrite Hc, Hb.
  by rewrite bool_decide_eq_false_2 by lia.
Qed.

Lemma chan_send_closed (h : list chan) (c : nat) (ch : chan) (v : Z) :
  h !! c = Some ch → closed ch = true → chan_send h (Some c) v = Panic.
Proof. intros Hc Hb. unfold chan_send, deref. by rewrite Hc, Hb. Qed.

(** a lifecycle request up to its send, the operand evaluated *)
Lemma serve_to_send (s : Store) (r : request) (id : string) (c : nat) :
  lifecycle r = Some id →
  workers s !! id = Some c →
  short_circuit s r = false →
  serve s r =
    let '(s', t', evs, e) :=
      solo (match r with ReqDelete _ => 9 | _ => 8 end) s
           (THandler (mkH r id (sending r (Some c)))) in
    (s', t', ELog (endpoint r) :: evs, e).
Proof.
  intros Hr Hw Hsc. unfold serve.
  destruct r; simplify_eq/=;
    [do 2 solo1; rewrite Hsc; do 2 solo1
    |do 2 solo1; rewrite Hsc; do 2 solo1
    |do 3 solo1];
    unfold worker_of; rewrite Hw; unfold h_goto; cbn [h_req h_uuid h_pc];
    by destruct (solo _ _ _) as [[[??]?]?].
Qed.

(** the directive path of the three handlers *)
Lemma lifecycle_directive (s : Store) (r : request) (id : string) (c : nat) (ch : chan) :
  lifecycle r = Some id →
  workers s !! id = Some c →
  heap s !! c = Some ch →
  closed ch = false →
  length (buf ch) < cap ch →
  short_circuit s r = false →
  serve s r =
    (directed id c ch (directive r) s, THandler (mkH r id HExit),
     [ELog (endpoint r); ESend (Some c) (directive r);
      ERespond StatusOK (mkResponse "" "" "" true)], Finished).
Proof.
  intros Hr Hw Hc Hopen Hroom Hsc.
  rewrite (serve_to_send _ _ id c) by done.
  destruct r; simplify_eq/=; solo1; unfold send_step; cbn;
    rewrite (chan_send_room _ _ _ _ Hc Hopen Hroom); by do 3 solo1.
Qed.

(** X5: The short-circuit of [ResumeTask]: a Resume request for a task whose
    cached state is already start answers 200 with success true and the
    message "Already runnning", sends nothing and leaves the store as it
    was. *)
Theorem resume_already_running (s : Store) (id : string) :
  Exists s id →
  states s !! id = Some start →
  serve s (ReqResume id) =
    (s, THandler (mkH (ReqResume id) id HExit),
     [ERespond StatusOK (mkResponse "" "" "Already runnning" true)], Finished).
Proof.
  intros Hex Hst. unfold serve, Exists in *. do 2 solo1.
  rewrite (state_of_lookup _ _ _ Hst). by do 2 solo1.
Qed.

Lemma resume_already_running_witness :
  serve (store (after sc_created)) (ReqResume "7f3a01") =
    (store (after sc_created), THandler (mkH (ReqResume "7f3a01") "7f3a01" HExit),
     [ERespond StatusOK (mkResponse "" "" "Already runnning" true)], Finished).
Proof.
  apply resume_already_running.
  - vm_compute. eauto.
  - vm_compute. reflexivity.
Defined.

(** X6: [PauseTask], [ResumeTask] and [DeleteTask] past their short-circuit:
    for a registered id whose channel is open and has room, the handler
    logs its endpoint, sends its directive on the task's channel, caches
    the directive in [states] and answers 200 with success true; nothing
    else in the store changes.  [DeleteTask] does so whatever the cached
    state is. *)
Theorem lifecycle_sends_directive (s : Store) (r : request) (id : string)
    (c : nat) (ch : chan) :
  lifecycle r = Some id →
  workers s !! id = Some c →
  heap s !! c = Some ch →
  closed ch = false →
  length (buf ch) < cap ch →
  short_circuit s r = false →
  serve s r =
    (directed id c ch (directive r) s, THandler (mkH r id HExit),
     [ELog (endpoint r); ESend (Some c) (directive r);
      ERespond StatusOK (mkResponse "" "" "" true)], Finished)
  ∧ state_of (directed id c ch (directive r) s) id = directive r.
Proof.
  intros Hr Hw Hc Hopen Hroom Hsc. split; [by apply lifecycle_directive|].
  unfold state_of. cbn. by rewrite lookup_insert_eq.
Qed.

Lemma lifecycle_sends_directive_witness :
  (serve (store (after sc_created)) (ReqPause "7f3a01")).1.2 =
    [ELog [AStr "Endpoint: pause"]; ESend (Some 0) pause;
     ERespond StatusOK (mkResponse "" "" "" true)].
Proof.
  pose proof (lifecycle_sends_directive (store (after sc_created)) (ReqPause "7f3a01")
                "7f3a01" 0 (mkChan 1 [] false)) as H.
  destruct H as (H & _).
  - reflexivity.
  - vm_compute. reflexivity.
  - vm_compute. reflexivity.
  - reflexivity.
  - cbn. lia.
  - vm_compute. reflexivity.
  - rewrite H. reflexivity.
Defined.

(** X7: A lifecycle handler whose task's channel is full waits at its send:
    it has logged its endpoint, has not answered, and the store, the
    cached state included, is as it was. *)
Theorem lifecycle_blocks_on_full_channel (s : Store) (r : request) (id : string)
    (c : nat) (ch : chan) :
  lifecycle r = Some id →
  workers s !! id = Some c →
  heap s !! c = Some ch →
  closed ch = false →
  cap ch ≤ length (buf ch) →
  short_circuit s r = false →
  serve s r =
    (s, THandler (mkH r id (sending r (Some c))), [ELog (endpoint r)], Stuck).
Proof.
  intros Hr Hw Hc Hopen Hfull Hsc.
  rewrite (serve_to_send _ _ id c) by done.
  destruct r; simplify_eq/=; rewrite solo_unfold; cbn; unfold send_step;
    by rewrite (chan_send_full _ _ _ _ Hc Hopen Hfull).
Qed.

Lemma lifecycle_blocks_on_full_channel_witness :
  let s := created "7f3a01" NewTaskHandler in
  serve s (ReqDelete "7f3a01") =
    (s, THandler (mkH (ReqDelete "7f3a01") "7f3a01" (D119s (Some 0))),
     [ELog [AStr "Endpoint: delete"]], Stuck).
Proof.
  apply (lifecycle_blocks_on_full_channel _ (ReqDelete "7f3a01") "7f3a01" 0
           (mkChan 1 [start] false)).
  - reflexivity.
  - vm_compute. reflexivity.
  - reflexivity.
  - reflexivity.
  - cbn. lia.
  - reflexivity.
Defined.

(** X8: A lifecycle handler that finds its task's channel closed (the worker
    is between lines 128 and 129) panics at its send: it has logged its
    endpoint, has not answered, and the store is as it was. *)
Theorem lifecycle_panics_on_closed_channel (s : Store) (r : request) (id : string)
    (c : nat) (ch : chan) :
  lifecycle r = Some id →
  workers s !! id = Some c →
  heap s !! c = Some ch →
  closed ch = true →
  short_circuit s r = false →
  serve s r =
    (s, THandler (mkH r id (sending r (Some c))), [ELog (endpoint r)], Crashed).
Proof.
  intros Hr Hw Hc Hclosed Hsc.
  rewrite (serve_to_send _ _ id c) by done.
  destruct r; simplify_eq/=; rewrite solo_unfold; cbn; unfold send_step;
    by rewrite (chan_send_closed _ _ _ _ Hc Hclosed).
Qed.

Lemma lifecycle_panics_on_closed_channel_witness :
  let s := store (run_from sc_closing (after sc_spawned)).1 in
  serve s (ReqPause "7f3a01") =
    (s, THandler (mkH (ReqPause "7f3a01") "7f3a01" (P91s (Some 0))),
     [ELog [AStr "Endpoint: pause"]], Crashed).
Proof.
  apply (lifecycle_panics_on_closed_channel _ (ReqPause "7f3a01") "7f3a01" 0
           (mkChan 1 [] true)).
  - reflexivity.
  - vm_compute. reflexivity.
  - vm_compute. reflexivity.
  - reflexivity.
  - vm_compute. reflexivity.
Defined.

(** ** [CreateTask] *)


(** ** [rollBack] *)

(** X10: [rollBack] touches nothing but the wait group: each of its steps
    leaves the channels, both maps and [counter] as they are and starts
    no goroutine.  Run on its own it raises the wait-group counter at
    line 201, sleeps, logs once and lowers the counter on return, so the
    store it leaves is the store it found. *)
Theorem rollBack_only_counts (s : Store) (u : string) :
  (0 ≤ wg s)%Z →
  solo 5 s (TRollback (mkR u R201)) =
    (s, TRollback (mkR u RExit),
     [ESleep rollbackDuration; ELog (status_line u "status: Rollback completed")],
     Finished)
  ∧ ∀ s0 r s1 r1 evs,
      rollBack_step s0 r = Step s1 r1 evs →
      heap s1 = heap s0 ∧ workers s1 = workers s0 ∧ states s1 = states s0 ∧
      counter s1 = counter s0 ∧ sigChan s1 = sigChan s0 ∧
      r_uuid r1 = r_uuid r ∧ forks evs = [] ∧
      (wg s1 = wg s0 ∨ (r_pc r = R201 ∧ wg s1 = wg s0 + 1) ∨
       (r_pc r = R202 ∧ wg s1 = wg s0 - 1))%Z.
Proof.
  intros Hwg. split.
  - solo1. rewrite wg_Add_one by done. do 3 solo1.
    rewrite wg_Done_pos by (cbn; lia). do 1 solo1. cbn.
    replace (set_wg (wg s + 1 - 1) (set_wg (wg s + 1) s)) with s; [done|].
    destruct s as [h n w ws ss sg]. unfold set_wg. cbn. f_equal. lia.
  - intros s0 [u0 []] s1 r1 evs H; unfold rollBack_step, wg_Done, wg_Add in H;
      cbn in H; repeat case_bool_decide; simplify_eq; cbn; split_and!; auto.
Qed.

Lemma rollBack_only_counts_witness :
  (solo 5 NewTaskHandler (TRollback (mkR "7f3a01" R201))).1.1.1 = NewTaskHandler.
Proof.
  pose proof (rollBack_only_counts NewTaskHandler "7f3a01") as [H _]; [cbn; lia|].
  rewrite H. reflexivity.
Defined.

(** ** Task ids *)

(** X11: [strings.ReplaceAll] with an empty replacement, as line 71 calls it,
    drops every occurrence of the byte and nothing else: what is left is
    the other bytes in their order, so an id holds no dash, and an id
    that holds none is left as it is. *)
Theorem ReplaceAll_strips (s : string) (old : Ascii.ascii) :
  (bytes (ReplaceAll s old "") = filter (λ c, c ≠ old) (bytes s)) ∧
  (old ∉ bytes (ReplaceAll s old "")) ∧
  (ReplaceAll (ReplaceAll s old "") old "" = ReplaceAll s old "").
Proof.
  assert (H1 : ∀ s, bytes (ReplaceAll s old "") = filter (λ c, c ≠ old) (bytes s)).
  { clear s. induction s as [|a s IH]; [done|]. cbn [ReplaceAll].
    unfold bytes in *. cbn [String.list_ascii_of_string].
    case_bool_decide as Ha.
    - rewrite filter_cons_False by (intros ?; done). exact IH.
    - rewrite filter_cons_True by done. cbn. by f_equal. }
  assert (H2 : ∀ s, old ∉ bytes s → ReplaceAll s old "" = s).
  { clear s. induction s as [|a s IH]; [done|]. unfold bytes in *.
    cbn [String.list_ascii_of_string ReplaceAll]. intros Hn.
    apply not_elem_of_cons in Hn as [Hne Hn].
    rewrite bool_decide_eq_false_2 by done. by rewrite IH. }
  assert (H3 : old ∉ bytes (ReplaceAll s old "")).
  { rewrite H1. intros [Hne _]%list_elem_of_filter. done. }
  split_and!; [apply H1|done|by apply H2].
Qed.

(** ** The key sets of the two maps *)

Lemma send_step_store (s : Store) (h : hlocal) (c : option nat) (v : Z) (next : hpc)
    (s' : Store) (h' : hlocal) (evs : list event) :
  send_step s h c v next = Step s' h' evs →
  ∃ hp, s' = set_heap hp s ∧ h' = h_goto h next.
Proof.
  unfold send_step. destruct (chan_send (heap s) c v); intros; simplify_eq. eauto.
Qed.

Lemma keys_agree_but (u : string) (s : Store) :
  agree_but u s →
  (is_Some (workers s !! u) ↔ is_Some (states s !! u)) →
  keys_agree s.
Proof.
  intros Hb Hu id. destruct (decide (id = u)) as [Heq|Hne].
  - by rewrite Heq.
  - by apply Hb.
Qed.

Lemma handler_step_keys (s : Store) (h : hlocal) (s' : Store) (h' : hlocal)
    (evs : list event) :
  handler_step s h = Step s' h' evs →
  keys_inv s (THandler h) → keys_inv s' (THandler h').
Proof.
  intros H Hk. destruct h as [r u pc].
  destruct pc; cbn in *;
    try (apply send_step_store in H as (hp & -> & ->));
    repeat (case_bool_decide || case_match); simplify_eq; cbn in *;
    try done; try tauto.
  - (* line 72 *)
    destruct Hk as [Hk Hr]. split_and!; [|rewrite lookup_insert_eq; eauto|exact Hr].
    intros id Hne. cbn. rewrite lookup_insert_ne by done. apply Hk.
  - (* line 73 *)
    destruct Hk as (Hb & Hu & _). apply (keys_agree_but u).
    + intros id Hne. cbn. rewrite lookup_insert_ne by done. by apply Hb.
    + cbn. rewrite lookup_insert_eq. split; eauto.
  - (* line 92 *)
    destruct Hk as [Hk Hu]. intros id. cbn. destruct (decide (id = u)) as [->|Hne].
    + rewrite lookup_insert_eq. split; eauto.
    + rewrite lookup_insert_ne by done. apply Hk.
  - (* line 109 *)
    destruct Hk as [Hk Hu]. intros id. cbn. destruct (decide (id = u)) as [->|Hne].
    + rewrite lookup_insert_eq. split; eauto.
    + rewrite lookup_insert_ne by done. apply Hk.
  - (* line 120 *)
    destruct Hk as [Hk Hu]. intros id. cbn. destruct (decide (id = u)) as [->|Hne].
    + rewrite lookup_insert_eq. split; eauto.
    + rewrite lookup_insert_ne by done. apply Hk.
Qed.

Lemma task_step_keys (s : Store) (w : wlocal) (s' : Store) (w' : wlocal)
    (evs : list event) :
  task_step s w = Step s' w' evs →
  keys_inv s (TTask w) → keys_inv s' (TTask w').
Proof.
  intros H Hk. destruct w as [n u cnt i pc].
  destruct pc; unfold task_step, wg_Done, wg_Add in H; cbn in *;
    repeat (case_bool_decide || case_match); simplify_eq; cbn in *; try done.
  - (* line 129 *)
    split; [|by rewrite lookup_delete_eq].
    intros id Hne. cbn. rewrite lookup_delete_ne by done. apply Hk.
  - (* line 130 *)
    destruct Hk as [Hb Hu]. apply (keys_agree_but u).
    + intros id Hne. cbn. rewrite lookup_delete_ne by done. by apply Hb.
    + cbn. rewrite lookup_delete_eq, Hu. split; intros [? ?]; done.
Qed.

Lemma thread_step_keys (s : Store) (t : thread) (s' : Store) (t' : thread)
    (evs : list event) :
  thread_step s t = Step s' t' evs →
  keys_inv s t → keys_inv s' t'.
Proof.
  destruct t as [w|r|h|m]; cbn [thread_step].
  - destruct (task_step s w) as [s1 w1 evs1| | |] eqn:E; cbn; intros; simplify_eq.
    by eapply task_step_keys.
  - destruct r as [u []]; unfold rollBack_step, wg_Done, wg_Add; cbn;
      repeat case_bool_decide; cbn; intros; simplify_eq; done.
  - destruct (handler_step s h) as [s1 h1 evs1| | |] eqn:E; cbn; intros; simplify_eq.
    by eapply handler_step_keys.
  - destruct m as [| |[|k todo]|k todo|c todo| | | | |]; cbn;
      repeat (case_bool_decide || case_match); cbn; intros; simplify_eq; done.
Qed.

Lemma solo_keys (n : nat) :
  ∀ (s : Store) (t : thread),
    keys_inv s t → keys_inv (solo n s t).1.1.1 (solo n s t).1.1.2.
Proof.
  induction n as [|n IH]; intros s t Hk; [done|].
  rewrite solo_unfold. destruct (thread_step s t) as [s' t' evs| | |] eqn:E; try done.
  specialize (IH s' t' (thread_step_keys _ _ _ _ _ E Hk)).
  by destruct (solo n s' t') as [[[??]?]?].
Qed.

Lemma solo_finished (n : nat) :
  ∀ (s : Store) (t : thread),
    (solo n s t).2 = Finished →
    thread_step (solo n s t).1.1.1 (solo n s t).1.1.2 = Halted.
Proof.
  induction n as [|n IH]; intros s t; [done|].
  rewrite solo_unfold. destruct (thread_step s t) as [s' t' evs| | |] eqn:E; try done.
  specialize (IH s' t'). by destruct (solo n s' t') as [[[??]?]?].
Qed.

Lemma solo_handler_req (n : nat) :
  ∀ (s : Store) (h : hlocal),
    ∃ h', (solo n s (THandler h)).1.1.2 = THandler h' ∧ h_req h' = h_req h.
Proof.
  induction n as [|n IH]; intros s h; [by exists h|].
  rewrite solo_unfold. cbn [thread_step].
  destruct (handler_step s h) as [s' h1 evs| | |] eqn:E; cbn; try by exists h.
  destruct (IH s' h1) as (h' & Hh & Hr).
  exists h'. destruct (solo n s' (THandler h1)) as [[[??]?]?]. cbn in *.
  split; [done|]. rewrite Hr.
  destruct h as [r u pc]. destruct pc; cbn in E;
    try (apply send_step_store in E as (hp & -> & ->));
    repeat (case_bool_decide || case_match); simplify_eq; done.
Qed.

Lemma thread_step_kind (s : Store) (t : thread) (s' : Store) (t' : thread)
    (evs : list event) :
  thread_step s t = Step s' t' evs → kind t' = kind t.
Proof.
  destruct t as [w|r|h|m]; cbn [thread_step].
  - by destruct (task_step s w); cbn; intros; simplify_eq.
  - by destruct (rollBack_step s r); cbn; intros; simplify_eq.
  - by destruct (handler_step s h); cbn; intros; simplify_eq.
  - by destruct (main_step s m); cbn; intros; simplify_eq.
Qed.

Lemma solo_kind (n : nat) :
  ∀ (s : Store) (t : thread), kind (solo n s t).1.1.2 = kind t.
Proof.
  induction n as [|n IH]; intros s t; [done|].
  rewrite solo_unfold. destruct (thread_step s t) as [s' t' evs| | |] eqn:E; try done.
  specialize (IH s' t'). rewrite <- (thread_step_kind _ _ _ _ _ E).
  by destruct (solo n s' t') as [[[??]?]?].
Qed.

(** X12: Each operation run with no other goroutine in between takes a store
    whose two maps have the same keys to one whose maps have the same
    keys: a request served by [CreateTask] or, behind the middleware, by
    [PauseTask], [ResumeTask] or [DeleteTask], whether it answers, waits
    at its send or panics there; a worker run from its start to its exit
    through [closeRoutine]; [rollBack]; and [main] with
    [TerminateTasks]. *)
Theorem keys_agree_per_operation (s : Store) :
  keys_agree s →
  (∀ r, keys_agree (serve s r).1.1.1) ∧
  (∀ n w, w_pc w = W166 →
     (solo n s (TTask w)).2 = Finished →
     keys_agree (solo n s (TTask w)).1.1.1) ∧
  (∀ n u, keys_agree (solo n s (TRollback (mkR u R201))).1.1.1) ∧
  (∀ n m, keys_agree (solo n s (TMain m)).1.1.1).
Proof.
  intros Hk. split_and!.
  - intros r.
    assert (Hl : ∀ r, lifecycle r ≠ None → keys_agree (serve s r).1.1.1).
    { clear r. intros r Hr. unfold serve.
      pose proof (solo_keys 12 s (THandler (mkH r "" (route r)))) as H.
      destruct (solo_handler_req 12 s (mkH r "" (route r))) as (h' & Hh & Hq).
      rewrite Hh in H. cbn in Hq.
      assert (H0 : keys_inv s (THandler (mkH r "" (route r)))) by (by destruct r).
      specialize (H H0). destruct h' as [r' u pc]. cbn in Hq. subst r'.
      destruct pc; cbn in H; try done; tauto. }
    destruct r as [raw|id|id|id]; [|by apply Hl..].
    rewrite serve_create. intros id. cbn.
    destruct (decide (id = ReplaceAll raw "-"%char "")) as [->|Hne].
    + rewrite !lookup_insert_eq. split; eauto.
    + rewrite !lookup_insert_ne by done. apply Hk.
  - intros n w Hpc Hfin.
    pose proof (solo_keys n s (TTask w)) as H.
    pose proof (solo_finished n s (TTask w) Hfin) as Hh.
    pose proof (solo_kind n s (TTask w)) as Hkind.
    destruct (solo n s (TTask w)) as [[[s' t'] evs] e]. cbn in *.
    destruct t' as [w'| | |]; try done.
    destruct w as [? ? ? ? pc]. cbn in Hpc. subst pc. specialize (H Hk).
    destruct w' as [? ? ? ? pc'].
    destruct pc'; done.
  - intros n u.
    pose proof (solo_keys n s (TRollback (mkR u R201)) Hk) as H.
    pose proof (solo_kind n s (TRollback (mkR u R201))) as Hkind.
    by destruct (solo n s _).1.1.2.
  - intros n m.
    pose proof (solo_keys n s (TMain m) Hk) as H.
    pose proof (solo_kind n s (TMain m)) as Hkind.
    by destruct (solo n s _).1.1.2.
Qed.

Lemma keys_agree_per_operation_witness :
  keys_agree (serve NewTaskHandler (ReqCreate "7f3a-01")).1.1.1.
Proof.
  assert (H0 : keys_agree NewTaskHandler).
  { intros id. cbn. rewrite !lookup_empty. split; intros [? ?]; done. }
  exact (proj1 (keys_agree_per_operation NewTaskHandler H0) (ReqCreate "7f3a-01")).
Defined.

Lemma reachable_after (sc : list action) :
  is_Some (run sc init) → reachable (after sc).
Proof. intros [[g tr] H]. exists sc, tr. unfold after. by rewrite H. Qed.

(** X13: Across goroutines the key sets do not stay equal.  There is a run of
    the process after which no goroutine can take a step (every handler,
    worker and rollback has returned, [main] waits for a signal) and
    [states] holds a key that [workers] lacks: [DeleteTask] wrote the
    cached state at line 120 after the worker it had killed ran
    [closeRoutine] to the end. *)
Theorem stale_state_after_delete :
  ∃ (g : Global) (u : string),
    reachable g ∧ over g = false ∧
    (∀ tid, sched (Run tid) g = None) ∧
    workers (store g) !! u = None ∧
    states (store g) !! u = Some kill ∧
    ¬ keys_agree (store g).
Proof.
  exists (after sc_stale), "7f3a01".
  assert (Hw : workers (store (after sc_stale)) !! "7f3a01" = None)
    by (vm_compute; reflexivity).
  assert (Hs : states (store (after sc_stale)) !! "7f3a01" = Some kill)
    by (vm_compute; reflexivity).
  split; [apply reachable_after; vm_compute; eexists; reflexivity|].
  split; [vm_compute; reflexivity|].
  split; [|split; [exact Hw|split; [exact Hs|]]].
  - intros tid. do 5 (destruct tid as [|tid]; [vm_compute; reflexivity|]).
    unfold sched.
    replace (over (after sc_stale)) with false by (vm_compute; reflexivity).
    replace (pool (after sc_stale) !! S (S (S (S (S tid))))) with (@None thread);
      [done|].
    assert (Hlen : length (pool (after sc_stale)) = 5) by (vm_compute; reflexivity).
    symmetry. apply lookup_ge_None. rewrite Hlen. lia.
  - intros H. destruct (H "7f3a01") as [_ H2]. rewrite Hw, Hs in H2.
    destruct H2 as [? ?]; [eauto|done].
Qed.

(** ** A send on a nil channel *)

Lemma texec_blocked (t : thread) (evs : list event) (t' : thread) :
  (∀ s, thread_step s t = Blocked) →
  texec t evs t' → t' = t ∧ evs = [].
Proof.
  intros Hb Hex. destruct Hex as [t|s t s' t1 evs evs' t2 Hst Hex|s t evs' t2 Hst Hex].
  - done.
  - by rewrite Hb in Hst.
  - by rewrite Hb in Hst.
Qed.

(** X14: A handler whose read of [t.workers[uuid]] (lines 91, 108, 119) finds
    no entry, the worker having deleted it after the middleware's test,
    sends on a nil channel: in every continuation of the run it is still
    at that send, and it has neither answered nor done anything else. *)
Theorem send_on_nil_never_returns (sc : list action) (g g' : Global) (tr : trace)
    (tid : nat) (r : request) (id : string) :
  run sc g = Some (g', tr) →
  pool g !! tid = Some (THandler (mkH r id (sending r None))) →
  pool g' !! tid = Some (THandler (mkH r id (sending r None))) ∧
  mine tid tr = [].
Proof.
  intros Hrun Hp.
  destruct (run_texec _ _ _ _ _ _ Hrun Hp) as (t' & Hp' & Hex).
  apply texec_blocked in Hex as [-> ->]; [done|].
  intros s. by destruct r.
Qed.

Lemma send_on_nil_never_returns_witness :
  let g := (run_from sc_orphaned (after sc_spawned)).1 in
  let r := run_from [Signal; Run 0; Run 0] g in
  workers (store g) !! "7f3a01" = None ∧
  pool r.1 !! 3 = Some (THandler (mkH (ReqPause "7f3a01") "7f3a01" (P91s None))) ∧
  mine 3 r.2 = [].
Proof.
  intros g r. split; [vm_compute; reflexivity|].
  apply (send_on_nil_never_returns [Signal; Run 0; Run 0] g r.1 r.2 3
           (ReqPause "7f3a01") "7f3a01").
  - vm_compute. reflexivity.
  - vm_compute. reflexivity.
Defined.

(** ** Pause, then Resume *)

(** X15: Pause followed by Resume is a round trip.  With the task cached as
    running, its channel empty and the worker at the head of an
    iteration: the Pause request puts Pause on the channel and caches it;
    the worker takes it at its check, logs "paused" and waits at the
    receive of line 176 without having worked; the Resume request puts
    start on the channel and caches it; the worker takes it, logs
    "running" and goes on to the iteration it was about to run, with the
    same loop counter.  The store is then the one before the Pause. *)
Theorem pause_resume_round_trip (s : Store) (w : wlocal) (c : nat) :
  w_pc w = W170 →
  (w_i w < w_count w)%Z →
  workers s !! w_uuid w = Some c →
  heap s !! c = Some (mkChan 1 [] false) →
  states s !! w_uuid w = Some start →
  let u := w_uuid w in
  ∃ s1 s2 s3,
    serve s (ReqPause u) =
      (s1, THandler (mkH (ReqPause u) u HExit),
       [ELog [AStr "Endpoint: pause"]; ESend (Some c) pause;
        ERespond StatusOK (mkResponse "" "" "" true)], Finished) ∧
    solo 9 s1 (TTask w) =
      (s2, TTask (w_goto w (W176r (Some c))),
       [ERecv (Some c) pause; ELog (status_line u "status: paused")], Stuck) ∧
    state_of s2 u = pause ∧
    serve s2 (ReqResume u) =
      (s3, THandler (mkH (ReqResume u) u HExit),
       [ELog [AStr "Endpoint: resume"]; ESend (Some c) start;
        ERespond StatusOK (mkResponse "" "" "" true)], Finished) ∧
    solo 4 s3 (TTask (w_goto w (W176r (Some c)))) =
      (s, TTask (w_goto w W190),
       [ERecv (Some c) start; ELog (status_line u "status: running")], OutOfFuel).
Proof.
  intros Hpc Hlt Hw Hc Hst u.
  destruct w as [n u' cnt i pc]. cbn in *. subst pc u.
  assert (Hlen : c < length (heap s)) by by eapply lookup_lt_Some.
  set (s1 := directed u' c (mkChan 1 [] false) pause s).
  set (s2 := set_states (<[u' := pause]> (states s)) s).
  set (s3 := directed u' c (mkChan 1 [] false) start s2).
  assert (Hh2 : heap s2 = heap s) by done.
  exists s1, s2, s3. split_and!.
  - apply (lifecycle_directive s (ReqPause u') u' c (mkChan 1 [] false));
      try done; [cbn; lia|].
    cbn. rewrite (state_of_lookup _ _ _ Hst). done.
  - assert (Hl1 : chan_len (<[c := mkChan 1 [pause] false]> (heap s)) (Some c) = 1).
    { unfold chan_len, deref. by rewrite list_lookup_insert_eq. }
    subst s1 s2 s3. do 2 solo1. rewrite Hw, Hl1. do 2 solo1. rewrite Hw.
    erewrite chan_recv_head; [|apply list_lookup_insert_eq; by rewrite ?length_insert|done].
    do 4 solo1. rewrite solo_unfold. cbn. rewrite ?Hw.
    erewrite chan_recv_empty; [|apply list_lookup_insert_eq; by rewrite ?length_insert|done|done].
    cbn. unfold directed, set_heap, set_states. cbn.
    rewrite list_insert_insert_eq, (list_insert_id _ _ _ Hc). done.
  - unfold state_of, s2. cbn. by rewrite lookup_insert_eq.
  - apply (lifecycle_directive s2 (ReqResume u') u' c (mkChan 1 [] false));
      try done; [cbn; lia|].
    cbn. unfold state_of, s2. cbn. rewrite lookup_insert_eq. done.
  - solo1.
    erewrite chan_recv_head; [|apply list_lookup_insert_eq; by rewrite ?length_insert|done].
    do 3 solo1. rewrite solo_0. cbn.
    unfold s3, s2, directed, set_heap, set_states. cbn.
    rewrite list_insert_insert_eq, (list_insert_id _ _ _ Hc).
    rewrite insert_insert_eq, (insert_id _ _ _ Hst). by destruct s.
Qed.

Lemma pause_resume_round_trip_witness :
  let s := store (after sc_created) in
  ∃ s1 s2 s3,
    (serve s (ReqPause "7f3a01")).1.1.1 = s1 ∧
    (solo 9 s1 (TTask (mkW 0 "7f3a01" 10 1 W170))).1.1.1 = s2 ∧
    (serve s2 (ReqResume "7f3a01")).1.1.1 = s3 ∧
    (solo 4 s3 (TTask (mkW 0 "7f3a01" 10 1 (W176r (Some 0))))).1.1.1 = s.
Proof.
  intros s.
  destruct (pause_resume_round_trip s (mkW 0 "7f3a01" 10 1 W170) 0)
    as (s1 & s2 & s3 & H1 & H2 & _ & H3 & H4).
  - reflexivity.
  - cbn. lia.
  - vm_compute. reflexivity.
  - vm_compute. reflexivity.
  - vm_compute. reflexivity.
  - exists s1, s2, s3. cbn in H1, H2, H3, H4. rewrite H1, H2, H3.
    unfold w_goto in H4. cbn in H4. rewrite H4. repeat split.
Defined.

(** ** [TerminateTasks] *)

Lemma set_heap_id (s : Store) : set_heap (heap s) s = s.
Proof. by destruct s. Qed.

(** the loop of lines 135-137 over keys that are registered, with room
    on each channel *)
Lemma solo_terminate (ks : list string) :
  ∀ s : Store,
    NoDup ks →
    (∀ k, k ∈ ks → ∃ c ch, workers s !! k = Some c ∧ heap s !! c = Some ch ∧
                            closed ch = false ∧ length (buf ch) < cap ch) →
    (∀ k1 k2 c, k1 ∈ ks → k2 ∈ ks →
                workers s !! k1 = Some c → workers s !! k2 = Some c → k1 = k2) →
    ∃ h',
      solo (3 * length ks + 1) s (TMain (T135 ks)) =
        (set_heap h' s, TMain Main269, kill_sends s ks, OutOfFuel) ∧
      (∀ k c ch, k ∈ ks → workers s !! k = Some c → heap s !! c = Some ch →
         h' !! c = Some (mkChan (cap ch) (buf ch ++ [kill]) false)) ∧
      (∀ c, (∀ k, k ∈ ks → workers s !! k ≠ Some c) → h' !! c = heap s !! c).
Proof.
  induction ks as [|k ks IH]; intros s Hnd Hroom Hinj.
  - exists (heap s). split_and!; [|by intros ? ? ? ?%elem_of_nil|done].
    cbn. solo1. by rewrite solo_0, set_heap_id.
  - apply NoDup_cons in Hnd as [Hk Hnd].
    destruct (Hroom k) as (c & ch & Hw & Hc & Hopen & Hlen); [left|].
    set (s1 := set_heap (<[c := mkChan (cap ch) (buf ch ++ [kill]) false]> (heap s)) s).
    assert (Hother : ∀ k' c', k' ∈ ks → workers s !! k' = Some c' → c' ≠ c).
    { intros k' c' Hin Hw' ->. apply Hk.
      by rewrite (Hinj k k' c) by (done || (by left) || (by right)). }
    destruct (IH s1) as (h' & Hsolo & Hsent & Hrest).
    + done.
    + intros k' Hin. destruct (Hroom k') as (c' & ch' & Hw' & Hc' & ?); [by right|].
      exists c', ch'. split; [done|]. split; [|done].
      cbn. rewrite list_lookup_insert_ne; [done|]. intros ->. by eapply Hother.
    + intros k1 k2 c0 H1 H2. apply Hinj; by right.
    + exists h'. split_and!.
      * replace (3 * length (k :: ks) + 1) with (3 + (3 * length ks + 1)) by (cbn; lia).
        rewrite solo_add.
        assert (H3 : solo 3 s (TMain (T135 (k :: ks))) =
                       (s1, TMain (T135 ks), [ESend (Some c) kill], OutOfFuel)).
        { assert (Hd : bool_decide (is_Some (workers s !! k)) = true)
            by (apply bool_decide_eq_true_2; rewrite Hw; eauto).
          rewrite solo_unfold. cbn. rewrite Hd. cbn. rewrite solo_unfold. cbn.
          unfold worker_of. rewrite Hw. rewrite solo_unfold. cbn.
          rewrite (chan_send_room _ _ _ _ Hc Hopen Hlen). cbn.
          by rewrite solo_0. }
        rewrite H3, Hsolo. cbn. unfold kill_sends. cbn. by rewrite Hw.
      * intros k' c' ch' [->|Hin]%elem_of_cons Hw' Hc'.
        -- assert (c' = c) as -> by congruence. assert (ch' = ch) as -> by congruence.
           rewrite Hrest; [cbn; apply list_lookup_insert_eq; by eapply lookup_lt_Some|].
           intros k' Hin Hw''. by eapply Hother.
        -- apply (Hsent k'); [done|done|]. cbn.
           rewrite list_lookup_insert_ne; [done|]. intros ->. by eapply Hother.
      * intros c0 Hno. rewrite Hrest.
        -- cbn. rewrite list_lookup_insert_ne; [done|]. intros ->.
           by apply (Hno k); [left|].
        -- intros k' Hin. apply Hno. by right.
Qed.

(** X16: [TerminateTasks] as [main] calls it: when every registered channel is
    open and has room, and no two ids share a channel, [main] run on its
    own sends one Kill on the channel of every registered id and nothing
    else, and reaches the wait of line 269; each of these channels then
    holds the Kill behind what it held, every other channel, both maps and
    the wait group are as they were. *)
Theorem TerminateTasks_broadcast (s : Store) :
  (∀ k c, workers s !! k = Some c →
     ∃ ch, heap s !! c = Some ch ∧ closed ch = false ∧ length (buf ch) < cap ch) →
  (∀ k1 k2 c, workers s !! k1 = Some c → workers s !! k2 = Some c → k1 = k2) →
  ∃ h' evs,
    solo (3 * size (workers s) + 2) s (TMain Main266) =
      (set_heap h' s, TMain Main269, evs, OutOfFuel) ∧
    (∀ k c ch, workers s !! k = Some c → heap s !! c = Some ch →
       h' !! c = Some (mkChan (cap ch) (buf ch ++ [kill]) false)) ∧
    (∀ c, (∀ k, workers s !! k ≠ Some c) → h' !! c = heap s !! c) ∧
    (∀ e, e ∈ evs ↔ ∃ k c, workers s !! k = Some c ∧ e = ESend (Some c) kill) ∧
    length evs = size (workers s).
Proof.
  intros Hroom Hinj.
  set (ks := map fst (map_to_list (workers s))).
  assert (Hks : ∀ k, k ∈ ks ↔ is_Some (workers s !! k)).
  { intros k. unfold ks. change (map fst (map_to_list (workers s)))
      with ((map_to_list (workers s)).*1).
    rewrite list_elem_of_fmap. split.
    - intros ([k' c] & -> & Hin). apply elem_of_map_to_list in Hin. eauto.
    - intros [c Hc]. exists (k, c). split; [done|]. by apply elem_of_map_to_list. }
  assert (Hlen : length ks = size (workers s)).
  { unfold ks. by rewrite length_map, length_map_to_list. }
  destruct (solo_terminate ks s) as (h' & Hsolo & Hsent & Hrest).
  - apply NoDup_fst_map_to_list.
  - intros k [c Hc]%Hks. destruct (Hroom k c Hc) as (ch & ?). eauto.
  - intros k1 k2 c _ _. apply Hinj.
  - exists h', (kill_sends s ks). split_and!.
    + replace (3 * size (workers s) + 2) with (S (3 * length ks + 1)) by lia.
      rewrite solo_unfold. cbn [thread_step main_step lift]. fold ks.
      by rewrite Hsolo.
    + intros k c ch Hw Hc. apply (Hsent k); [apply Hks; eauto|done|done].
    + intros c Hno. apply Hrest. intros k _. apply Hno.
    + intros e. unfold kill_sends. rewrite list_elem_of_fmap. split.
      * intros (k & -> & Hin). apply Hks in Hin as [c Hc].
        exists k, c. by rewrite Hc.
      * intros (k & c & Hc & ->). exists k. rewrite Hc. split; [done|].
        apply Hks. eauto.
    + unfold kill_sends. by rewrite length_fmap.
Qed.

Lemma TerminateTasks_broadcast_witness :
  let s := store (after sc_created) in
  ∃ h' evs,
    solo 5 s (TMain Main266) = (set_heap h' s, TMain Main269, evs, OutOfFuel) ∧
    h' !! 0 = Some (mkChan 1 [kill] false).
Proof.
  intros s.
  assert (Hw : workers s = {["7f3a01" := 0]}) by (vm_compute; reflexivity).
  assert (Hh : heap s = [mkChan 1 [] false]) by (vm_compute; reflexivity).
  destruct (TerminateTasks_broadcast s) as (h' & evs & H1 & H2 & _).
  - intros k c. rewrite Hw, Hh. intros [<- <-]%lookup_singleton_Some.
    exists (mkChan 1 [] false). split; [reflexivity|]. split; [reflexivity|]. cbn. lia.
  - intros k1 k2 c. rewrite Hw.
    intros [<- _]%lookup_singleton_Some [<- _]%lookup_singleton_Some. reflexivity.
  - exists h', evs. split.
    + replace 5 with (3 * size (workers s) + 2); [exact H1|].
      rewrite Hw, map_size_singleton. reflexivity.
    + apply (H2 "7f3a01" 0 (mkChan 1 [] false)).
      * rewrite Hw. apply lookup_singleton_eq.
      * rewrite Hh. reflexivity.
Defined.

(** ** [main] at the wait and after it *)

Lemma over_false (g : Global) :
  over g = false ↔ crashed g = false ∧ TMain MainExit ∉ pool g.
Proof.
  unfold over. rewrite orb_false_iff, bool_decide_eq_false. done.
Qed.

Lemma over_done (g : Global) (a : action) : over g = true → sched a g = None.
Proof. intros H. unfold sched. by rewrite H. Qed.

Lemma elem_of_insert_inv (l : list thread) (i : nat) (x y : thread) :
  x ∈ <[i := y]> l → x = y ∨ x ∈ l.
Proof.
  intros [j Hj]%list_elem_of_lookup.
  apply list_lookup_insert_Some in Hj as [(_ & -> & _)|(_ & Hj)]; [by left|].
  right. by eapply list_elem_of_lookup_2.
Qed.

(** one step of [main] that starts no goroutine *)
Lemma sched_main (g : Global) (tid : nat) (m m' : mpc) (s' : Store) (evs : list event) :
  over g = false →
  pool g !! tid = Some (TMain m) →
  main_step (store g) m = Step s' m' evs →
  forks evs = [] →
  sched (Run tid) g =
    Some (mkG s' (<[tid := TMain m']> (pool g)) (gen g) false, map (pair tid) evs).
Proof.
  intros Ho Hp Hst Hf. unfold sched. rewrite Ho, Hp. cbn. rewrite Hst. cbn.
  by rewrite Hf, app_nil_r.
Qed.

Lemma over_main (g : Global) (tid : nat) (m : mpc) (s' : Store) :
  over g = false → m ≠ MainExit →
  over (mkG s' (<[tid := TMain m]> (pool g)) (gen g) false) = false.
Proof.
  intros [_ Hno]%over_false Hm. apply over_false. split; [done|]. cbn.
  intros [?|?]%elem_of_insert_inv; [congruence|done].
Qed.

(** X17: The wait of line 269 looks at the counter and at nothing else.  With
    [main] at the wait, it cannot go on while the counter is not zero;
    when the counter is zero it can log, shut the server down and return
    with every other goroutine, started or not, where it was, and after
    that no goroutine takes a step: a worker or a rollback that has been
    started and has not yet run its [wg.Add] is not waited for. *)
Theorem main_waits_for_counter_only (g : Global) (tid : nat) :
  over g = false →
  pool g !! tid = Some (TMain Main269) →
  (wg (store g) ≠ 0%Z → sched (Run tid) g = None) ∧
  (wg (store g) = 0%Z →
   ∃ g',
     run (steps 4 tid) g = Some (g', map (pair tid) main_exit) ∧
     store g' = store g ∧
     pool g' = <[tid := TMain MainExit]> (pool g) ∧
     over g' = true ∧
     (∀ a, sched a g' = None)).
Proof.
  intros Ho Hp. split.
  - intros Hwg. unfold sched. rewrite Ho, Hp. cbn.
    by rewrite bool_decide_eq_false_2.
  - intros Hwg. pose proof (lookup_lt_Some _ _ _ Hp) as Hlt.
    set (g1 := mkG (store g) (<[tid := TMain Main271]> (pool g)) (gen g) false).
    set (g2 := mkG (store g) (<[tid := TMain Main272]> (pool g)) (gen g) false).
    set (g3 := mkG (store g) (<[tid := TMain Main277]> (pool g)) (gen g) false).
    set (g4 := mkG (store g) (<[tid := TMain MainExit]> (pool g)) (gen g) false).
    assert (H1 : sched (Run tid) g = Some (g1, [])).
    { rewrite (sched_main g tid Main269 Main271 (store g) []); try done.
      cbn. by rewrite bool_decide_eq_true_2. }
    assert (H2 : sched (Run tid) g1 =
                   Some (g2, [(tid, ELog [AStr "Received terminate, properly terminated all tasks"])])).
    { rewrite (sched_main g1 tid Main271 Main272 (store g)
                 [ELog [AStr "Received terminate, properly terminated all tasks"]]);
        try done.
      - unfold g1, g2. cbn. by rewrite list_insert_insert_eq.
      - by apply over_main.
      - cbn. by apply list_lookup_insert_eq. }
    assert (H3 : sched (Run tid) g2 =
                   Some (g3, [(tid, ELog [AStr "Reason:"; AStr "signal"])])).
    { rewrite (sched_main g2 tid Main272 Main277 (store g)
                 [ELog [AStr "Reason:"; AStr "signal"]]); try done.
      - unfold g2, g3. cbn. by rewrite list_insert_insert_eq.
      - by apply over_main.
      - cbn. by apply list_lookup_insert_eq. }
    assert (H4 : sched (Run tid) g3 = Some (g4, [(tid, EShutdown)])).
    { rewrite (sched_main g3 tid Main277 MainExit (store g) [EShutdown]); try done.
      - unfold g3, g4. cbn. by rewrite list_insert_insert_eq.
      - by apply over_main.
      - cbn. by apply list_lookup_insert_eq. }
    assert (Ho4 : over g4 = true).
    { unfold over, g4. cbn. apply bool_decide_eq_true_2.
      by apply list_elem_of_insert. }
    exists g4. split_and!; try done.
    + cbn. rewrite H1, H2, H3, H4. done.
    + intros a. by apply over_done.
Qed.

Lemma main_waits_for_counter_only_witness :
  let g := after sc_unwaited in
  ∃ g',
    run (steps 4 0) g = Some (g', map (pair 0) main_exit) ∧
    pool g' !! 2 = Some (TTask (mkW 0 "7f3a01" 10 1 (W128 RetKill))) ∧
    pool g' !! 3 = Some (TRollback (mkR "7f3a01" R201)) ∧
    (∀ a, sched a g' = None).
Proof.
  intros g.
  destruct (main_waits_for_counter_only g 0) as [_ H].
  - vm_compute. reflexivity.
  - vm_compute. reflexivity.
  - destruct H as (g' & Hrun & _ & Hpool & _ & Hend); [vm_compute; reflexivity|].
    exists g'. split; [exact Hrun|]. rewrite Hpool.
    split; [vm_compute; reflexivity|]. split; [vm_compute; reflexivity|exact Hend].
Defined.

(** X18: [TerminateTasks] sends without looking at the worker: when the
    channel whose operand [main] has evaluated at line 136 has been
    closed by its worker (line 128), the send panics in [main], nobody
    recovers it, and the process is gone with the store as it was. *)
Theorem TerminateTasks_panics_on_closed_channel (g : Global) (tid c : nat)
    (ch : chan) (todo : list string) :
  over g = false →
  pool g !! tid = Some (TMain (T136s (Some c) todo)) →
  heap (store g) !! c = Some ch →
  closed ch = true →
  ∃ g',
    sched (Run tid) g = Some (g', [(tid, EPanic)]) ∧
    crashed g' = true ∧ store g' = store g ∧ pool g' = pool g ∧
    (∀ a, sched a g' = None).
Proof.
  intros Ho Hp Hc Hcl.
  exists (mkG (store g) (pool g) (gen g) true).
  split; [|split; [done|split; [done|split; [done|]]]].
  - unfold sched. rewrite Ho, Hp. cbn.
    by rewrite (chan_send_closed _ _ _ _ Hc Hcl).
  - intros a. by apply over_done.
Qed.

Lemma TerminateTasks_panics_on_closed_channel_witness :
  let g := after sc_closed_under_main in
  pool g !! 2 = Some (TTask (mkW 0 "7f3a01" 10 10 (W129 RetEnd))) ∧
  ∃ g', sched (Run 0) g = Some (g', [(0, EPanic)]) ∧ crashed g' = true.
Proof.
  intros g. split; [vm_compute; reflexivity|].
  destruct (TerminateTasks_panics_on_closed_channel g 0 0 (mkChan 1 [] true) [])
    as (g' & H1 & H2 & _).
  - vm_compute. reflexivity.
  - vm_compute. reflexivity.
  - vm_compute. reflexivity.
  - reflexivity.
  - exists g'. split; [exact H1|exact H2].
Defined.

(** ** Every reachable state is well formed *)

Lemma ReplaceAll_dash_free (raw : string) : dash_free (ReplaceAll raw "-"%char "").
Proof.
  unfold dash_free. induction raw as [|a raw IH]; [by intros ?%elem_of_nil|].
  cbn [ReplaceAll]. case_bool_decide as Ha; [done|].
  unfold bytes in *. cbn [String.list_ascii_of_string].
  by apply not_elem_of_cons.
Qed.

Lemma is_directive_start : is_directive start.
Proof. right; by right. Qed.
Lemma is_directive_pause : is_directive pause.
Proof. right; by left. Qed.
Lemma is_directive_kill : is_directive kill.
Proof. by left. Qed.

Lemma chan_send_ok (h : list chan) (c : option nat) (v : Z) (h' : list chan) :
  Forall chan_ok h → is_directive v →
  chan_send h c v = Ok h' →
  Forall chan_ok h' ∧ length h' = length h.
Proof.
  intros Hh Hv. unfold chan_send, deref. destruct c as [r|]; [|done].
  destruct (h !! r) as [ch|] eqn:Hr; [|done].
  destruct (closed ch); [done|]. case_bool_decide as Hlen; [|done].
  intros [= <-]. split; [|by rewrite length_insert].
  apply Forall_insert; [done|].
  destruct (proj1 (Forall_lookup _ _) Hh _ _ Hr) as (Hcap & Hl & Hb).
  split_and!; cbn; [done| |].
  - rewrite length_app. cbn. lia.
  - apply Forall_app. split; [done|]. by constructor.
Qed.

Lemma chan_recv_ok (h : list chan) (c : option nat) (v : Z) (h' : list chan) :
  Forall chan_ok h →
  chan_recv h c = Ok (v, h') →
  is_directive v ∧ Forall chan_ok h' ∧ length h' = length h.
Proof.
  intros Hh. unfold chan_recv, deref. destruct c as [r|]; [|done].
  destruct (h !! r) as [ch|] eqn:Hr; [|done].
  destruct (proj1 (Forall_lookup _ _) Hh _ _ Hr) as (Hcap & Hl & Hb).
  destruct (buf ch) as [|v0 rest] eqn:Hbuf.
  - destruct (closed ch); [|done]. intros [= <- <-].
    split; [apply is_directive_kill|done].
  - intros [= <- <-]. apply Forall_cons in Hb as [Hv Hrest].
    split; [done|]. split; [|by rewrite length_insert].
    apply Forall_insert; [done|]. split_and!; cbn; [done| |done].
    cbn in Hl. lia.
Qed.

Lemma chan_close_ok (h : list chan) (c : option nat) (h' : list chan) :
  Forall chan_ok h →
  chan_close h c = Ok h' →
  Forall chan_ok h' ∧ length h' = length h.
Proof.
  intros Hh. unfold chan_close, deref. destruct c as [r|]; [|done].
  destruct (h !! r) as [ch|] eqn:Hr; [|done].
  destruct (closed ch); [done|]. intros [= <-].
  split; [|by rewrite length_insert].
  apply Forall_insert; [done|].
  by destruct (proj1 (Forall_lookup _ _) Hh _ _ Hr) as (Hcap & Hl & Hb).
Qed.

Lemma int_wrap_range (z : Z) : (- 2 ^ 63 ≤ int_wrap z < 2 ^ 63)%Z.
Proof.
  unfold int_wrap.
  pose proof (Z.mod_pos_bound (z + 2 ^ 63) (2 ^ 64)) as H. lia.
Qed.

Lemma store_ok_heap (s : Store) (h' : list chan) :
  store_ok s → Forall chan_ok h' → length h' = length (heap s) →
  store_ok (set_heap h' s).
Proof.
  intros [] Hh Hl. split; cbn; try done. intros id c Hc. rewrite Hl. eauto.
Qed.

Lemma store_ok_wg (s : Store) (n : Z) :
  store_ok s → (0 ≤ n)%Z → store_ok (set_wg n s).
Proof. intros [] Hn. by split. Qed.

Lemma store_ok_sigChan (s : Store) (b : bool) :
  store_ok s → store_ok (set_sigChan b s).
Proof. intros []. by split. Qed.

Lemma store_ok_counter (s : Store) (z : Z) :
  store_ok s → store_ok (set_counter (int_wrap z) s).
Proof. intros []. split; try done. apply int_wrap_range. Qed.

Lemma store_ok_delete_workers (s : Store) (u : string) :
  store_ok s → store_ok (set_workers (delete u (workers s)) s).
Proof.
  intros []. split; cbn; try done.
  intros id c [_ Hc]%lookup_delete_Some. eauto.
Qed.

Lemma store_ok_delete_states (s : Store) (u : string) :
  store_ok s → store_ok (set_states (delete u (states s)) s).
Proof.
  intros []. split; cbn; try done.
  intros id c [_ Hc]%lookup_delete_Some. eauto.
Qed.

Lemma store_ok_insert_states (s : Store) (u : string) (v : Z) :
  store_ok s → is_directive v → dash_free u →
  store_ok (set_states (<[u := v]> (states s)) s).
Proof.
  intros [] Hv Hu. split; cbn; try done.
  intros id v' [[<- <-]|[_ H]]%lookup_insert_Some; eauto.
Qed.

Lemma store_ok_register (s : Store) (u : string) :
  store_ok s → dash_free u →
  store_ok (set_workers (<[u := length (heap s)]> (workers s))
              (set_heap (heap s ++ [make_chan 1]) s)).
Proof.
  intros [] Hu. split; cbn; try done.
  - apply Forall_app. split; [done|]. constructor; [|done].
    split_and!; cbn; [done|lia|done].
  - intros id c. rewrite length_app. cbn.
    intros [[<- <-]|[_ H]]%lookup_insert_Some; [split; [lia|done]|].
    destruct (workers_ok0 _ _ H). split; [lia|done].
Qed.

Create HintDb wf.
#[local] Hint Resolve store_ok_heap store_ok_wg store_ok_sigChan store_ok_counter
  store_ok_delete_workers store_ok_delete_states store_ok_insert_states
  store_ok_register is_directive_start is_directive_pause is_directive_kill
  ReplaceAll_dash_free : wf.

Lemma task_step_ok (s : Store) (w : wlocal) (s' : Store) (w' : wlocal)
    (evs : list event) :
  task_step s w = Step s' w' evs →
  store_ok s → thread_ok (TTask w) →
  store_ok s' ∧ thread_ok (TTask w') ∧ Forall thread_ok (forks evs).
Proof.
  intros H Hs (Hcnt & Hu & Hb & Hst).
  pose proof (task_step_budget _ _ _ _ _ H Hb) as Hb'.
  pose proof (task_step_locals _ _ _ _ _ H) as (_ & Hu' & Hc').
  assert (Hstore : store_ok s' ∧ (∀ st, held (w_pc w') = Some st → is_directive st)
                   ∧ Forall thread_ok (forks evs)).
  { clear Hb Hb' Hu' Hc'. destruct w as [n u cnt i pc]. cbn in *.
    destruct pc; unfold task_step, wg_Done, wg_Add in H; cbn in H;
      repeat (case_bool_decide || case_match); simplify_eq; cbn;
      try (split_and!; (done || (by constructor) || (intros ? [= <-]; eauto with wf)
                        || eauto with wf || (apply store_ok_wg; [done|lia]))).
    all: try match goal with
      | E : chan_recv _ _ = Ok _ |- _ =>
          destruct (chan_recv_ok _ _ _ _ (heap_ok _ Hs) E) as (? & ? & ?)
      | E : chan_close _ _ = Ok _ |- _ =>
          destruct (chan_close_ok _ _ _ (heap_ok _ Hs) E) as (? & ?)
      end.
    all: split_and!; try done; eauto with wf; try (intros ? [= <-]; done).
    all: try (apply store_ok_wg; [done|lia]). }
  destruct Hstore as (? & ? & ?). split_and!; try done.
  cbn. rewrite Hu', Hc'. done.
Qed.

Lemma handler_step_ok (s : Store) (h : hlocal) (s' : Store) (h' : hlocal)
    (evs : list event) :
  handler_step s h = Step s' h' evs →
  store_ok s → thread_ok (THandler h) →
  store_ok s' ∧ thread_ok (THandler h') ∧ Forall thread_ok (forks evs).
Proof.
  intros H Hs Hu. destruct h as [r u pc]. cbn in Hu.
  assert (Hsend : ∀ c v next, is_directive v →
            send_step s (mkH r u pc) c v next = Step s' h' evs →
            store_ok s' ∧ thread_ok (THandler h') ∧ Forall thread_ok (forks evs)).
  { intros c v next Hv. unfold send_step.
    destruct (chan_send (heap s) c v) as [hp| |] eqn:E; intros; simplify_eq.
    destruct (chan_send_ok _ _ _ _ (heap_ok _ Hs) Hv E) as (? & ?).
    split_and!; cbn; eauto with wf. }
  destruct pc; cbn in H; eauto with wf;
    repeat (case_bool_decide || case_match); simplify_eq; cbn;
    split_and!; eauto with wf.
  - (* line 74 *)
    constructor; [|done]. cbn. split_and!; try done.
    split; [done|by left].
  - (* the middleware: pause *)
    match goal with H : is_Some _ |- _ => destruct H as [c Hc] end.
    by destruct (workers_ok _ Hs _ _ Hc).
  - match goal with H : is_Some _ |- _ => destruct H as [c Hc] end.
    by destruct (workers_ok _ Hs _ _ Hc).
  - match goal with H : is_Some _ |- _ => destruct H as [c Hc] end.
    by destruct (workers_ok _ Hs _ _ Hc).
Qed.

Lemma thread_step_ok (s : Store) (t : thread) (s' : Store) (t' : thread)
    (evs : list event) :
  thread_step s t = Step s' t' evs →
  store_ok s → thread_ok t →
  store_ok s' ∧ thread_ok t' ∧ Forall thread_ok (forks evs).
Proof.
  destruct t as [w|r|h|m]; cbn [thread_step].
  - destruct (task_step s w) as [s1 w1 evs1| | |] eqn:E; cbn; intros; simplify_eq.
    by eapply task_step_ok.
  - intros H Hs Hu. destruct r as [u []]; unfold rollBack_step, wg_Done, wg_Add in H;
      cbn in H; repeat case_bool_decide; cbn in H; simplify_eq; cbn;
      split_and!; try done; apply store_ok_wg; (done || lia).
  - destruct (handler_step s h) as [s1 h1 evs1| | |] eqn:E; cbn; intros; simplify_eq.
    by eapply handler_step_ok.
  - intros H Hs _. destruct m as [| |[|k todo]|k todo|c todo| | | | |]; cbn in H;
      repeat (case_bool_decide || case_match); cbn in H; simplify_eq; cbn;
      split_and!; eauto with wf.
    match goal with E : chan_send _ _ _ = Ok _ |- _ =>
      destruct (chan_send_ok _ _ _ _ (heap_ok _ Hs) is_directive_kill E) as (? & ?)
    end. eauto with wf.
Qed.

Lemma sched_ok (a : action) (g g' : Global) (tr : trace) :
  sched a g = Some (g', tr) → well_formed g → well_formed g'.
Proof.
  intros H [Hs Hp]. unfold sched in H. destruct (over g); [done|].
  destruct a as [tid|r|].
  - destruct (pool g !! tid) as [t|] eqn:Ht; [|done].
    pose proof (proj1 (Forall_lookup _ _) Hp _ _ Ht) as Hok.
    destruct (thread_step (store g) t) as [s' t' evs| | |] eqn:E; simplify_eq.
    + destruct (thread_step_ok _ _ _ _ _ E Hs Hok) as (? & ? & ?).
      split; cbn; [done|]. apply Forall_app. split; [|done].
      by apply Forall_insert.
    + destruct t; cbn; split; cbn; try done. by apply Forall_insert.
  - destruct (admissible g r); simplify_eq. split; cbn; [done|].
    apply Forall_app. split; [done|]. constructor; [|done].
    cbn. by intros ?%elem_of_nil.
  - simplify_eq. split; cbn; [by apply store_ok_sigChan|done].
Qed.

Lemma run_ok (sc : list action) :
  ∀ (g g' : Global) (tr : trace),
    run sc g = Some (g', tr) → well_formed g → well_formed g'.
Proof.
  induction sc as [|a sc IH]; intros g g' tr H Hg; cbn in H; [by simplify_eq|].
  destruct (sched a g) as [[g1 tr1]|] eqn:Hs; [|done].
  destruct (run sc g1) as [[g2 tr2]|] eqn:Hr; [|done]. simplify_eq.
  eapply IH; [done|]. by eapply sched_ok.
Qed.

Lemma init_ok : well_formed init.
Proof.
  split; cbn.
  - split; cbn; try done; try lia; intros ? ?; by rewrite lookup_empty.
  - by repeat constructor.
Qed.

Lemma reachable_ok (g : Global) : reachable g → well_formed g.
Proof. intros (sc & tr & H). eapply run_ok; [done|apply init_ok]. Qed.

(** a lifecycle request for an id that is not registered *)
Lemma serve_unknown (s : Store) (r : request) (id : string) :
  lifecycle r = Some id →
  workers s !! id = None →
  serve s r =
    (s, THandler (mkH r "" HExit), [ERespond StatusBadRequest NotFound], Finished).
Proof.
  intros Hr Hno.
  assert (Hd : bool_decide (is_Some (workers s !! id)) = false).
  { apply bool_decide_eq_false_2. rewrite Hno. by intros []. }
  destruct r; simplify_eq/=; unfold serve; solo1; rewrite Hd; by do 2 solo1.
Qed.

(** X19: In every reachable state every channel has capacity one, as line 72
    makes it, and holds at most one directive, which is one of kill,
    pause and start; and every registered id has its channel. *)
Theorem channels_hold_one_directive (g : Global) :
  reachable g →
  (∀ c ch, heap (store g) !! c = Some ch →
     cap ch = 1 ∧ length (buf ch) ≤ 1 ∧
     ∀ v, v ∈ buf ch → v = kill ∨ v = pause ∨ v = start) ∧
  (∀ id c, workers (store g) !! id = Some c → is_Some (heap (store g) !! c)).
Proof.
  intros [Hs _]%reachable_ok. split.
  - intros c ch Hc.
    destruct (proj1 (Forall_lookup _ _) (heap_ok _ Hs) _ _ Hc) as (? & ? & Hb).
    split_and!; [done|done|]. intros v Hv. by apply (proj1 (Forall_forall _ _) Hb).
  - intros id c Hc. apply lookup_lt_is_Some. by destruct (workers_ok _ Hs _ _ Hc).
Qed.

Lemma channels_hold_one_directive_witness :
  ∃ ch, heap (store (after sc_spawned)) !! 0 = Some ch ∧
        cap ch = 1 ∧ length (buf ch) ≤ 1.
Proof.
  destruct (channels_hold_one_directive (after sc_spawned)) as [H _].
  - apply reachable_after. vm_compute. eexists. reflexivity.
  - exists (mkChan 1 [] false). split; [vm_compute; reflexivity|].
    destruct (H 0 (mkChan 1 [] false)) as (H1 & H2 & _); [vm_compute; reflexivity|].
    split; [exact H1|exact H2].
Defined.

(** X20: In every reachable state the ids that are keys of [workers] or of
    [states] hold no dash, so a Pause, Resume or Delete request that names
    a task by an id with a dash in it is answered 400 by the middleware,
    and the store is left as it was. *)
Theorem registered_ids_are_dash_free (g : Global) :
  reachable g →
  (∀ id, is_Some (workers (store g) !! id) ∨ is_Some (states (store g) !! id) →
     "-"%char ∉ bytes id) ∧
  (∀ r id, lifecycle r = Some id → "-"%char ∈ bytes id →
     serve (store g) r =
       (store g, THandler (mkH r "" HExit), [ERespond StatusBadRequest NotFound],
        Finished)).
Proof.
  intros [Hs _]%reachable_ok.
  assert (Hw : ∀ id, is_Some (workers (store g) !! id) → dash_free id).
  { intros id [c Hc]. by destruct (workers_ok _ Hs _ _ Hc). }
  split.
  - intros id [H|[v Hv]]; [by apply Hw|]. by destruct (states_ok _ Hs _ _ Hv).
  - intros r id Hr Hdash. apply (serve_unknown _ _ id); [done|].
    destruct (workers (store g) !! id) as [c|] eqn:Hc; [|done].
    exfalso. apply (Hw id); [eauto|done].
Qed.

Lemma registered_ids_are_dash_free_witness :
  serve (store (after sc_created)) (ReqPause "7f3a-01") =
    (store (after sc_created), THandler (mkH (ReqPause "7f3a-01") "" HExit),
     [ERespond StatusBadRequest NotFound], Finished).
Proof.
  destruct (registered_ids_are_dash_free (after sc_created)) as [_ H].
  - apply reachable_after. vm_compute. eexists. reflexivity.
  - apply (H (ReqPause "7f3a-01") "7f3a-01"); [reflexivity|].
    vm_compute. do 4 right. left.
Defined.

(** X21: In every reachable state every worker has [taskCount] as its budget
    and a loop counter between zero and the budget, so no task runs more
    than ten iterations; the directive a worker holds in [state] and every
    cached state is one of kill, pause and start; the wait-group counter
    is not negative and [counter] is within the range of [int]. *)
Theorem workers_within_budget (g : Global) :
  reachable g →
  (∀ tid w, pool g !! tid = Some (TTask w) →
     w_count w = taskCount ∧ (0 ≤ done_iterations w ≤ taskCount)%Z ∧
     ∀ st, held (w_pc w) = Some st → st = kill ∨ st = pause ∨ st = start) ∧
  (∀ id v, states (store g) !! id = Some v → v = kill ∨ v = pause ∨ v = start) ∧
  (0 ≤ wg (store g))%Z ∧
  (- 2 ^ 63 ≤ counter (store g) < 2 ^ 63)%Z.
Proof.
  intros [Hs Hp]%reachable_ok. split_and!.
  - intros tid w Hw.
    destruct (proj1 (Forall_lookup _ _) Hp _ _ Hw) as (Hc & _ & [H0 Hb] & Hst).
    split_and!; [done| | |done]; unfold done_iterations;
      destruct Hb as [->|(? & _)]; try (unfold taskCount; lia);
      destruct (w_pc w); unfold taskCount in *; lia.
  - intros id v Hv. by destruct (states_ok _ Hs _ _ Hv).
  - apply (wg_ok _ Hs).
  - apply (counter_ok _ Hs).
  - apply (counter_ok _ Hs).
Qed.

Lemma workers_within_budget_witness :
  ∃ w, pool (after sc_created) !! 2 = Some (TTask w) ∧ w_count w = taskCount ∧
       (0 ≤ done_iterations w ≤ taskCount)%Z.
Proof.
  destruct (workers_within_budget (after sc_created)) as [H _].
  - apply reachable_after. vm_compute. eexists. reflexivity.
  - exists (mkW 0 "7f3a01" 10 0 W194).
    split; [vm_compute; reflexivity|].
    destruct (H 2 (mkW 0 "7f3a01" 10 0 W194)) as (H1 & H2 & _); [vm_compute; reflexivity|].
    split; [exact H1|exact H2].
Defined.

(** ** Handlers along any interleaving *)

Lemma thread_step_handler (s : Store) (h : hlocal) (s' : Store) (t' : thread)
    (evs : list event) :
  thread_step s (THandler h) = Step s' t' evs →
  ∃ h', t' = THandler h' ∧ handler_step s h = Step s' h' evs.
Proof.
  cbn. destruct (handler_step s h) as [s1 h1 evs1| | |]; cbn; intros; simplify_eq.
  eauto.
Qed.

Lemma texec_handler_ind (P : hlocal → list event → hlocal → Prop) :
  (∀ h, P h [] h) →
  (∀ s h s' h' evs evs' h'',
      handler_step s h = Step s' h' evs → P h' evs' h'' → P h (evs ++ evs') h'') →
  (∀ s h evs' h'',
      handler_step s h = Panicked → P (h_goto h HRecovered) evs' h'' →
      P h (EPanic :: evs') h'') →
  ∀ h evs t', texec (THandler h) evs t' → ∃ h', t' = THandler h' ∧ P h evs h'.
Proof.
  intros Hrefl Hstep Hpanic h evs t' Hex.
  remember (THandler h) as t eqn:Ht. revert h Ht.
  induction Hex as [t|s t s' t1 evs evs' t2 Hst Hex IH|s t evs' t2 Hst Hex IH];
    intros h ->.
  - eauto.
  - apply thread_step_handler in Hst as (h1 & -> & Hst).
    destruct (IH h1 eq_refl) as (h2 & -> & HP). eauto.
  - destruct (IH (h_goto h HRecovered) eq_refl) as (h2 & -> & HP).
    exists h2. split; [done|]. eapply Hpanic; [|done]. cbn in Hst.
    destruct (handler_step s h) eqn:E; cbn in Hst; simplify_eq. done.
Qed.

Lemma sent_app (l1 l2 : list event) : sent (l1 ++ l2) = sent l1 ++ sent l2.
Proof. apply omap_app. Qed.

Lemma send_step_events (s : Store) (h : hlocal) (c : option nat) (v : Z) (next : hpc)
    (s' : Store) (h' : hlocal) (evs : list event) :
  send_step s h c v next = Step s' h' evs →
  h' = h_goto h next ∧ evs = [ESend c v].
Proof.
  unfold send_step. destruct (chan_send (heap s) c v); intros; by simplify_eq.
Qed.

(** one step of a handler: what it answers and what it sends *)
Lemma handler_step_events (s : Store) (h : hlocal) (s' : Store) (h' : hlocal)
    (evs : list event) :
  handler_step s h = Step s' h' evs →
  h_req h' = h_req h ∧
  Nat.b2n (answered (h_pc h)) + count is_respond evs = Nat.b2n (answered (h_pc h')) ∧
  count is_send evs + may_send (h_pc h') ≤ may_send (h_pc h) ∧
  (serves (h_req h) (h_pc h) = true →
   serves (h_req h) (h_pc h') = true ∧
   Forall (λ v, v = directive (h_req h)) (sent evs)).
Proof.
  intros H. destruct h as [r u pc].
  destruct pc; cbn in H;
    try (apply send_step_events in H as [-> ->]);
    repeat (case_bool_decide || case_match); simplify_eq; cbn;
    unfold answered; cbn; count_simpl; split_and!; try done; try lia;
    intros Hr; destruct r; try done; split; try done; by repeat constructor.
Qed.

Lemma handler_step_panicked (s : Store) (h : hlocal) :
  handler_step s h = Panicked →
  answered (h_pc h) = false ∧ 0 < may_send (h_pc h) ∧
  (serves (h_req h) (h_pc h) = true → serves (h_req h) HRecovered = true).
Proof.
  destruct h as [r u pc]. destruct pc; cbn; try done; intros _; split_and!;
    try done; try lia; by destruct r.
Qed.

Lemma texec_handler_facts (h : hlocal) (evs : list event) (t' : thread) :
  texec (THandler h) evs t' →
  ∃ h', t' = THandler h' ∧
    h_req h' = h_req h ∧
    Nat.b2n (answered (h_pc h)) + count is_respond evs = Nat.b2n (answered (h_pc h')) ∧
    count is_send evs + may_send (h_pc h') ≤ may_send (h_pc h) ∧
    (serves (h_req h) (h_pc h) = true →
     serves (h_req h) (h_pc h') = true ∧
     Forall (λ v, v = directive (h_req h)) (sent evs)).
Proof.
  revert h evs t'. apply texec_handler_ind.
  - intros h. rewrite !count_nil. split_and!; try done; lia.
  - intros s h s1 h1 evs evs1 h2 Hst (Hr & Ha & Hs & Hd).
    destruct (handler_step_events _ _ _ _ _ Hst) as (Hr1 & Ha1 & Hs1 & Hd1).
    rewrite !count_app, sent_app. split_and!; [congruence|lia|lia|].
    intros Hok. destruct (Hd1 Hok) as [Hok1 Hf1]. rewrite Hr1 in Hd.
    destruct (Hd Hok1) as [Hok2 Hf2]. split; [done|]. by apply Forall_app.
  - intros s h evs1 h2 Hst (Hr & Ha & Hs & Hd).
    destruct (handler_step_panicked _ _ Hst) as (Hno & Hm & Hok).
    rewrite !count_cons. cbn in *. rewrite Hno. cbn.
    split_and!; [done|done|lia|]. intros Hs0. by apply Hd, Hok.
Qed.

(** X22: In every interleaving a request is answered at most once, and
    exactly once when its handler has returned; its handler sends at most
    one directive, and only the one of its route: start for [CreateTask]
    and [ResumeTask], pause for [PauseTask], kill for [DeleteTask]. A
    handler that panicked has not answered. *)
Theorem handler_answers_once (sc : list action) (g g' : Global) (tr : trace)
    (tid : nat) (r : request) :
  run sc g = Some (g', tr) →
  pool g !! tid = Some (THandler (mkH r "" (route r))) →
  ∃ h', pool g' !! tid = Some (THandler h') ∧ h_req h' = r ∧
    count is_respond (mine tid tr) ≤ 1 ∧
    (count is_respond (mine tid tr) = 1 ↔ h_pc h' = HExit) ∧
    count is_send (mine tid tr) ≤ 1 ∧
    (∀ v, v ∈ sent (mine tid tr) → v = directive r) ∧
    (h_pc h' = HRecovered → count is_respond (mine tid tr) = 0).
Proof.
  intros Hrun Hp.
  destruct (run_texec _ _ _ _ _ _ Hrun Hp) as (t' & Hp' & Hex).
  destruct (texec_handler_facts _ _ _ Hex) as (h' & -> & Hr & Ha & Hs & Hd).
  cbn in Hr, Ha, Hs, Hd.
  assert (Ha0 : answered (route r) = false) by (by destruct r).
  assert (Hs0 : may_send (route r) = 1) by (by destruct r).
  rewrite Ha0 in Ha. rewrite Hs0 in Hs. cbn in Ha.
  exists h'. split_and!; [done|done| | |lia| |].
  - rewrite Ha. apply b2n_le_1.
  - rewrite Ha, b2n_1. unfold answered. by rewrite bool_decide_eq_true.
  - destruct Hd as [_ Hd]; [by destruct r|]. intros v Hv.
    by apply (proj1 (Forall_forall _ _) Hd).
  - intros Hpc. rewrite Ha, Hpc. done.
Qed.

Lemma handler_answers_once_witness :
  let g := (run_from [Arrive (ReqPause "7f3a01")] (after sc_created)).1 in
  let r := run_from (steps 7 3) g in
  ∃ h', pool r.1 !! 3 = Some (THandler h') ∧
        count is_respond (mine 3 r.2) ≤ 1 ∧ count is_send (mine 3 r.2) ≤ 1.
Proof.
  intros g r.
  destruct (handler_answers_once (steps 7 3) g r.1 r.2 3 (ReqPause "7f3a01"))
    as (h' & Hp & _ & Ha & _ & Hs & _).
  - vm_compute. reflexivity.
  - vm_compute. reflexivity.
  - exists h'. split; [exact Hp|]. split; [exact Ha|exact Hs].
Defined.

(** ** No worker and no rollback panics *)

Lemma sum_list_with_insert {A} (f : A → nat) (l : list A) (i : nat) (x y : A) :
  l !! i = Some x →
  sum_list_with f (<[i := y]> l) + f x = sum_list_with f l + f y.
Proof.
  revert i. induction l as [|a l IH]; intros [|i] H; simplify_eq/=; [lia|].
  specialize (IH i H). lia.
Qed.

Lemma omap_insert_same {A B} (f : A → option B) (l : list A) (i : nat) (x y : A) :
  l !! i = Some x → f y = f x → omap f (<[i := y]> l) = omap f l.
Proof.
  revert i. induction l as [|a l IH]; intros [|i] H Hf; simplify_eq/=.
  - by rewrite Hf.
  - by rewrite (IH i).
Qed.

Lemma omap_insert_drop {A B} (f : A → option B) (l : list A) (i : nat) (x y : A)
    (u : B) :
  l !! i = Some x → f x = Some u → f y = None →
  omap f l ≡ₚ u :: omap f (<[i := y]> l).
Proof.
  revert i. induction l as [|a l IH]; intros [|i] H Hx Hy; simplify_eq/=.
  - by rewrite Hx, Hy.
  - specialize (IH i H Hx Hy). destruct (f a); [|done].
    rewrite IH. apply Permutation_swap.
Qed.

Lemma NoDup_omap_lookup {A B} (f : A → option B) (l : list A) (i j : nat) (x y : A)
    (u v : B) :
  NoDup (omap f l) →
  l !! i = Some x → l !! j = Some y → i ≠ j →
  f x = Some u → f y = Some v → u ≠ v.
Proof.
  revert i j. induction l as [|a l IH]; intros i j Hnd Hi Hj Hne Hx Hy; [done|].
  assert (Hin : ∀ k z w, l !! k = Some z → f z = Some w → w ∈ omap f l).
  { intros k z w Hk Hz. apply list_elem_of_omap. exists z. split; [|done].
    by eapply list_elem_of_lookup_2. }
  cbn in Hnd. destruct i as [|i], j as [|j]; simplify_eq/=.
  - rewrite Hx in Hnd. apply NoDup_cons in Hnd as [Hnot _]. intros ->.
    apply Hnot. by eapply Hin.
  - rewrite Hy in Hnd. apply NoDup_cons in Hnd as [Hnot _]. intros ->.
    apply Hnot. by eapply Hin.
  - apply (IH i j); try done; [|congruence].
    destruct (f a); [by apply NoDup_cons in Hnd as [_ ?]|done].
Qed.

Lemma registered_open_same (s s' : Store) (u : string) :
  workers s' = workers s → heap s' = heap s →
  registered_open s u → registered_open s' u.
Proof. intros Hw Hh (c & ch & ? & ? & ?). exists c, ch. by rewrite Hw, Hh. Qed.

Lemma registered_open_heap (s : Store) (h' : list chan) (u : string) :
  (∀ c ch, heap s !! c = Some ch → closed ch = false →
           ∃ ch', h' !! c = Some ch' ∧ closed ch' = false) →
  registered_open s u → registered_open (set_heap h' s) u.
Proof.
  intros Hh (c & ch & Hw & Hc & Ho). destruct (Hh c ch Hc Ho) as (ch' & ? & ?).
  by exists c, ch'.
Qed.

Lemma chan_send_keeps_open (h : list chan) (co : option nat) (v : Z) (h' : list chan) :
  chan_send h co v = Ok h' →
  ∀ c ch, h !! c = Some ch → closed ch = false →
          ∃ ch', h' !! c = Some ch' ∧ closed ch' = false.
Proof.
  unfold chan_send, deref. destruct co as [r|]; [|done].
  destruct (h !! r) as [ch0|] eqn:Hr; [|done].
  destruct (closed ch0) eqn:Hcl; [done|]. case_bool_decide; [|done].
  intros [= <-] c ch Hc Ho. destruct (decide (c = r)) as [->|Hne].
  - eexists. split; [apply list_lookup_insert_eq; by eapply lookup_lt_Some|done].
  - exists ch. by rewrite list_lookup_insert_ne.
Qed.

Lemma chan_recv_keeps_open (h : list chan) (co : option nat) (v : Z) (h' : list chan) :
  chan_recv h co = Ok (v, h') →
  ∀ c ch, h !! c = Some ch → closed ch = false →
          ∃ ch', h' !! c = Some ch' ∧ closed ch' = false.
Proof.
  unfold chan_recv, deref. destruct co as [r|]; [|done].
  destruct (h !! r) as [ch0|] eqn:Hr; [|done].
  destruct (buf ch0) as [|v0 rest].
  - destruct (closed ch0); [|done]. intros [= <- <-]. eauto.
  - intros [= <- <-] c ch Hc Ho. destruct (decide (c = r)) as [->|Hne].
    + eexists. split; [apply list_lookup_insert_eq; by eapply lookup_lt_Some|].
      cbn. congruence.
    + exists ch. by rewrite list_lookup_insert_ne.
Qed.

Lemma chan_close_other (h : list chan) (co : option nat) (h' : list chan) :
  chan_close h co = Ok h' →
  ∃ c, co = Some c ∧ ∀ c2, c2 ≠ c → h' !! c2 = h !! c2.
Proof.
  unfold chan_close, deref. destruct co as [r|]; [|done].
  destruct (h !! r) as [ch0|] eqn:Hr; [|done].
  destruct (closed ch0); [done|]. intros [= <-]. exists r. split; [done|].
  intros c2 Hne. by rewrite list_lookup_insert_ne.
Qed.

(** the wait group moves with the goroutine that holds it *)
Lemma step_holds (s : Store) (t : thread) (s' : Store) (t' : thread)
    (evs : list event) :
  thread_step s t = Step s' t' evs →
  (wg s' + Z.of_nat (holds t) = wg s + Z.of_nat (holds t'))%Z ∧
  sum_list_with holds (forks evs) = 0.
Proof.
  destruct t as [w|r|h|m]; cbn [thread_step].
  - destruct w as [n u cnt i pc].
    destruct pc; unfold task_step, wg_Done, wg_Add; cbn;
      repeat (case_bool_decide || case_match); cbn; intros; simplify_eq; cbn;
      split; (done || lia).
  - destruct r as [u []]; unfold rollBack_step, wg_Done, wg_Add; cbn;
      repeat case_bool_decide; cbn; intros; simplify_eq; cbn; split; (done || lia).
  - destruct h as [r u pc].
    destruct pc; cbn; unfold send_step;
      repeat (case_bool_decide || case_match); cbn; intros; simplify_eq; cbn;
      split; (done || lia).
  - destruct m as [| |[|k todo]|k todo|c todo| | | | |]; cbn;
      repeat (case_bool_decide || case_match); cbn; intros; simplify_eq; cbn;
      split; (done || lia).
Qed.

(** the goroutines a step starts: none, the worker of line 74, or the
    rollback of line 183 *)
Lemma step_forks (s : Store) (t : thread) (s' : Store) (t' : thread)
    (evs : list event) :
  thread_step s t = Step s' t' evs →
  forks evs = [] ∨
  (∃ h, t = THandler h ∧ h_pc h = C74 ∧ s' = s ∧
        forks evs = [TTask (mkW (counter s) (h_uuid h) taskCount 0 W166)]) ∨
  (∃ w, t = TTask w ∧ forks evs = [TRollback (mkR (w_uuid w) R201)]).
Proof.
  destruct t as [w|r|h|m]; cbn [thread_step].
  - destruct w as [n u cnt i pc].
    destruct pc; unfold task_step, wg_Done, wg_Add; cbn;
      repeat (case_bool_decide || case_match); cbn; intros; simplify_eq; cbn;
      eauto.
  - destruct r as [u []]; unfold rollBack_step, wg_Done, wg_Add; cbn;
      repeat case_bool_decide; cbn; intros; simplify_eq; cbn; eauto.
  - destruct h as [r u pc].
    destruct pc; cbn; unfold send_step;
      repeat (case_bool_decide || case_match); cbn; intros; simplify_eq; cbn;
      eauto 10.
  - destruct m as [| |[|k todo]|k todo|c todo| | | | |]; cbn;
      repeat (case_bool_decide || case_match); cbn; intros; simplify_eq; cbn;
      eauto.
Qed.

Lemma handler_step_route (s : Store) (h : hlocal) (s' : Store) (h' : hlocal)
    (evs : list event) :
  handler_step s h = Step s' h' evs →
  on_route (THandler h) → on_route (THandler h').
Proof.
  intros H [Hs Hid]. destruct h as [r u pc]. cbn in Hs, Hid.
  destruct pc, r; try done; cbn in H;
    try (apply send_step_events in H as [-> ->]);
    repeat (case_bool_decide || case_match); simplify_eq; cbn;
    (split; [done|]); intros raw' Hr ? ?; simplify_eq;
    try done; try (by apply Hid).
Qed.

Lemma step_route (s : Store) (t : thread) (s' : Store) (t' : thread)
    (evs : list event) :
  thread_step s t = Step s' t' evs →
  on_route t → on_route t' ∧ Forall on_route (forks evs).
Proof.
  intros H Hr. split.
  - pose proof (thread_step_kind _ _ _ _ _ H) as Hk.
    destruct t as [w|r|h|m], t' as [w'|r'|h'|m']; try done.
    apply thread_step_handler in H as (h1 & [= <-] & H).
    by eapply handler_step_route.
  - destruct (step_forks _ _ _ _ _ H) as [->|[(h & -> & _ & _ & ->)|(w & -> & ->)]];
      by repeat constructor.
Qed.

Lemma step_claim (s : Store) (t : thread) (s' : Store) (t' : thread)
    (evs : list event) :
  thread_step s t = Step s' t' evs →
  on_route t →
  (claim t' = claim t ∧ omap claim (forks evs) = []) ∨
  (claim t' = None ∧ ∃ u, claim t = Some u ∧ omap claim (forks evs) = [u]).
Proof.
  intros H Hr. destruct t as [w|r|h|m].
  - apply thread_step_task in H as (w' & -> & H).
    pose proof (task_step_locals _ _ _ _ _ H) as (_ & Hu & _). left. cbn.
    rewrite Hu. split; [done|].
    destruct w as [n u cnt i pc].
    destruct pc; unfold task_step, wg_Done, wg_Add in H; cbn in H;
      repeat (case_bool_decide || case_match); simplify_eq; done.
  - left. destruct r as [u []]; unfold thread_step, rollBack_step, wg_Done, wg_Add in H;
      cbn in H; repeat case_bool_decide; cbn in H; simplify_eq; done.
  - apply thread_step_handler in H as (h' & -> & H).
    destruct Hr as [Hs Hid]. destruct h as [r u pc]. cbn in Hs, Hid.
    destruct pc, r; try done; cbn in H;
      try (apply send_step_events in H as [-> ->]);
      repeat (case_bool_decide || case_match); simplify_eq; cbn;
      try (by left).
    right. split; [done|]. eexists. split; [done|]. by rewrite (Hid raw).
  - left. destruct m as [| |[|k todo]|k todo|c todo| | | | |];
      unfold thread_step in H; cbn in H;
      repeat (case_bool_decide || case_match); cbn in H; simplify_eq; done.
Qed.

Lemma owns_claim (t : thread) (u : string) :
  on_route t → owns t = Some u → claim t = Some u.
Proof.
  destruct t as [w|r|h|m]; try done.
  - destruct w as [n u' cnt i pc]. by destruct pc; cbn; intros _ [= <-].
  - destruct h as [r u' pc]. intros [Hs Hid]. cbn in *.
    destruct pc, r; try done; intros [= <-]; by rewrite (Hid raw).
Qed.

Ltac keep_open Hro :=
  first
    [ exact Hro
    | by apply (registered_open_same _ _ _ eq_refl eq_refl Hro)
    | match goal with
      | E : chan_recv _ _ = Ok _ |- _ =>
          apply registered_open_heap; [apply (chan_recv_keeps_open _ _ _ _ E)|exact Hro]
      | E : chan_send _ _ _ = Ok _ |- _ =>
          apply registered_open_heap; [apply (chan_send_keeps_open _ _ _ _ E)|exact Hro]
      end ].

(** a step leaves the entry of every other id registered and open *)
Lemma step_keeps_other (s : Store) (t : thread) (s' : Store) (t' : thread)
    (evs : list event) (u2 : string) :
  thread_step s t = Step s' t' evs →
  on_route t → claim t ≠ Some u2 →
  one_channel_each s →
  registered_open s u2 → registered_open s' u2.
Proof.
  intros H Hr Hne Hinj Hro. destruct t as [w|r|h|m].
  - apply thread_step_task in H as (w' & -> & H).
    destruct w as [n u cnt i pc]. cbn in Hne.
    destruct pc; unfold task_step, wg_Done, wg_Add in H; cbn in H;
      repeat (case_bool_decide || case_match); simplify_eq; try keep_open Hro.
    + (* line 128 *)
      match goal with E : chan_close _ _ = Ok _ |- _ =>
        destruct (chan_close_other _ _ _ E) as (c & Hc & Hoth) end.
      destruct Hro as (c2 & ch2 & Hw2 & Hc2 & Ho2). exists c2, ch2.
      split_and!; [done| |done]. cbn. rewrite Hoth; [done|].
      intros ->. apply Hne. f_equal. by apply (Hinj u u2 c).
    + (* line 129 *)
      destruct Hro as (c2 & ch2 & Hw2 & Hc2 & Ho2). exists c2, ch2.
      split_and!; [|done..]. cbn. rewrite lookup_delete_ne; [done|congruence].
  - destruct r as [u []]; unfold thread_step, rollBack_step, wg_Done, wg_Add in H;
      cbn in H; repeat case_bool_decide; cbn in H; simplify_eq; keep_open Hro.
  - apply thread_step_handler in H as (h' & -> & H).
    destruct Hr as [Hs Hid]. destruct h as [r u pc]. cbn in Hs, Hid, Hne.
    destruct pc, r; try done; cbn in H; unfold send_step in H;
      repeat (case_bool_decide || case_match); simplify_eq; try keep_open Hro.
    (* line 72 *)
    destruct Hro as (c2 & ch2 & Hw2 & Hc2 & Ho2). exists c2, ch2.
    split_and!; [| |done]; cbn.
    + rewrite lookup_insert_ne; [done|]. rewrite (Hid raw) by done. congruence.
    + rewrite lookup_app_l; [done|]. by eapply lookup_lt_Some.
  - destruct m as [| |[|k todo]|k todo|c todo| | | | |];
      unfold thread_step in H; cbn in H;
      repeat (case_bool_decide || case_match); cbn in H; simplify_eq;
      keep_open Hro.
Qed.

(** a step leaves the entry the goroutine itself relies on registered
    and open *)
Lemma step_keeps_own (s : Store) (t : thread) (s' : Store) (t' : thread)
    (evs : list event) (u : string) :
  thread_step s t = Step s' t' evs →
  owns t' = Some u →
  (owns t = Some u → registered_open s u) →
  registered_open s' u.
Proof.
  intros H Ho Hro. destruct t as [w|r|h|m].
  - apply thread_step_task in H as (w' & -> & H).
    destruct w as [n u0 cnt i pc].
    destruct pc; unfold task_step, wg_Done, wg_Add in H; cbn in H;
      repeat (case_bool_decide || case_match); simplify_eq; cbn in Ho;
      simplify_eq; specialize (Hro eq_refl); keep_open Hro.
  - destruct r as [u0 []]; unfold thread_step, rollBack_step, wg_Done, wg_Add in H;
      cbn in H; repeat case_bool_decide; cbn in H; simplify_eq; done.
  - apply thread_step_handler in H as (h' & -> & H).
    destruct h as [r u0 pc].
    destruct pc; cbn in H; unfold send_step in H;
      repeat (case_bool_decide || case_match); simplify_eq; cbn in Ho;
      simplify_eq.
    + (* line 72 *)
      exists (length (heap s)), (make_chan 1). split_and!; cbn; [|..|done].
      * by rewrite lookup_insert_eq.
      * by rewrite lookup_app_r, Nat.sub_diag.
    + (* line 73 *)
      specialize (Hro eq_refl). keep_open Hro.
  - destruct m as [| |[|k todo]|k todo|c todo| | | | |];
      unfold thread_step in H; cbn in H;
      repeat (case_bool_decide || case_match); cbn in H; simplify_eq; done.
Qed.

Lemma step_inj (s : Store) (t : thread) (s' : Store) (t' : thread)
    (evs : list event) :
  thread_step s t = Step s' t' evs →
  (∀ id c, workers s !! id = Some c → c < length (heap s)) →
  one_channel_each s → one_channel_each s'.
Proof.
  intros H Hlt Hinj. unfold one_channel_each in *. destruct t as [w|r|h|m].
  - apply thread_step_task in H as (w' & -> & H).
    destruct w as [n u cnt i pc].
    destruct pc; unfold task_step, wg_Done, wg_Add in H; cbn in H;
      repeat (case_bool_decide || case_match); simplify_eq; cbn; try done.
    intros u1 u2 c [_ H1]%lookup_delete_Some [_ H2]%lookup_delete_Some. eauto.
  - destruct r as [u []]; unfold thread_step, rollBack_step, wg_Done, wg_Add in H;
      cbn in H; repeat case_bool_decide; cbn in H; simplify_eq; done.
  - apply thread_step_handler in H as (h' & -> & H).
    destruct h as [r u pc].
    destruct pc; cbn in H; unfold send_step in H;
      repeat (case_bool_decide || case_match); simplify_eq; cbn; try done.
    intros u1 u2 c [[<- <-]|[_ H1]]%lookup_insert_Some
                   [[<- Hc]|[_ H2]]%lookup_insert_Some; try done.
    + apply Hlt in H2. lia.
    + apply Hlt in H1. lia.
    + eauto.
  - destruct m as [| |[|k todo]|k todo|c todo| | | | |];
      unfold thread_step in H; cbn in H;
      repeat (case_bool_decide || case_match); cbn in H; simplify_eq; done.
Qed.

Lemma handler_panicked_free (s : Store) (h : hlocal) :
  handler_step s h = Panicked →
  claim (THandler h) = None ∧ owns (THandler h) = None ∧
  (on_route (THandler h) → on_route (THandler (h_goto h HRecovered))).
Proof.
  destruct h as [r u pc]. destruct pc, r; cbn; repeat case_bool_decide; try done;
    intros _; (split_and!; [done|done|]); intros [Hs Hid];
    (split; [done|]); intros raw' Hr _ _; by apply Hid.
Qed.

Lemma sched_safe (a : action) (g g' : Global) (tr : trace) :
  sched a g = Some (g', tr) → safe g → safe g'.
Proof.
  intros H Hg. pose proof (sched_ok _ _ _ _ H (safe_wf _ Hg)) as Hwf.
  destruct Hg as [Hwf0 Hwg Hnd Hgen Hrt Hown Hinj].
  unfold sched in H. destruct (over g); [done|]. destruct a as [tid|r|].
  - destruct (pool g !! tid) as [t|] eqn:Ht; [|done].
    pose proof (proj1 (Forall_lookup _ _) Hrt _ _ Ht) as Hrt_t.
    destruct (thread_step (store g) t) as [s' t' evs| | |] eqn:E; simplify_eq.
    + destruct (step_holds _ _ _ _ _ E) as [Hh Hf0].
      destruct (step_route _ _ _ _ _ E Hrt_t) as [Hr' Hrf].
      pose proof (step_claim _ _ _ _ _ E Hrt_t) as Hcl.
      assert (Hperm : omap claim (<[tid := t']> (pool g) ++ forks evs)
                      ≡ₚ omap claim (pool g)).
      { rewrite omap_app. destruct Hcl as [[Hc Hf]|(Hc & u & Hcu & Hf)]; rewrite Hf.
        - by rewrite app_nil_r, (omap_insert_same _ _ _ _ _ Ht Hc).
        - rewrite (omap_insert_drop claim _ _ _ t' u Ht Hcu Hc).
          by rewrite <- Permutation_cons_append. }
      split; cbn.
      * done.
      * rewrite sum_list_with_app, Hf0.
        pose proof (sum_list_with_insert holds _ _ _ t' Ht). lia.
      * by rewrite Hperm.
      * intros u. rewrite Hperm. apply Hgen.
      * apply Forall_app. split; [by apply Forall_insert|done].
      * intros tid2 t2 u Hl Ho.
        apply lookup_app_Some in Hl as [Hl|[_ Hl]].
        -- apply list_lookup_insert_Some in Hl as [(<- & <- & _)|[Hne Hl]].
           ++ eapply step_keeps_own; [done|done|]. intros Ho'. by eapply Hown.
           ++ eapply step_keeps_other; [done|done| |done|by eapply Hown].
              intros Hc. pose proof (proj1 (Forall_lookup _ _) Hrt _ _ Hl) as Hrt2.
              by apply (NoDup_omap_lookup claim _ _ _ _ _ _ _ Hnd Ht Hl Hne Hc
                          (owns_claim _ _ Hrt2 Ho)).
        -- destruct (step_forks _ _ _ _ _ E)
             as [Hf|[(h & -> & Hpc & -> & Hf)|(w & -> & Hf)]];
             rewrite Hf in Hl.
           ++ by rewrite lookup_nil in Hl.
           ++ apply list_lookup_singleton_Some in Hl as [_ <-]. cbn in Ho.
              simplify_eq. apply (Hown tid (THandler h)); [done|]. cbn.
              by rewrite Hpc.
           ++ apply list_lookup_singleton_Some in Hl as [_ <-]. done.
      * apply (step_inj _ _ _ _ _ E); [|done].
        intros id c Hc. by destruct (workers_ok _ (proj1 Hwf0) _ _ Hc).
    + destruct t as [w|r|h|m]; cbn in *; try (by split).
      destruct (handler_step (store g) h) eqn:Eh; cbn in E; simplify_eq.
      destruct (handler_panicked_free _ _ Eh) as (Hc & Ho & Hr).
      assert (Hc' : claim (THandler (h_goto h HRecovered)) = claim (THandler h)).
      { rewrite Hc. cbn. by destruct (h_req h). }
      split; cbn; try done.
      * pose proof (sum_list_with_insert holds _ _ _
                      (THandler (h_goto h HRecovered)) Ht) as Hsum.
        cbn in Hsum. rewrite Hwg. lia.
      * by rewrite (omap_insert_same claim _ _ _ _ Ht Hc').
      * intros u. rewrite (omap_insert_same claim _ _ _ _ Ht Hc'). apply Hgen.
      * apply Forall_insert; [done|]. by apply Hr.
      * intros tid2 t2 u [(<- & <- & _)|[Hne Hl]]%list_lookup_insert_Some Ho2;
          [done|]. by eapply Hown.
  - destruct (admissible g r) eqn:Had; simplify_eq.
    assert (Hnew : omap claim [THandler (mkH r "" (route r))] =
                   match r with
                   | ReqCreate raw => [ReplaceAll raw "-"%char ""]
                   | _ => []
                   end) by (by destruct r).
    split; cbn.
    + done.
    + rewrite sum_list_with_app. cbn. rewrite Hwg. lia.
    + rewrite omap_app, Hnew. destruct r as [raw| | |]; rewrite ?app_nil_r; try done.
      rewrite <- Permutation_cons_append. apply NoDup_cons. split; [|done].
      cbn in Had. apply bool_decide_eq_true in Had. intros Hin. by apply Had, Hgen.
    + intros u. rewrite omap_app, Hnew, elem_of_app.
      destruct r as [raw| | |]; cbn; rewrite ?elem_of_nil;
        intros [Hin|Hin]; try done; try (by apply Hgen).
      * right. by apply Hgen.
      * apply list_elem_of_singleton in Hin as ->. by left.
    + apply Forall_app. split; [done|]. constructor; [|done]. by destruct r.
    + intros tid2 t2 u [Hl|[_ Hl]]%lookup_app_Some Ho; [by eapply Hown|].
      apply list_lookup_singleton_Some in Hl as [_ <-]. by destruct r.
    + done.
  - simplify_eq. by split.
Qed.

Lemma run_safe (sc : list action) :
  ∀ (g g' : Global) (tr : trace),
    run sc g = Some (g', tr) → safe g → safe g'.
Proof.
  induction sc as [|a sc IH]; intros g g' tr H Hg; cbn in H; [by simplify_eq|].
  destruct (sched a g) as [[g1 tr1]|] eqn:Hs; [|done].
  destruct (run sc g1) as [[g2 tr2]|] eqn:Hr; [|done]. simplify_eq.
  eapply IH; [done|]. by eapply sched_safe.
Qed.

Lemma init_safe : safe init.
Proof.
  split; cbn.
  - apply init_ok.
  - done.
  - apply NoDup_nil_2.
  - by intros u ?%elem_of_nil.
  - by repeat constructor.
  - intros [|[|tid]] t u; cbn; intros; by simplify_eq.
  - intros u1 u2 c H. cbn in H. by rewrite lookup_empty in H.
Qed.

Lemma reachable_safe (g : Global) : reachable g → safe g.
Proof. intros (sc & tr & H). eapply run_safe; [done|apply init_safe]. Qed.

(** a receive never panics *)
Lemma chan_recv_no_panic (h : list chan) (c : option nat) : chan_recv h c ≠ Panic.
Proof.
  unfold chan_recv, deref. destruct c as [r|]; [|done].
  destruct (h !! r) as [ch|]; [|done].
  destruct (buf ch); [|done]. by destruct (closed ch).
Qed.

Lemma sum_list_with_lookup {A} (f : A → nat) (l : list A) (i : nat) (x : A) :
  l !! i = Some x → f x ≤ sum_list_with f l.
Proof.
  revert i. induction l as [|a l IH]; intros [|i] H; simplify_eq/=; [lia|].
  specialize (IH i H). lia.
Qed.

(** X23: In every reachable state no worker and no rollback is about to
    panic: [wg.Done] at lines 127 and 202 finds a positive counter, and
    [close] at line 128 finds the worker's own channel registered and
    open, so [closeRoutine] neither closes a nil channel nor closes a
    channel twice. *)
Theorem workers_never_panic (g : Global) (tid : nat) (t : thread) :
  reachable g →
  pool g !! tid = Some t →
  (kind t = 0 ∨ kind t = 1) →
  thread_step (store g) t ≠ Panicked ∧
  (∀ w r, t = TTask w → w_pc w = W127 r → (1 ≤ wg (store g))%Z) ∧
  (∀ w r, t = TTask w → w_pc w = W128 r → registered_open (store g) (w_uuid w)).
Proof.
  intros Hg%reachable_safe Ht Hk.
  destruct Hg as [[Hs _] Hwg _ _ _ Hown _].
  pose proof (sum_list_with_lookup holds _ _ _ Ht) as Hh.
  pose proof (wg_ok _ Hs) as H0.
  assert (H127 : ∀ w r, t = TTask w → w_pc w = W127 r → (1 ≤ wg (store g))%Z).
  { intros [n u cnt i pc] r -> Hpc. cbn in Hpc. subst pc. cbn in Hh. lia. }
  assert (H128 : ∀ w r, t = TTask w → w_pc w = W128 r →
                        registered_open (store g) (w_uuid w)).
  { intros [n u cnt i pc] r -> Hpc. cbn in Hpc. subst pc.
    by apply (Hown tid (TTask (mkW n u cnt i (W128 r)))). }
  split_and!; [|done|done].
  destruct t as [w|r|h|m]; [| |by destruct Hk..].
  - destruct w as [n u cnt i pc]. cbn [thread_step].
    destruct pc; unfold task_step; cbn; try done;
      try (by repeat (case_bool_decide || case_match)).
    + rewrite wg_Add_one by done. by cbn.
    + pose proof (chan_recv_no_panic (heap (store g)) c).
      by destruct (chan_recv (heap (store g)) c) as [[]| |].
    + pose proof (chan_recv_no_panic (heap (store g)) c).
      by destruct (chan_recv (heap (store g)) c) as [[]| |].
    + rewrite wg_Done_pos; [by cbn|]. by eapply H127.
    + destruct (H128 _ r eq_refl eq_refl) as (c & ch & Hw & Hc & Ho). cbn in Hw.
      unfold worker_of. rewrite Hw, (chan_close_open _ _ _ Hc Ho). by cbn.
  - destruct r as [u []]; cbn [thread_step]; unfold rollBack_step; cbn; try done.
    + rewrite wg_Add_one by done. by cbn.
    + cbn in Hh. rewrite wg_Done_pos; [by cbn|lia].
Qed.

Lemma workers_never_panic_witness :
  let g := (run_from sc_natural_end (after sc_spawned)).1 in
  thread_step (store g) (TTask (mkW 0 "7f3a01" 10 10 (W127 RetEnd))) ≠ Panicked.
Proof.
  intros g.
  destruct (workers_never_panic g 2 (TTask (mkW 0 "7f3a01" 10 10 (W127 RetEnd))))
    as [H _].
  - exists (sc_spawned ++ sc_natural_end).
    eexists. vm_compute. reflexivity.
  - vm_compute. reflexivity.
  - left. reflexivity.
  - exact H.
Defined.

(** X24: In every reachable state the wait-group counter is the number of
    goroutines between their [wg.Add] and their [wg.Done]: the workers
    from line 170 to line 127 and the rollbacks from line 205 to
    line 202.  So when the counter is zero no goroutine is between the
    two, and a worker or rollback that has been started and has not run
    its [wg.Add] is not counted. *)
Theorem wait_group_counts_holders (g : Global) :
  reachable g →
  wg (store g) = Z.of_nat (sum_list_with holds (pool g)) ∧
  (wg (store g) = 0%Z → ∀ tid t, pool g !! tid = Some t → holds t = 0).
Proof.
  intros Hg%reachable_safe. pose proof (safe_wg _ Hg) as Hwg.
  split; [done|].
  intros H0 tid t Ht. pose proof (sum_list_with_lookup holds _ _ _ Ht). lia.
Qed.

Lemma wait_group_counts_holders_witness :
  wg (store (after sc_unwaited)) = 0%Z ∧
  holds (TRollback (mkR "7f3a01" R201)) = 0.
Proof.
  destruct (wait_group_counts_holders (after sc_unwaited)) as (H1 & H2).
  - apply reachable_after. vm_compute. eexists. reflexivity.
  - assert (H0 : wg (store (after sc_unwaited)) = 0%Z) by (vm_compute; reflexivity).
    split; [exact H0|].
    apply (H2 H0 3). vm_compute. reflexivity.
Defined.

(** X25: In every reachable state no two workers have the same id, no two
    registered ids share a channel, and every worker's id is one that
    [uuid.New] has issued. *)
Theorem task_ids_are_unique (g : Global) :
  reachable g →
  (∀ tid1 tid2 w1 w2,
     tid1 ≠ tid2 →
     pool g !! tid1 = Some (TTask w1) → pool g !! tid2 = Some (TTask w2) →
     w_uuid w1 ≠ w_uuid w2) ∧
  (∀ u1 u2 c,
     workers (store g) !! u1 = Some c → workers (store g) !! u2 = Some c → u1 = u2) ∧
  (∀ tid w, pool g !! tid = Some (TTask w) → w_uuid w ∈ gen g).
Proof.
  intros Hg%reachable_safe. split_and!.
  - intros tid1 tid2 w1 w2 Hne H1 H2.
    by apply (NoDup_omap_lookup claim _ _ _ _ _ _ _ (safe_claims _ Hg) H1 H2 Hne).
  - apply (safe_inj _ Hg).
  - intros tid w Hw. apply (safe_gen _ Hg), list_elem_of_omap.
    exists (TTask w). split; [by eapply list_elem_of_lookup_2|done].
Qed.

Lemma task_ids_are_unique_witness :
  "7f3a01" ∈ gen (after sc_created).
Proof.
  destruct (task_ids_are_unique (after sc_created)) as (_ & _ & H).
  - apply reachable_after. vm_compute. eexists. reflexivity.
  - apply (H 2 (mkW 0 "7f3a01" 10 0 W194)). vm_compute. reflexivity.
Defined.

(** ** The registry holds the live tasks *)

(** what a step does to an entry of [workers] *)
Lemma step_workers (s : Store) (t : thread) (s' : Store) (t' : thread)
    (evs : list event) (u : string) :
  thread_step s t = Step s' t' evs →
  workers s' !! u = workers s !! u ∨
  (∃ h, t = THandler h ∧ h_pc h = C72 ∧ u = h_uuid h ∧
        t' = THandler (h_goto h C73) ∧ is_Some (workers s' !! u)) ∨
  (∃ w r, t = TTask w ∧ w_pc w = W129 r ∧ u = w_uuid w ∧
          t' = TTask (w_goto w (W130 r)) ∧ workers s' !! u = None).
Proof.
  intros H. destruct t as [w|r|h|m].
  - apply thread_step_task in H as (w' & -> & H).
    destruct w as [n u0 cnt i pc].
    destruct pc; unfold task_step, wg_Done, wg_Add in H; cbn in H;
      repeat (case_bool_decide || case_match); simplify_eq; cbn; try by left.
    destruct (decide (u = u0)) as [->|Hne].
    + right; right. eexists _, _. split_and!; try done. by rewrite lookup_delete_eq.
    + left. by rewrite lookup_delete_ne.
  - left. destruct r as [u0 []]; unfold thread_step, rollBack_step, wg_Done, wg_Add in H;
      cbn in H; repeat case_bool_decide; cbn in H; simplify_eq; done.
  - apply thread_step_handler in H as (h' & -> & H).
    destruct h as [r u0 pc].
    destruct pc; cbn in H; unfold send_step in H;
      repeat (case_bool_decide || case_match); simplify_eq; cbn; try by left.
    destruct (decide (u = u0)) as [->|Hne].
    + right; left. eexists. split_and!; try done. cbn. rewrite lookup_insert_eq. eauto.
    + left. by rewrite lookup_insert_ne.
  - left. destruct m as [| |[|k todo]|k todo|c todo| | | | |];
      unfold thread_step in H; cbn in H;
      repeat (case_bool_decide || case_match); cbn in H; simplify_eq; done.
Qed.

(** what a step does to an entry of [states] *)
Lemma step_states (s : Store) (t : thread) (s' : Store) (t' : thread)
    (evs : list event) (u : string) :
  thread_step s t = Step s' t' evs →
  states s' !! u = states s !! u ∨
  is_Some (states s' !! u) ∨
  (∃ w r, t = TTask w ∧ w_pc w = W130 r ∧ u = w_uuid w).
Proof.
  intros H. destruct t as [w|r|h|m].
  - apply thread_step_task in H as (w' & -> & H).
    destruct w as [n u0 cnt i pc].
    destruct pc; unfold task_step, wg_Done, wg_Add in H; cbn in H;
      repeat (case_bool_decide || case_match); simplify_eq; cbn; try by left.
    destruct (decide (u = u0)) as [->|Hne].
    + right; right. by eexists _, _.
    + left. by rewrite lookup_delete_ne.
  - left. destruct r as [u0 []]; unfold thread_step, rollBack_step, wg_Done, wg_Add in H;
      cbn in H; repeat case_bool_decide; cbn in H; simplify_eq; done.
  - apply thread_step_handler in H as (h' & -> & H).
    destruct h as [r u0 pc].
    destruct pc; cbn in H; unfold send_step in H;
      repeat (case_bool_decide || case_match); simplify_eq; cbn; try (by left);
      (destruct (decide (u = u0)) as [->|Hne];
       [right; left; rewrite lookup_insert_eq; eauto
       |left; by rewrite lookup_insert_ne]).
  - left. destruct m as [| |[|k todo]|k todo|c todo| | | | |];
      unfold thread_step in H; cbn in H;
      repeat (case_bool_decide || case_match); cbn in H; simplify_eq; done.
Qed.

(** what a step does to the id its goroutine keeps registered *)
Lemma step_relies (s : Store) (t : thread) (s' : Store) (t' : thread)
    (evs : list event) :
  thread_step s t = Step s' t' evs →
  (relies t' = relies t ∧ omap relies (forks evs) = []) ∨
  (∃ h, t = THandler h ∧ h_pc h = C72 ∧ relies t = None ∧
        relies t' = Some (h_uuid h) ∧ forks evs = [] ∧
        is_Some (workers s' !! h_uuid h)) ∨
  (∃ h, t = THandler h ∧ h_pc h = C74 ∧ relies t' = None ∧ s' = s ∧
        ∃ w, forks evs = [TTask w] ∧ relies (TTask w) = Some (h_uuid h)) ∨
  (∃ w r, t = TTask w ∧ w_pc w = W129 r ∧ relies t' = None ∧ forks evs = [] ∧
          workers s' !! w_uuid w = None).
Proof.
  intros H. destruct t as [w|r|h|m].
  - apply thread_step_task in H as (w' & -> & H).
    destruct w as [n u0 cnt i pc].
    destruct pc; unfold task_step, wg_Done, wg_Add in H; cbn in H;
      repeat (case_bool_decide || case_match); simplify_eq; cbn; try by left.
    right; right; right. eexists _, _. split_and!; try done.
    cbn. by rewrite lookup_delete_eq.
  - left. destruct r as [u0 []]; unfold thread_step, rollBack_step, wg_Done, wg_Add in H;
      cbn in H; repeat case_bool_decide; cbn in H; simplify_eq; done.
  - apply thread_step_handler in H as (h' & -> & H).
    destruct h as [r u0 pc].
    destruct pc; cbn in H; unfold send_step in H;
      repeat (case_bool_decide || case_match); simplify_eq; cbn; try by left.
    + right; left. eexists. split_and!; try done. cbn.
      rewrite lookup_insert_eq. eauto.
    + right; right; left. eexists. split_and!; try done. by eexists.
  - left. destruct m as [| |[|k todo]|k todo|c todo| | | | |];
      unfold thread_step in H; cbn in H;
      repeat (case_bool_decide || case_match); cbn in H; simplify_eq; done.
Qed.

Lemma relies_claim (t : thread) (u : string) :
  on_route t → relies t = Some u → claim t = Some u.
Proof.
  destruct t as [w|r|h|m]; try done.
  - destruct w as [n u' cnt i pc]. by destruct pc; cbn; intros _ [= <-].
  - destruct h as [r u' pc]. intros [Hs Hid]. cbn in *.
    destruct pc, r; try done; intros [= <-]; by rewrite (Hid raw).
Qed.

Lemma lookup_pool_other (p : list thread) (tid tid2 : nat) (t2 t' : thread)
    (new : list thread) :
  tid2 ≠ tid → p !! tid2 = Some t2 →
  (<[tid := t']> p ++ new) !! tid2 = Some t2.
Proof.
  intros Hne Hl. rewrite (lookup_pool_step _ _ tid _ t' _ Hl).
  by rewrite decide_False.
Qed.

Lemma lookup_pool_self (p : list thread) (tid : nat) (t t' : thread)
    (new : list thread) :
  p !! tid = Some t → (<[tid := t']> p ++ new) !! tid = Some t'.
Proof.
  intros Hl. rewrite (lookup_pool_step _ _ tid _ t' _ Hl). by rewrite decide_True.
Qed.

Lemma lookup_pool_inv (p : list thread) (tid tid2 : nat) (t t' t2 : thread)
    (new : list thread) :
  p !! tid = Some t →
  (<[tid := t']> p ++ new) !! tid2 = Some t2 →
  (tid2 = tid ∧ t2 = t') ∨ (tid2 ≠ tid ∧ p !! tid2 = Some t2) ∨ t2 ∈ new.
Proof.
  intros Ht [Hl|[_ Hl]]%lookup_app_Some.
  - apply list_lookup_insert_Some in Hl as [(<- & <- & _)|[Hne Hl]]; [by left|].
    right; left. by split.
  - right; right. by eapply list_elem_of_lookup_2.
Qed.

Lemma sched_tracked (a : action) (g g' : Global) (tr : trace) :
  sched a g = Some (g', tr) → safe g → tracked g → tracked g'.
Proof.
  intros H Hsafe [T1 T2 T3 T4].
  pose proof (safe_claims _ Hsafe) as Hnd. pose proof (safe_route _ Hsafe) as Hrt.
  unfold sched in H. destruct (over g); [done|]. destruct a as [tid|r|].
  - destruct (pool g !! tid) as [t|] eqn:Ht; [|done].
    pose proof (proj1 (Forall_lookup _ _) Hrt _ _ Ht) as Hrt_t.
    assert (Hclash : ∀ tid2 t2 u, tid2 ≠ tid → pool g !! tid2 = Some t2 →
                       claim t = Some u → claim t2 = Some u → False).
    { intros tid2 t2 u Hne Hl Hc Hc2.
      by apply (NoDup_omap_lookup claim _ _ _ _ _ _ _ Hnd Ht Hl (not_eq_sym Hne) Hc Hc2). }
    destruct (thread_step (store g) t) as [s' t' evs| | |] eqn:E; simplify_eq.
    + pose proof (step_relies _ _ _ _ _ E) as Hrel.
      split; cbn.
      * (* every registered id has its goroutine *)
        intros u Hu.
        destruct (step_workers _ _ _ _ _ u E)
          as [Heq|[(h & -> & Hpc & -> & -> & _)|(w & r & _ & _ & _ & _ & Hno)]].
        -- rewrite Heq in Hu. destruct (T1 u Hu) as (tid2 & t2 & Hl & Hr2).
           destruct (decide (tid2 = tid)) as [->|Hne];
             [|exists tid2, t2; split; [by apply lookup_pool_other|done]].
           assert (t2 = t) as -> by congruence.
           destruct Hrel as [[Hr' _]|[(h & -> & _ & Hr0 & _)
                            |[(h & -> & Hpc & _ & -> & w & Hf & Hrw)
                            |(w & r & -> & Hpc & _ & _ & Hno)]]].
           ++ exists tid, t'. split; [by eapply lookup_pool_self|congruence].
           ++ congruence.
           ++ exists (length (pool g)), (TTask w). split.
              ** rewrite lookup_app_r; rewrite length_insert; [|done].
                 by rewrite Nat.sub_diag, Hf.
              ** cbn in Hr2. rewrite Hpc in Hr2. congruence.
           ++ cbn in Hr2. rewrite Hpc in Hr2. simplify_eq.
              rewrite <- Heq, Hno in Hu. by destruct Hu.
        -- exists tid, (THandler (h_goto h C73)).
           split; [by eapply lookup_pool_self|done].
        -- rewrite Hno in Hu. by destruct Hu.
      * (* every goroutine that relies on an id finds it registered *)
        intros tid2 t2 u Hl Hr2.
        destruct (lookup_pool_inv _ _ _ _ _ _ _ Ht Hl) as [[-> ->]|[[Hne Hl2]|Hin]].
        -- destruct Hrel as [[Hr' _]|[(h & -> & _ & _ & Hr1 & _ & Hreg)
                            |[(h & -> & _ & Hr0 & _)|(w & r & -> & _ & Hr0 & _)]]];
             [|congruence..].
           ++ pose proof Hr2 as Hr2'. rewrite Hr' in Hr2.
              pose proof (T2 _ _ _ Ht Hr2) as Hu.
              destruct (step_workers _ _ _ _ _ u E)
                as [Heq|[(h & _ & _ & _ & _ & Hs)|(w & r & -> & Hpc & _ & -> & _)]];
                [by rewrite Heq|done|]. by cbn in Hr2'.
        -- pose proof (T2 _ _ _ Hl2 Hr2) as Hu.
           destruct (step_workers _ _ _ _ _ u E)
             as [Heq|[(h & _ & _ & _ & _ & Hs)|(w & r & -> & Hpc & -> & _ & _)]];
             [by rewrite Heq|done|].
           exfalso. apply (Hclash tid2 t2 (w_uuid w) Hne Hl2 eq_refl).
           apply relies_claim; [|done].
           by apply (proj1 (Forall_lookup _ _) Hrt _ _ Hl2).
        -- destruct Hrel as [[_ Hf]|[(h & _ & _ & _ & _ & Hf & _)
                            |[(h & -> & Hpc & _ & -> & w & Hf & Hrw)
                            |(w & r & _ & _ & _ & Hf & _)]]].
           ++ assert (u ∈ omap relies (forks evs)) as Hu
                by (apply list_elem_of_omap; eauto).
              rewrite Hf in Hu. by apply elem_of_nil in Hu.
           ++ rewrite Hf in Hin. by apply elem_of_nil in Hin.
           ++ rewrite Hf in Hin. apply list_elem_of_singleton in Hin as ->.
              apply (T2 tid (THandler h)); [done|]. cbn. rewrite Hpc. congruence.
           ++ rewrite Hf in Hin. by apply elem_of_nil in Hin.
      * (* a worker past line 129 is not registered *)
        intros tid2 w Hl Hr2.
        destruct (lookup_pool_inv _ _ _ _ _ _ _ Ht Hl) as [[-> Heq]|[[Hne Hl2]|Hin]].
        -- subst t'. pose proof (thread_step_kind _ _ _ _ _ E) as Hk.
           destruct t as [w0| | |]; try done.
           apply thread_step_task in E as (w1 & [= <-] & E).
           clear Hrel. destruct w0 as [n u0 cnt i pc].
           destruct pc; unfold task_step, wg_Done, wg_Add in E; cbn in E;
             repeat (case_bool_decide || case_match); simplify_eq; cbn in *;
             try done.
           ++ by rewrite lookup_delete_eq.
           ++ by apply (T3 tid (mkW n u0 cnt i (W130 r))).
        -- pose proof (T3 _ _ Hl2 Hr2) as Hno.
           destruct (step_workers _ _ _ _ _ (w_uuid w) E)
             as [Heq|[(h & -> & Hpc & Hu & _ & _)|(w0 & r & _ & _ & _ & _ & Hn)]];
             [by rewrite Heq| |done].
           exfalso. apply (Hclash tid2 (TTask w) (w_uuid w) Hne Hl2); [|done].
           destruct Hrt_t as [Hs Hid]. destruct h as [rq u0 pc]. cbn in *. subst.
           destruct rq; try done. by rewrite (Hid raw).
        -- destruct (step_forks _ _ _ _ _ E)
             as [Hf|[(h & -> & Hpc & -> & Hf)|(w0 & -> & Hf)]];
             rewrite Hf in Hin.
           ++ by apply elem_of_nil in Hin.
           ++ apply list_elem_of_singleton in Hin. by simplify_eq.
           ++ apply list_elem_of_singleton in Hin. by simplify_eq.
      * (* every registered id has a cached state, or is being created *)
        intros u Hu.
        destruct (step_workers _ _ _ _ _ u E)
          as [Heq|[(h & -> & Hpc & -> & -> & _)|(w & r & _ & _ & _ & _ & Hno)]].
        -- rewrite Heq in Hu. destruct (T4 u Hu) as [Hst|(tid3 & h3 & Hl3 & Hpc3 & Hu3)].
           ++ destruct (step_states _ _ _ _ _ u E)
                as [Hs|[Hs|(w & r & -> & Hpc & ->)]]; [left; by rewrite Hs|by left|].
              exfalso. rewrite (T3 tid w) in Hu; [by destruct Hu|done|].
              cbn. by rewrite Hpc.
           ++ destruct (decide (tid3 = tid)) as [->|Hne].
              ** left. assert (t = THandler h3) as -> by congruence.
                 clear Hrel. destruct h3 as [rq u3 pc3]. cbn in Hpc3, Hu3. subst.
                 unfold thread_step, handler_step in E. cbn in E. simplify_eq.
                 cbn. rewrite lookup_insert_eq. eauto.
              ** right. exists tid3, h3. split; [cbn; by apply lookup_pool_other|done].
        -- right. exists tid, (h_goto h C73).
           split; [cbn; by eapply lookup_pool_self|done].
        -- rewrite Hno in Hu. by destruct Hu.
    + destruct t as [w|r|h|m]; cbn in *; try (by split).
      destruct (handler_step (store g) h) eqn:Eh; cbn in E; simplify_eq.
      assert (Hsend : relies (THandler h) = None ∧ h_pc h ≠ C73).
      { destruct h as [rq u pc]. by destruct pc, rq; cbn in *; repeat case_bool_decide. }
      destruct Hsend as [Hr0 Hpc0].
      split; cbn.
      * intros u Hu. destruct (T1 u Hu) as (tid2 & t2 & Hl & Hr2).
        exists tid2, t2. split; [|done].
        rewrite list_lookup_insert_ne; [done|]. intros <-. congruence.
      * intros tid2 t2 u [(<- & <- & _)|[Hne Hl]]%list_lookup_insert_Some Hr2;
          [done|]. by eapply T2.
      * intros tid2 w [(_ & ? & _)|[Hne Hl]]%list_lookup_insert_Some Hr2;
          [done|]. by eapply T3.
      * intros u Hu. destruct (T4 u Hu) as [?|(tid3 & h3 & Hl3 & Hpc3 & Hu3)];
          [by left|].
        right. exists tid3, h3. split; [|done]. cbn.
        rewrite list_lookup_insert_ne; [done|]. intros <-. congruence.
  - destruct (admissible g r); simplify_eq. split; cbn.
    + intros u Hu. destruct (T1 u Hu) as (tid2 & t2 & Hl & Hr2).
      exists tid2, t2. split; [|done]. rewrite lookup_app_l; [done|].
      by eapply lookup_lt_Some.
    + intros tid2 t2 u [Hl|[_ Hl]]%lookup_app_Some Hr2; [by eapply T2|].
      apply list_lookup_singleton_Some in Hl as [_ <-]. by destruct r.
    + intros tid2 w [Hl|[_ Hl]]%lookup_app_Some Hr2; [by eapply T3|].
      by apply list_lookup_singleton_Some in Hl as [_ ?].
    + intros u Hu. destruct (T4 u Hu) as [?|(tid3 & h3 & Hl3 & Hpc3 & Hu3)];
        [by left|].
      right. exists tid3, h3. split; [|done]. cbn. rewrite lookup_app_l; [done|].
      by eapply lookup_lt_Some.
  - simplify_eq. by split.
Qed.

Lemma run_tracked (sc : list action) :
  ∀ (g g' : Global) (tr : trace),
    run sc g = Some (g', tr) → safe g → tracked g → tracked g'.
Proof.
  induction sc as [|a sc IH]; intros g g' tr H Hs Hg; cbn in H; [by simplify_eq|].
  destruct (sched a g) as [[g1 tr1]|] eqn:Hsc; [|done].
  destruct (run sc g1) as [[g2 tr2]|] eqn:Hr; [|done]. simplify_eq.
  eapply IH; [done|by eapply sched_safe|by eapply sched_tracked].
Qed.

Lemma init_tracked : tracked init.
Proof.
  split; cbn.
  - intros u [c Hc]. by rewrite lookup_empty in Hc.
  - intros [|[|tid]] t u; cbn; intros; by simplify_eq.
  - intros [|[|tid]] w; cbn; intros; by simplify_eq.
  - intros u [c Hc]. by rewrite lookup_empty in Hc.
Qed.

Lemma reachable_tracked (g : Global) : reachable g → tracked g.
Proof.
  intros (sc & tr & H). eapply run_tracked; [done|apply init_safe|apply init_tracked].
Qed.

(** X26: In every reachable state the keys of [workers] are the ids of the
    live tasks: an id is registered exactly when some goroutine keeps it
    registered, which is [CreateTask] between line 72 and its [go]
    statement or the id's worker before the [delete] of line 129.  So a
    task exists from line 72 until its worker, killed or completed, runs
    line 129, and not after; and until the close of line 128 its channel
    is open. *)
Theorem registry_tracks_live_tasks (g : Global) :
  reachable g →
  (∀ u, Exists (store g) u ↔ ∃ tid t, pool g !! tid = Some t ∧ relies t = Some u) ∧
  (∀ tid w, pool g !! tid = Some (TTask w) →
     match w_pc w with
     | W130 _ | WExit _ => ¬ Exists (store g) (w_uuid w)
     | W129 _ => Exists (store g) (w_uuid w)
     | _ => registered_open (store g) (w_uuid w)
     end).
Proof.
  intros Hg. pose proof (reachable_tracked _ Hg) as [T1 T2 T3 _].
  pose proof (safe_owns _ (reachable_safe _ Hg)) as Hown.
  split.
  - intros u. split; [apply T1|]. intros (tid & t & Hl & Hr). by eapply T2.
  - intros tid w Hl. unfold Exists.
    destruct (w_pc w) eqn:Hpc;
      try (apply (Hown tid (TTask w)); [done|]; cbn; by rewrite Hpc).
    + apply (T2 tid (TTask w)); [done|]. cbn. by rewrite Hpc.
    + rewrite (T3 tid w); [by intros [? ?]|done|]. cbn. by rewrite Hpc.
    + rewrite (T3 tid w); [by intros [? ?]|done|]. cbn. by rewrite Hpc.
Qed.

Lemma registry_tracks_live_tasks_witness :
  Exists (store (after sc_created)) "7f3a01" ∧
  ¬ Exists (store (after sc_stale)) "7f3a01".
Proof.
  split.
  - destruct (registry_tracks_live_tasks (after sc_created)) as [H _].
    + apply reachable_after. vm_compute. eexists. reflexivity.
    + apply H. exists 2, (TTask (mkW 0 "7f3a01" 10 0 W194)).
      split; [vm_compute; reflexivity|reflexivity].
  - destruct (registry_tracks_live_tasks (after sc_stale)) as [_ H].
    + apply reachable_after. vm_compute. eexists. reflexivity.
    + apply (H 2 (mkW 0 "7f3a01" 10 1 (WExit RetKill))). vm_compute. reflexivity.
Defined.

(** X27: In every reachable state every registered id has a cached state,
    except while [CreateTask] is between its two writes (lines 72 and 73)
    for that id: the keys of [workers] are keys of [states] outside that
    window, although [states] may hold keys that [workers] lacks. *)
Theorem registered_ids_have_state (g : Global) (u : string) :
  reachable g →
  Exists (store g) u →
  is_Some (states (store g) !! u) ∨ creating g u.
Proof.
  intros Hg%reachable_tracked Hu. by apply (tracked_states _ Hg).
Qed.

Lemma registered_ids_have_state_witness :
  is_Some (states (store (after sc_created)) !! "7f3a01") ∨
  creating (after sc_created) "7f3a01".
Proof.
  apply registered_ids_have_state.
  - apply reachable_after. vm_compute. eexists. reflexivity.
  - vm_compute. eexists. reflexivity.
Defined.

(** ** The check of line 171 makes the receive of line 172 safe *)

Lemma chan_send_keeps_pending (h : list chan) (co : option nat) (v : Z) (h' : list chan) :
  chan_send h co v = Ok h' →
  ∀ c ch, h !! c = Some ch → buf ch ≠ [] →
          ∃ ch', h' !! c = Some ch' ∧ buf ch' ≠ [].
Proof.
  unfold chan_send, deref. destruct co as [r|]; [|done].
  destruct (h !! r) as [ch0|] eqn:Hr; [|done].
  destruct (closed ch0) eqn:Hcl; [done|]. case_bool_decide; [|done].
  intros [= <-] c ch Hc Ho. destruct (decide (c = r)) as [->|Hne].
  - eexists. split; [apply list_lookup_insert_eq; by eapply lookup_lt_Some|].
    cbn. by destruct (buf ch0).
  - exists ch. by rewrite list_lookup_insert_ne.
Qed.

Lemma chan_recv_other (h : list chan) (co : option nat) (v : Z) (h' : list chan) :
  chan_recv h co = Ok (v, h') →
  ∀ c, co ≠ Some c → h' !! c = h !! c.
Proof.
  unfold chan_recv, deref. destruct co as [r|]; [|done].
  destruct (h !! r) as [ch0|] eqn:Hr; [|done].
  destruct (buf ch0) as [|v0 rest].
  - destruct (closed ch0); [|done]. by intros [= <- <-].
  - intros [= <- <-] c Hne. rewrite list_lookup_insert_ne; [done|congruence].
Qed.

Lemma chan_close_keeps_pending (h : list chan) (co : option nat) (h' : list chan) :
  chan_close h co = Ok h' →
  ∀ c ch, h !! c = Some ch → buf ch ≠ [] →
          ∃ ch', h' !! c = Some ch' ∧ buf ch' ≠ [].
Proof.
  unfold chan_close, deref. destruct co as [r|]; [|done].
  destruct (h !! r) as [ch0|] eqn:Hr; [|done].
  destruct (closed ch0); [done|]. intros [= <-] c ch Hc Ho.
  destruct (decide (c = r)) as [->|Hne].
  - eexists. split; [apply list_lookup_insert_eq; by eapply lookup_lt_Some|].
    cbn. congruence.
  - exists ch. by rewrite list_lookup_insert_ne.
Qed.

Lemma pending_same (s s' : Store) (u : string) :
  workers s' = workers s → heap s' = heap s → pending s u → pending s' u.
Proof. intros Hw Hh (c & ch & ? & ? & ?). exists c, ch. by rewrite Hw, Hh. Qed.

Lemma pending_heap (s : Store) (h' : list chan) (u : string) :
  (∀ c ch, heap s !! c = Some ch → buf ch ≠ [] →
           ∃ ch', h' !! c = Some ch' ∧ buf ch' ≠ []) →
  pending s u → pending (set_heap h' s) u.
Proof.
  intros Hh (c & ch & Hw & Hc & Ho). destruct (Hh c ch Hc Ho) as (ch' & ? & ?).
  by exists c, ch'.
Qed.

Ltac keep_pending Hp :=
  first
    [ exact Hp
    | by apply (pending_same _ _ _ eq_refl eq_refl Hp)
    | match goal with
      | E : chan_send _ _ _ = Ok _ |- _ =>
          apply pending_heap; [apply (chan_send_keeps_pending _ _ _ _ E)|exact Hp]
      | E : chan_close _ _ = Ok _ |- _ =>
          apply pending_heap; [apply (chan_close_keeps_pending _ _ _ E)|exact Hp]
      end ].

(** a step of another goroutine leaves a waiting directive where it is *)
Lemma step_keeps_pending (s : Store) (t : thread) (s' : Store) (t' : thread)
    (evs : list event) (u2 : string) :
  thread_step s t = Step s' t' evs →
  on_route t → checked s t → claim t ≠ Some u2 →
  one_channel_each s →
  pending s u2 → pending s' u2.
Proof.
  intros H Hr Hck Hne Hinj Hp. destruct t as [w|r|h|m].
  - apply thread_step_task in H as (w' & -> & H).
    destruct w as [n u cnt i pc]. cbn in Hne, Hck.
    assert (Hrecv : ∀ co v h', co = workers s !! u →
              chan_recv (heap s) co = Ok (v, h') → pending (set_heap h' s) u2).
    { intros co v h' -> E. destruct Hp as (c2 & ch2 & Hw2 & Hc2 & Hb2).
      exists c2, ch2. split_and!; [done| |done]. cbn.
      rewrite (chan_recv_other _ _ _ _ E); [done|].
      intros Hc. apply Hne. f_equal. by apply (Hinj u u2 c2). }
    destruct pc; unfold task_step, wg_Done, wg_Add in H; cbn in H;
      repeat (case_bool_decide || case_match); simplify_eq; try keep_pending Hp.
    + by eapply Hrecv; [apply Hck|].
    + by eapply Hrecv.
    + (* line 129 *)
      destruct Hp as (c2 & ch2 & Hw2 & Hc2 & Ho2). exists c2, ch2.
      split_and!; [|done..]. cbn. rewrite lookup_delete_ne; [done|congruence].
  - destruct r as [u []]; unfold thread_step, rollBack_step, wg_Done, wg_Add in H;
      cbn in H; repeat case_bool_decide; cbn in H; simplify_eq; keep_pending Hp.
  - apply thread_step_handler in H as (h' & -> & H).
    destruct Hr as [Hs Hid]. destruct h as [r u pc]. cbn in Hs, Hid, Hne.
    destruct pc, r; try done; cbn in H; unfold send_step in H;
      repeat (case_bool_decide || case_match); simplify_eq; try keep_pending Hp.
    (* line 72 *)
    destruct Hp as (c2 & ch2 & Hw2 & Hc2 & Ho2). exists c2, ch2.
    split_and!; [| |done]; cbn.
    + rewrite lookup_insert_ne; [done|]. rewrite (Hid raw) by done. congruence.
    + rewrite lookup_app_l; [done|]. by eapply lookup_lt_Some.
  - destruct m as [| |[|k todo]|k todo|c todo| | | | |];
      unfold thread_step in H; cbn in H;
      repeat (case_bool_decide || case_match); cbn in H; simplify_eq;
      keep_pending Hp.
Qed.

(** a step of another goroutine leaves the entry of the id as it is *)
Lemma step_keeps_entry (s : Store) (t : thread) (s' : Store) (t' : thread)
    (evs : list event) (u2 : string) :
  thread_step s t = Step s' t' evs →
  on_route t → claim t ≠ Some u2 →
  workers s' !! u2 = workers s !! u2.
Proof.
  intros H Hr Hne.
  destruct (step_workers _ _ _ _ _ u2 H)
    as [Heq|[(h & -> & Hpc & -> & _ & _)|(w & r & -> & _ & -> & _ & _)]]; [done|..].
  - exfalso. apply Hne. destruct Hr as [Hs Hid]. destruct h as [rq u pc].
    cbn in *. subst. destruct rq; try done. by rewrite (Hid raw).
  - by exfalso.
Qed.

(** what a worker knows after a step of its own *)
Lemma step_checked (s : Store) (t : thread) (s' : Store) (t' : thread)
    (evs : list event) :
  thread_step s t = Step s' t' evs →
  checked s t → checked s' t' ∧ Forall (checked s') (forks evs).
Proof.
  intros H Hck. split.
  - destruct t as [w|r|h|m];
      [|pose proof (thread_step_kind _ _ _ _ _ H); by destruct t'..].
    apply thread_step_task in H as (w' & -> & H).
    destruct w as [n u cnt i pc]. cbn in Hck.
    destruct pc; unfold task_step, wg_Done, wg_Add in H; cbn in H;
      repeat (case_bool_decide || case_match); simplify_eq; cbn; try done.
    unfold pending.
    match goal with
    | Hlen : 0 < chan_len (heap ?st) (workers ?st !! ?u0) |- _ =>
        unfold chan_len, deref in Hlen;
        destruct (workers st !! u0) as [c|] eqn:Hw; [|cbn in Hlen; lia];
        destruct (heap st !! c) as [ch|] eqn:Hc; [|cbn in Hlen; lia];
        exists c, ch; split_and!; [done|done|]; intros Hb; rewrite Hb in Hlen;
        cbn in Hlen; lia
    end.
  - destruct (step_forks _ _ _ _ _ H) as [->|[(h & -> & _ & _ & ->)|(w & -> & ->)]];
      by repeat constructor.
Qed.

Lemma checked_same (s s' : Store) (t : thread) :
  workers s' = workers s → heap s' = heap s → checked s t → checked s' t.
Proof.
  intros Hw Hh. destruct t as [w| | |]; try done. destruct w as [n u cnt i pc].
  destruct pc; cbn; try done; rewrite ?Hw; try done.
  - by apply (pending_same s).
  - intros [-> Hp]. split; [done|]. by apply (pending_same s).
Qed.

Lemma sched_checked (a : action) (g g' : Global) (tr : trace) :
  sched a g = Some (g', tr) → safe g →
  Forall (checked (store g)) (pool g) → Forall (checked (store g')) (pool g').
Proof.
  intros H Hsafe Hck.
  pose proof (safe_claims _ Hsafe) as Hnd. pose proof (safe_route _ Hsafe) as Hrt.
  pose proof (safe_inj _ Hsafe) as Hinj.
  unfold sched in H. destruct (over g); [done|]. destruct a as [tid|r|].
  - destruct (pool g !! tid) as [t|] eqn:Ht; [|done].
    pose proof (proj1 (Forall_lookup _ _) Hrt _ _ Ht) as Hrt_t.
    pose proof (proj1 (Forall_lookup _ _) Hck _ _ Ht) as Hck_t.
    destruct (thread_step (store g) t) as [s' t' evs| | |] eqn:E; simplify_eq.
    + destruct (step_checked _ _ _ _ _ E Hck_t) as [Hck' Hckf]. cbn.
      apply Forall_app. split; [|done]. apply Forall_lookup. intros tid2 t2 Hl.
      apply list_lookup_insert_Some in Hl as [(<- & <- & _)|[Hne Hl]]; [done|].
      pose proof (proj1 (Forall_lookup _ _) Hck _ _ Hl) as Hck2.
      pose proof (proj1 (Forall_lookup _ _) Hrt _ _ Hl) as Hrt2.
      destruct t2 as [w2| | |]; try done.
      assert (Hc : claim t ≠ Some (w_uuid w2)).
      { intros Hc.
        by apply (NoDup_omap_lookup claim _ _ _ _ _ _ _ Hnd Ht Hl Hne Hc eq_refl). }
      pose proof (step_keeps_entry _ _ _ _ _ _ E Hrt_t Hc) as Hent.
      pose proof (step_keeps_pending _ _ _ _ _ _ E Hrt_t Hck_t Hc Hinj) as Hpen.
      destruct w2 as [n u cnt i pc]. cbn in *.
      destruct pc; try done.
      * by apply Hpen.
      * destruct Hck2 as [-> Hp]. split; [done|]. by apply Hpen.
      * by rewrite Hent.
    + destruct t as [w|r|h|m]; cbn in *; try done.
      by apply Forall_insert.
  - destruct (admissible g r); simplify_eq. cbn.
    apply Forall_app. split; [done|]. by repeat constructor.
  - simplify_eq. cbn. eapply Forall_impl; [exact Hck|].
    intros t. by apply (checked_same (store g)).
Qed.

Lemma run_checked (sc : list action) :
  ∀ (g g' : Global) (tr : trace),
    run sc g = Some (g', tr) → safe g →
    Forall (checked (store g)) (pool g) → Forall (checked (store g')) (pool g').
Proof.
  induction sc as [|a sc IH]; intros g g' tr H Hs Hg; cbn in H; [by simplify_eq|].
  destruct (sched a g) as [[g1 tr1]|] eqn:Hsc; [|done].
  destruct (run sc g1) as [[g2 tr2]|] eqn:Hr; [|done]. simplify_eq.
  eapply IH; [done|by eapply sched_safe|by eapply sched_checked].
Qed.

Lemma reachable_checked (g : Global) :
  reachable g → Forall (checked (store g)) (pool g).
Proof.
  intros (sc & tr & H). eapply run_checked; [done|apply init_safe|].
  by repeat constructor.
Qed.

(** X28: In every reachable state the receive of line 172 does not block:
    the worker is the only goroutine that takes directives off its
    channel, so the directive that the check of line 171 saw is still
    there, and the receive yields the head of the buffer, which is kill,
    pause or start.  The operand of each of the worker's receives is the
    channel registered for its id. *)
Theorem receive_after_check_never_blocks (g : Global) (tid : nat) (w : wlocal)
    (c : option nat) :
  reachable g →
  pool g !! tid = Some (TTask w) →
  w_pc w = W172r c →
  c = workers (store g) !! w_uuid w ∧
  ∃ r ch v rest,
    c = Some r ∧ heap (store g) !! r = Some ch ∧ buf ch = v :: rest ∧
    (v = kill ∨ v = pause ∨ v = start) ∧
    task_step (store g) w =
      Step (set_heap (<[r := mkChan (cap ch) rest (closed ch)]> (heap (store g)))
                     (store g))
           (w_goto w (W173 v)) [ERecv c v].
Proof.
  intros Hg Hl Hpc.
  pose proof (proj1 (Forall_lookup _ _) (reachable_checked _ Hg) _ _ Hl) as Hck.
  destruct (reachable_ok _ Hg) as [Hs _].
  destruct w as [n u cnt i pc]. cbn in *. subst pc.
  destruct Hck as [-> (r & ch & Hw & Hc & Hb)]. split; [done|].
  destruct (buf ch) as [|v rest] eqn:Hbuf; [done|].
  exists r, ch, v, rest. split_and!; try done.
  - destruct (proj1 (Forall_lookup _ _) (heap_ok _ Hs) _ _ Hc) as (_ & _ & Hd).
    rewrite Hbuf in Hd. by apply Forall_cons in Hd as [? _].
  - unfold task_step. cbn. rewrite Hw.
    by rewrite (chan_recv_head _ _ _ _ _ Hc Hbuf).
Qed.

Lemma receive_after_check_never_blocks_witness :
  let g := (run_from (steps 5 1 ++ steps 4 2) (after sc_spawned)).1 in
  ∃ s' w', task_step (store g) (mkW 0 "7f3a01" 10 0 (W172r (Some 0))) =
             Step s' w' [ERecv (Some 0) start].
Proof.
  intros g.
  destruct (receive_after_check_never_blocks g 2
              (mkW 0 "7f3a01" 10 0 (W172r (Some 0))) (Some 0))
    as (_ & r & ch & v & rest & Hr & Hc & Hb & _ & Hstep).
  - exists (sc_spawned ++ steps 5 1 ++ steps 4 2). eexists. vm_compute. reflexivity.
  - vm_compute. reflexivity.
  - reflexivity.
  - injection Hr as <-.
    assert (Hc0 : heap (store g) !! 0 = Some (mkChan 1 [start] false))
      by (vm_compute; reflexivity).
    rewrite Hc0 in Hc. injection Hc as <-. cbn in Hb. injection Hb as <- <-.
    eexists _, _. exact Hstep.
Defined.

(** ** [main] with nothing to terminate *)

(** X29: [main] waits at line 263 until a signal is delivered.  With a signal
    pending, no task registered and the wait-group counter at zero, it
    takes the signal, sends nothing in [TerminateTasks], passes the wait,
    logs twice, shuts the server down and returns; the store is as it
    was, but for the signal taken. *)
Theorem main_idle_shutdown (s : Store) :
  workers s = ∅ →
  wg s = 0%Z →
  (sigChan s = false →
   ∀ n, solo (S n) s (TMain Main263) = (s, TMain Main263, [], Stuck)) ∧
  (sigChan s = true →
   solo 8 s (TMain Main263) =
     (set_sigChan false s, TMain MainExit, main_exit, Finished)).
Proof.
  intros Hw Hwg. split.
  - intros Hsig n. rewrite solo_unfold. cbn. by rewrite Hsig.
  - intros Hsig. rewrite solo_unfold. cbn. rewrite Hsig. cbn.
    rewrite solo_unfold. cbn. rewrite Hw, map_to_list_empty. cbn.
    rewrite solo_unfold. cbn. rewrite solo_unfold. cbn. rewrite Hwg.
    decide_closed. cbn. by do 4 (rewrite solo_unfold; cbn).
Qed.

Lemma main_idle_shutdown_witness :
  solo 8 (set_sigChan true NewTaskHandler) (TMain Main263) =
    (NewTaskHandler, TMain MainExit, main_exit, Finished).
Proof.
  destruct (main_idle_shutdown (set_sigChan true NewTaskHandler)) as [_ H].
  - reflexivity.
  - reflexivity.
  - apply H. reflexivity.
Defined.
